(** * lmdb-go [wrap]: the coordination layer over the LMDB binding

    A shallow embedding of the package [wrap] (the facade
    New / Read / Write / Delete / Update / View / Close, the bounded
    queue of pending writes and its single worker goroutine), over an
    abstract storage engine, and the properties of its lifecycle,
    validation and write coordination. *)

From Stdlib Require Import ZArith List String Bool Lia.
From stdpp Require Import gmap strings list fin_maps.

Open Scope string_scope.
Open Scope list_scope.
Open Scope Z_scope.

(** ** Errors *)

(** The four sentinels of the package ([var ( Err... = errors.New(..) )]),
    the engine's [*OpError{Op, Errno}] (lmdb/error.go) and the [*PathError]
    of [os.MkdirAll]. *)
Inductive error : Type :=
  | ErrDuplicateDbName
  | ErrDbNameNotFound
  | ErrDBClosed
  | ErrEmptyKey
  | OpError (Op : string) (Errno : Z)
  | PathError (Op : string) (Path : string) (Errno : Z).

#[global] Instance error_eq_dec : EqDecision error.
Proof. solve_decision. Defined.

(** A Go [error] value: [None] is [nil]. *)
Abbreviation goerr := (option error).

#[global] Instance byte_eq_dec : EqDecision Byte.byte := Byte.byte_eq_dec.

(** [[]byte]: [None] is the nil slice, [Some l] a slice of contents [l]. *)
Definition bytes : Type := option (list Byte.byte).

Definition len (b : bytes) : Z :=
  match b with
  | None => 0
  | Some l => Z.of_nat (length l)
  end.

(** [lmdb.DBI], an unsigned handle. *)
Abbreviation DBI := Z.

(** ** Calls that may return, panic or block

    A Go call over a program state [S] ends in one of three ways: it
    returns a value, it panics (here with the runtime's message), or it
    blocks for ever.  The last two leave no value, only the state reached. *)
Inductive outcome (S A : Type) : Type :=
  | Returned (a : A) (s : S)
  | Panicked (msg : string) (s : S)
  | Blocked (s : S).
Arguments Returned {S A} _ _.
Arguments Panicked {S A} _ _.
Arguments Blocked {S A} _.

Definition prog (S A : Type) : Type := S -> outcome S A.

Definition ret {S A} (a : A) : prog S A := fun s => Returned a s.

Definition bind {S A B} (m : prog S A) (k : A -> prog S B) : prog S B :=
  fun s =>
    match m s with
    | Returned a s' => k a s'
    | Panicked msg s' => Panicked msg s'
    | Blocked s' => Blocked s'
    end.

Definition panic {S A} (msg : string) : prog S A := fun s => Panicked msg s.
Definition block {S A} : prog S A := fun s => Blocked s.
Definition get {S} : prog S S := fun s => Returned s s.
Definition modify {S} (f : S -> S) : prog S unit := fun s => Returned tt (f s).

(** [defer]: [cleanup] runs when [m] returns and also when it panics
    (the panic then goes on); a call that blocks never reaches it. *)
Definition deferred {S A} (cleanup : S -> S) (m : prog S A) : prog S A :=
  fun s =>
    match m s with
    | Returned a s' => Returned a (cleanup s')
    | Panicked msg s' => Panicked msg (cleanup s')
    | Blocked s' => Blocked s'
    end.

Declare Scope prog_scope.
Delimit Scope prog_scope with prog.
Notation "x <- c ;; k" := (bind c (fun x => k))
  (at level 100, c at next level, right associativity) : prog_scope.
Notation "c ;; k" := (bind c (fun _ => k))
  (at level 100, right associativity) : prog_scope.
Open Scope prog_scope.

(** ** The engine

    What the package calls and does not define: [os.MkdirAll] and the
    [lmdb] binding ([Env], [Txn]).  The environment and transaction
    handles are pointers; their state lives in [world]. *)
Class Lmdb : Type := {
  world : Type;
  Env : Type;
  Txn : Type;
  os_MkdirAll : string -> Z -> world -> goerr * world;
  lmdb_NewEnv : world -> (error + Env) * world;
  env_SetMaxDBs : Env -> Z -> world -> goerr * world;
  env_SetMapSize : Env -> Z -> world -> goerr * world;
  env_Open : Env -> string -> Z -> Z -> world -> goerr * world;
  env_ReaderCheck : Env -> world -> (Z * goerr) * world;
  env_Close : Env -> world -> goerr * world;
  env_BeginTxn : Env -> bool -> world -> (error + Txn) * world;
  txn_Commit : Txn -> world -> goerr * world;
  txn_Abort : Txn -> world -> world;
  txn_CreateDBI : Txn -> string -> world -> (DBI * goerr) * world;
  txn_Get : Txn -> DBI -> bytes -> world -> (bytes * goerr) * world;
  txn_Put : Txn -> DBI -> bytes -> bytes -> Z -> world -> goerr * world;
  txn_Del : Txn -> DBI -> bytes -> bytes -> world -> goerr * world
}.

(** A buffered channel [make(chan T, cap)]: its buffer in arrival order
    (head first out), its capacity, whether [close] was called. *)
Record chan (T : Type) : Type := mkChan {
  buf : list T;
  cap : nat;
  is_closed : bool
}.
Arguments mkChan {T} _ _ _.
Arguments buf {T} _.
Arguments cap {T} _.
Arguments is_closed {T} _.

Definition make_chan {T} (n : nat) : chan T := mkChan [] n false.

(** ** Go runtime objects

    The objects of the package, over the engine's types: [W] the engine
    state, [E] the environment handles, [T] the transaction handles. *)
Module Go.

(** [type updateOp struct { op lmdb.TxnOp; res chan<- error }].  The result
    channel is unbuffered and used once; [res] names it. *)
Record updateOp (T W : Type) : Type := mkUpdateOp {
  op : T -> W -> goerr * W;
  res : nat
}.
Arguments mkUpdateOp {T W} _ _.
Arguments op {T W} _.
Arguments res {T W} _.

(** [sync.Once]: not yet entered, inside [Do]'s function, done. *)
Inductive once : Type := OnceFresh | OnceRunning | OnceDone.

(** [type DB struct].  [wg] is the WaitGroup's counter, [closed] the
    [uint32] flag read and written atomically. *)
Record DB (E T W : Type) : Type := mkDB {
  env : E;
  dbs : gmap string DBI;
  uOps : chan (updateOp T W);
  wg : Z;
  closeOnce : once;
  closed : Z
}.
Arguments mkDB {E T W} _ _ _ _ _ _.
Arguments env {E T W} _.
Arguments dbs {E T W} _.
Arguments uOps {E T W} _.
Arguments wg {E T W} _.
Arguments closeOnce {E T W} _.
Arguments closed {E T W} _.

(** Each call the package makes to [os] or to an [Env] method, with its
    arguments and what it returned. *)
Inductive event (E : Type) : Type :=
  | EvMkdirAll (path : string) (perm : Z) (err : goerr)
  | EvNewEnv (r : error + E)
  | EvSetMaxDBs (e : E) (size : Z) (err : goerr)
  | EvSetMapSize (e : E) (size : Z) (err : goerr)
  | EvOpen (e : E) (path : string) (flags mode : Z) (err : goerr)
  | EvReaderCheck (e : E) (n : Z) (err : goerr)
  | EvUpdate (e : E) (name : string) (err : goerr)
  | EvUpdateLocked (e : E) (err : goerr)
  | EvView (e : E) (err : goerr)
  | EvClose (e : E) (err : goerr).
Arguments EvMkdirAll {E} _ _ _.
Arguments EvNewEnv {E} _.
Arguments EvSetMaxDBs {E} _ _ _.
Arguments EvSetMapSize {E} _ _ _.
Arguments EvOpen {E} _ _ _ _ _.
Arguments EvReaderCheck {E} _ _ _.
Arguments EvUpdate {E} _ _ _.
Arguments EvUpdateLocked {E} _ _.
Arguments EvView {E} _ _.
Arguments EvClose {E} _ _.

(** The program state.  [heap]: the allocated [DB] objects, a [*DB] being
    an index; [workers]: the worker goroutines still alive, each named by
    the [DB] it serves; [mail]: results sent on a result channel and not
    yet received; [nchan]: the next fresh channel name; [eng]: the engine;
    [log]: the calls made so far, oldest first. *)
Record state (E T W : Type) : Type := mkState {
  heap : list (DB E T W);
  workers : list nat;
  mail : gmap nat goerr;
  nchan : nat;
  eng : W;
  log : list (event E)
}.
Arguments mkState {E T W} _ _ _ _ _ _.
Arguments heap {E T W} _.
Arguments workers {E T W} _.
Arguments mail {E T W} _.
Arguments nchan {E T W} _.
Arguments eng {E T W} _.
Arguments log {E T W} _.

(** A goroutine of the interleaved runs: its program point. *)
Inductive thread (T W : Type) : Type :=
  (* db.Update(o) *)
  | UpdLoad (o : T -> W -> goerr * W)  (* at [atomic.LoadUint32(&db.closed)] *)
  | UpdSend (o : T -> W -> goerr * W)  (* at [res := make(..); db.uOps <- ..] *)
  | UpdRecv (r : nat)                  (* at [<-res] *)
  | UpdDone (e : goerr)                (* returned [e] *)
  (* db.Close() *)
  | ClsEnter                           (* at [db.closeOnce.Do] *)
  | ClsStore                           (* at [atomic.StoreUint32(&db.closed, 1)] *)
  | ClsCloseChan                       (* at [close(db.uOps)] *)
  | ClsWait                            (* at [db.wg.Wait()] *)
  | ClsEnvClose                        (* at [db.env.Close()] *)
  | ClsDone                            (* returned *)
  (* the goroutine of New *)
  | WkRecv                             (* at [range newDB.uOps] *)
  | WkExec (u : updateOp T W)          (* at [newDB.env.UpdateLocked(op.op)] *)
  | WkSend (r : nat) (e : goerr)       (* at [op.res <- ..] *)
  | WkDone.                            (* left the loop, [wg.Done()] called *)
Arguments UpdLoad {T W} _.
Arguments UpdSend {T W} _.
Arguments UpdRecv {T W} _.
Arguments UpdDone {T W} _.
Arguments ClsEnter {T W}.
Arguments ClsStore {T W}.
Arguments ClsCloseChan {T W}.
Arguments ClsWait {T W}.
Arguments ClsEnvClose {T W}.
Arguments ClsDone {T W}.
Arguments WkRecv {T W}.
Arguments WkExec {T W} _.
Arguments WkSend {T W} _ _.
Arguments WkDone {T W}.

(** The steps of the teardown in Close, as they are taken. *)
Inductive tstep : Type := TMarkClosed | TStopQueue | TDrained | TEnvClosed.

(** The goroutines and the shared state, with the history of the run:
    the requests in the order they entered the queue, the requests in the
    order their transaction ran, the teardown steps taken, and the panic
    that ended the process, if any. *)
Record cstate (E T W : Type) : Type := mkC {
  shared : state E T W;
  pool : list (thread T W);
  enqueued : list (updateOp T W);
  executed : list (updateOp T W);
  tlog : list tstep;
  dead : option string
}.
Arguments mkC {E T W} _ _ _ _ _ _.
Arguments shared {E T W} _.
Arguments pool {E T W} _.
Arguments enqueued {E T W} _.
Arguments executed {E T W} _.
Arguments tlog {E T W} _.
Arguments dead {E T W} _.

End Go.
Import Go.

(** The objects over the types of the engine at hand. *)
Abbreviation updateOp := (Go.updateOp Txn world).
Abbreviation DB := (Go.DB Env Txn world).
Abbreviation event := (Go.event Env).
Abbreviation state := (Go.state Env Txn world).
Abbreviation thread := (Go.thread Txn world).
Abbreviation cstate := (Go.cstate Env Txn world).

Definition teardown_seq : list tstep :=
  [TMarkClosed; TStopQueue; TDrained; TEnvClosed].

Section Wrap.
Context `{L : Lmdb}.

(** The body of a transaction.  [A] holds the variables the Go closure
    captures and assigns ([val] in Read, [newDB.dbs[name]] in New);
    a plain [lmdb.TxnOp] is [TxnBody unit]. *)
Definition TxnBody (A : Type) : Type := Txn -> world -> (A * goerr) * world.

(** [lmdb.TxnOp]: [func(txn *Txn) error]. *)
Definition TxnOp : Type := Txn -> world -> goerr * world.

Definition body_of (op : TxnOp) : TxnBody unit :=
  fun txn w => let '(e, w') := op txn w in ((tt, e), w').

(** Modelled from the spec: the engine's transaction runner behind
    [Env.Update], [Env.UpdateLocked] and [Env.View] (lmdb/env.go is not
    among the sources).  One transaction is begun
    ([readonly] for a read transaction); the operation runs in
    it; "commit on success, abort on operation failure, with the
    operation's error passed through unchanged".  [a0] is the value of the
    captured variables when the operation never runs. *)
Definition run_txn {A} (env : Env) (readonly : bool) (a0 : A) (fn : TxnBody A)
  : world -> (A * goerr) * world :=
  fun w =>
    match env_BeginTxn env readonly w with
    | (inl e, w1) => ((a0, Some e), w1)
    | (inr txn, w1) =>
        match fn txn w1 with
        | ((a, Some e), w2) => ((a, Some e), txn_Abort txn w2)
        | ((a, None), w2) =>
            let '(e, w3) := txn_Commit txn w2 in ((a, e), w3)
        end
    end.

(** Modelled from the spec: [env.Update(fn)] runs [fn] in one write
    transaction ("run one write transaction that creates-or-opens the
    named database"). *)
Definition env_Update {A} (env : Env) (a0 : A) (fn : TxnBody A) :=
  run_txn env false a0 fn.

(** Modelled from the spec: [env.UpdateLocked(op)] runs [op] in one write
    transaction ("executes it as one write transaction, delivering the
    transaction's outcome"); it differs from [env.Update] in who pins the
    OS thread, which has no counterpart here. *)
Definition env_UpdateLocked (env : Env) (op : TxnOp) : world -> goerr * world :=
  fun w => let '((_, e), w') := run_txn env false tt (body_of op) w in (e, w').

(** Modelled from the spec: [env.View(fn)] runs [fn] in one read
    transaction ("runs a direct (non-serialized) read transaction against
    the Environment Handle"). *)
Definition env_View {A} (env : Env) (a0 : A) (fn : TxnBody A) :=
  run_txn env true a0 fn.

(** *** State updates *)

Definition set_heap (f : list DB -> list DB) (s : state) : state :=
  mkState (f (heap s)) (workers s) (mail s) (nchan s) (eng s) (log s).
Definition set_workers (f : list nat -> list nat) (s : state) : state :=
  mkState (heap s) (f (workers s)) (mail s) (nchan s) (eng s) (log s).
Definition set_mail (f : gmap nat goerr -> gmap nat goerr) (s : state) : state :=
  mkState (heap s) (workers s) (f (mail s)) (nchan s) (eng s) (log s).
Definition set_nchan (f : nat -> nat) (s : state) : state :=
  mkState (heap s) (workers s) (mail s) (f (nchan s)) (eng s) (log s).

Definition set_uOps (f : chan updateOp -> chan updateOp) (d : DB) : DB :=
  mkDB (env d) (dbs d) (f (uOps d)) (wg d) (closeOnce d) (closed d).
Definition set_wg (f : Z -> Z) (d : DB) : DB :=
  mkDB (env d) (dbs d) (uOps d) (f (wg d)) (closeOnce d) (closed d).
Definition set_closeOnce (o : once) (d : DB) : DB :=
  mkDB (env d) (dbs d) (uOps d) (wg d) o (closed d).
Definition set_closed (v : Z) (d : DB) : DB :=
  mkDB (env d) (dbs d) (uOps d) (wg d) (closeOnce d) v.

(** Field access through a [*DB]; a dangling or nil pointer panics. *)
Definition deref (p : nat) : prog state DB :=
  fun s =>
    match heap s !! p with
    | Some d => Returned d s
    | None => Panicked "invalid memory address or nil pointer dereference" s
    end.

(** In-place update of the object behind [p]. *)
Definition update_db (p : nat) (f : DB -> DB) : state -> state :=
  set_heap (fun h => match h !! p with
                     | Some d => <[p := f d]> h
                     | None => h
                     end).

Definition store (p : nat) (f : DB -> DB) : prog state unit :=
  _ <- deref p;; modify (update_db p f).

(** [&DB{...}] escaping to the caller: a fresh index. *)
Definition alloc (d : DB) : prog state nat :=
  fun s => Returned (length (heap s)) (set_heap (fun h => h ++ [d]) s).

(** *** Engine calls, recorded *)

Definition call {A} (f : world -> A * world) (ev : A -> event) : prog state A :=
  fun s =>
    let '(a, w') := f (eng s) in
    Returned a (mkState (heap s) (workers s) (mail s) (nchan s) w' (log s ++ [ev a])).

Definition MkdirAll (path : string) (perm : Z) : prog state goerr :=
  call (os_MkdirAll path perm) (EvMkdirAll path perm).
Definition NewEnv : prog state (error + Env) :=
  call lmdb_NewEnv EvNewEnv.
Definition SetMaxDBs (e : Env) (size : Z) : prog state goerr :=
  call (env_SetMaxDBs e size) (EvSetMaxDBs e size).
Definition SetMapSize (e : Env) (size : Z) : prog state goerr :=
  call (env_SetMapSize e size) (EvSetMapSize e size).
Definition Open (e : Env) (path : string) (flags mode : Z) : prog state goerr :=
  call (env_Open e path flags mode) (EvOpen e path flags mode).
Definition ReaderCheck (e : Env) : prog state (Z * goerr) :=
  call (env_ReaderCheck e) (fun r => EvReaderCheck e (fst r) (snd r)).
Definition EnvUpdate {A} (e : Env) (name : string) (a0 : A) (fn : TxnBody A)
  : prog state (A * goerr) :=
  call (env_Update e a0 fn) (fun r => EvUpdate e name (snd r)).
Definition EnvUpdateLocked (e : Env) (o : TxnOp) : prog state goerr :=
  call (env_UpdateLocked e o) (EvUpdateLocked e).
Definition EnvView {A} (e : Env) (a0 : A) (fn : TxnBody A) : prog state (A * goerr) :=
  call (env_View e a0 fn) (fun r => EvView e (snd r)).
Definition EnvClose (e : Env) : prog state goerr :=
  call (env_Close e) (EvClose e).

(** ** The worker goroutine and the scheduler *)

(** [op.res <- r]: the result is handed to the one caller that receives
    on the channel named [r]. *)
Definition send_res (r : nat) (e : goerr) : prog state unit :=
  modify (set_mail (fun m => <[r := e]> m)).

(** [newDB.wg.Add(n)]; [Done] is [Add(-1)]. *)
Definition wg_Add (p : nat) (n : Z) : prog state unit :=
  d <- deref p;;
  if wg d + n <? 0 then panic "sync: negative WaitGroup counter"
  else store p (set_wg (fun c => c + n)).

Definition wg_Done (p : nat) : prog state unit := wg_Add p (-1).

(** The body of [for op := range newDB.uOps], once for each request
    received, in the order received:
    [op.res <- newDB.env.UpdateLocked(op.op)]. *)
Fixpoint worker_range (p : nat) (received : list updateOp) : prog state unit :=
  match received with
  | [] => ret tt
  | u :: rest =>
      d <- deref p;;
      r <- EnvUpdateLocked (env d) (op u);;
      send_res (res u) r;;
      worker_range p rest
  end.

(** The goroutine started by New, from the moment it is woken until it
    parks again on an empty open channel or leaves the loop because the
    channel is closed and drained.  No request can arrive while it runs
    (the callers are suspended), so it receives what the buffer holds.
    On leaving, the deferred function runs [newDB.wg.Done()]. *)
Definition worker (p : nat) : prog state unit :=
  d <- deref p;;
  store p (set_uOps (fun c => mkChan [] (cap c) (is_closed c)));;
  worker_range p (buf (uOps d));;
  if is_closed (uOps d) then
    wg_Done p;;
    modify (set_workers (List.filter (fun q => negb (Nat.eqb q p))))
  else ret tt.

Fixpoint run_each (ps : list nat) : prog state unit :=
  match ps with
  | [] => ret tt
  | p :: ps' => worker p;; run_each ps'
  end.

(** A caller about to suspend lets every live worker run. *)
Definition yield : prog state unit :=
  s <- get;; run_each (workers s).

(** [go func() {...}()] in New. *)
Definition spawn_worker (p : nat) : prog state unit :=
  modify (set_workers (fun ws => ws ++ [p])).

(** ** Channel and synchronisation primitives, caller side *)

Definition enqueue (u : updateOp) (c : chan updateOp) : chan updateOp :=
  mkChan (buf c ++ [u]) (cap c) (is_closed c).

Definition is_full (c : chan updateOp) : bool :=
  negb (Nat.ltb (length (buf c)) (cap c)).

(** [db.uOps <- u] at one instant: it panics on a closed channel, queues
    the request when the buffer has room, and cannot proceed when it has
    none. *)
Definition try_send (p : nat) (u : updateOp) : prog state unit :=
  d <- deref p;;
  if is_closed (uOps d) then panic "send on closed channel"
  else if is_full (uOps d) then block
  else store p (set_uOps (enqueue u)).

(** [db.uOps <- u] for a caller running alone: finding the buffer full,
    it suspends until the worker has made room. *)
Definition send_uOps (p : nat) (u : updateOp) : prog state unit :=
  d <- deref p;;
  if is_closed (uOps d) then panic "send on closed channel"
  else if is_full (uOps d) then yield;; try_send p u
  else try_send p u.

(** [res := make(chan error)]. *)
Definition make_res : prog state nat :=
  s <- get;; modify (set_nchan S);; ret (nchan s).

(** [<-res]: the caller suspends until the worker has sent. *)
Definition recv_res (r : nat) : prog state goerr :=
  yield;;
  s <- get;;
  match mail s !! r with
  | Some e => modify (set_mail (delete r));; ret e
  | None => block
  end.

(** [close(db.uOps)]. *)
Definition close_uOps (p : nat) : prog state unit :=
  d <- deref p;;
  if is_closed (uOps d) then panic "close of closed channel"
  else store p (set_uOps (fun c => mkChan (buf c) (cap c) true)).

(** [db.wg.Wait()]. *)
Definition wg_Wait (p : nat) : prog state unit :=
  yield;;
  d <- deref p;;
  if wg d =? 0 then ret tt else block.

(** [atomic.LoadUint32(&db.closed)], [atomic.StoreUint32(&db.closed, v)]. *)
Definition load_closed (p : nat) : prog state Z :=
  d <- deref p;; ret (closed d).

Definition store_closed (p : nat) (v : Z) : prog state unit :=
  store p (set_closed v).

(** [db.closeOnce.Do(f)]: [f] runs for the first caller only; the Once
    is done when [f] has returned or panicked.  A caller arriving while
    [f] runs waits for it. *)
Definition closeOnce_Do (p : nat) (f : prog state unit) : prog state unit :=
  d <- deref p;;
  match closeOnce d with
  | OnceDone => ret tt
  | OnceRunning => block
  | OnceFresh =>
      store p (set_closeOnce OnceRunning);;
      deferred (update_db p (set_closeOnce OnceDone)) f
  end.

(** ** The package (src/unnamed/part_001) *)

(** [const MapSize = 10 * 1 << 30]: in Go [*] and [<<] bind alike and
    associate to the left. *)
Definition MapSize : Z := Z.shiftl (10 * 1) 30.

(** The octal literals [0755] and [0644]. *)
Definition mode_0755 : Z := 7 * 64 + 5 * 8 + 5.
Definition mode_0644 : Z := 6 * 64 + 4 * 8 + 4.

(** The capacity given to [make(chan *updateOp, 1000)]. *)
Definition uOpsCap : nat := 1000.

(** The result triple of New: the Go triple [*DB, int, error], [None] for [nil]. *)
Definition NewResult : Type := (option nat * Z * goerr)%type.

(** The first loop of New, [seen] being the map used as a set. *)
Fixpoint unique_names (seen : gset string) (dbNames : list string) : goerr :=
  match dbNames with
  | [] => None
  | n :: rest =>
      if decide (n ∈ seen) then Some ErrDuplicateDbName
      else unique_names ({[n]} ∪ seen) rest
  end.

(** The function literal passed to [env.Update] in New:
    [newDB.dbs[name], err = txn.CreateDBI(name); return err].  Its first
    result is the handle assigned to [newDB.dbs[name]]. *)
Definition create_dbi (name : string) : TxnBody (option DBI) :=
  fun txn w =>
    let '((dbi, err), w') := txn_CreateDBI txn name w in ((Some dbi, err), w').

(** The second loop of New, over the names left; [m] is [newDB.dbs].
    [inl e]: the transaction failed with [e] and the environment has been
    closed; [inr m']: every handle is registered. *)
Fixpoint open_dbis (e : Env) (names : list string) (m : gmap string DBI)
  : prog state (error + gmap string DBI) :=
  match names with
  | [] => ret (inr m)
  | name :: rest =>
      r <- EnvUpdate e name None (create_dbi name);;
      let m' := match fst r with
                | Some dbi => <[name := dbi]> m
                | None => m
                end in
      match snd r with
      | Some err => _ <- EnvClose e;; ret (inl err)
      | None => open_dbis e rest m'
      end
  end.

Definition New (dirPath : string) (dbNames : list string) : prog state NewResult :=
  match unique_names ∅ dbNames with
  | Some err => ret (None, 0, Some err)
  | None =>
  err <- MkdirAll dirPath mode_0755;;
  match err with
  | Some err => ret (None, 0, Some err)
  | None =>
  let newDB_dbs : gmap string DBI := ∅ in
  let newDB_uOps : chan updateOp := make_chan uOpsCap in
  r <- NewEnv;;
  match r with
  | inl err => ret (None, 0, Some err)
  | inr newDB_env =>
  err <- SetMaxDBs newDB_env (Z.of_nat (length dbNames));;
  match err with
  | Some err => ret (None, 0, Some err)
  | None =>
  err <- SetMapSize newDB_env MapSize;;
  match err with
  | Some err => ret (None, 0, Some err)
  | None =>
  err <- Open newDB_env dirPath 0 mode_0644;;
  match err with
  | Some err => ret (None, 0, Some err)
  | None =>
  rc <- ReaderCheck newDB_env;;
  let staleReaders := fst rc in
  match snd rc with
  | Some err => _ <- EnvClose newDB_env;; ret (None, 0, Some err)
  | None =>
  r <- open_dbis newDB_env dbNames newDB_dbs;;
  match r with
  | inl err => ret (None, staleReaders, Some err)
  | inr m =>
  newDB <- alloc (mkDB newDB_env m newDB_uOps 0 OnceFresh 0);;
  wg_Add newDB 1;;
  spawn_worker newDB;;
  ret (Some newDB, staleReaders, None)
  end end end end end end end end.

(** [validateArgs]: the helper of Read, Write and Delete. *)
Definition validateArgs (p : nat) (dbName : string) (key : bytes)
  : prog state (DBI * goerr) :=
  if decide (dbName = "") then ret (0, Some ErrDbNameNotFound)
  else if (bool_decide (key = None) || (len key =? 0))%bool
  then ret (0, Some ErrEmptyKey)
  else
    d <- deref p;;
    match dbs d !! dbName with
    | None => ret (0, Some ErrDbNameNotFound)
    | Some dbi => ret (dbi, None)
    end.

Definition Update (p : nat) (o : TxnOp) : prog state goerr :=
  c <- load_closed p;;
  if negb (c =? 0) then ret (Some ErrDBClosed)
  else
    r <- make_res;;
    send_uOps p (mkUpdateOp o r);;
    recv_res r.

Definition View (p : nat) (o : TxnOp) : prog state goerr :=
  c <- load_closed p;;
  if negb (c =? 0) then ret (Some ErrDBClosed)
  else
    d <- deref p;;
    r <- EnvView (env d) tt (body_of o);;
    ret (snd r).

Definition Read (p : nat) (dbName : string) (key : bytes) : prog state (bytes * goerr) :=
  v <- validateArgs p dbName key;;
  match snd v with
  | Some err => ret (None, Some err)
  | None =>
      d <- deref p;;
      EnvView (env d) None (fun txn => txn_Get txn (fst v) key)
  end.

Definition Write (p : nat) (dbName : string) (key value : bytes) : prog state goerr :=
  v <- validateArgs p dbName key;;
  match snd v with
  | Some err => ret (Some err)
  | None => Update p (fun txn => txn_Put txn (fst v) key value 0)
  end.

Definition Delete (p : nat) (dbName : string) (key : bytes) : prog state goerr :=
  v <- validateArgs p dbName key;;
  match snd v with
  | Some err => ret (Some err)
  | None => Update p (fun txn => txn_Del txn (fst v) key None)
  end.

Definition GetDBis (p : nat) : prog state (gmap string DBI) :=
  d <- deref p;; ret (dbs d).

(** The function passed to [db.closeOnce.Do] in Close. *)
Definition teardown (p : nat) : prog state unit :=
  store_closed p 1;;
  close_uOps p;;
  wg_Wait p;;
  d <- deref p;;
  _ <- EnvClose (env d);;
  ret tt.

Definition Close (p : nat) : prog state unit :=
  closeOnce_Do p (teardown p).

(** ** The goroutines, interleaved

    Callers of [Update] and of [Close] and the worker run as goroutines
    over one [DB], each step of a goroutine being one access to the shared
    object, in any interleaving. *)

(** One step of a goroutine on the shared state.  [Blocked]: it cannot
    move now.  The two ends of an unbuffered channel move together, in
    [cstep] below. *)
Definition thread_step (p : nat) (t : thread) : prog state thread :=
  match t with
  | UpdLoad o =>
      c <- load_closed p;;
      ret (if negb (c =? 0) then UpdDone (Some ErrDBClosed) else UpdSend o)
  | UpdSend o =>
      r <- make_res;;
      try_send p (mkUpdateOp o r);;
      ret (UpdRecv r)
  | UpdRecv _ => block
  | UpdDone _ => block
  | ClsEnter =>
      d <- deref p;;
      match closeOnce d with
      | OnceDone => ret ClsDone
      | OnceRunning => block
      | OnceFresh => store p (set_closeOnce OnceRunning);; ret ClsStore
      end
  | ClsStore => store_closed p 1;; ret ClsCloseChan
  | ClsCloseChan => close_uOps p;; ret ClsWait
  | ClsWait =>
      d <- deref p;;
      if wg d =? 0 then ret ClsEnvClose else block
  | ClsEnvClose =>
      d <- deref p;;
      _ <- EnvClose (env d);;
      store p (set_closeOnce OnceDone);;
      ret ClsDone
  | ClsDone => block
  | WkRecv =>
      d <- deref p;;
      match buf (uOps d) with
      | u :: rest =>
          store p (set_uOps (fun c => mkChan rest (cap c) (is_closed c)));;
          ret (WkExec u)
      | [] =>
          if is_closed (uOps d) then wg_Done p;; ret WkDone else block
      end
  | WkExec u =>
      d <- deref p;;
      e <- EnvUpdateLocked (env d) (op u);;
      ret (WkSend (res u) e)
  | WkSend _ _ => block
  | WkDone => block
  end.

(** What a step adds to the history. *)
Definition note (t t' : thread) (c : cstate) : cstate :=
  match t, t' with
  | UpdSend o, UpdRecv r =>
      mkC (shared c) (pool c) (enqueued c ++ [mkUpdateOp o r]) (executed c) (tlog c) (dead c)
  | WkExec u, _ =>
      mkC (shared c) (pool c) (enqueued c) (executed c ++ [u]) (tlog c) (dead c)
  | ClsStore, _ =>
      mkC (shared c) (pool c) (enqueued c) (executed c) (tlog c ++ [TMarkClosed]) (dead c)
  | ClsCloseChan, _ =>
      mkC (shared c) (pool c) (enqueued c) (executed c) (tlog c ++ [TStopQueue]) (dead c)
  | ClsWait, _ =>
      mkC (shared c) (pool c) (enqueued c) (executed c) (tlog c ++ [TDrained]) (dead c)
  | ClsEnvClose, _ =>
      mkC (shared c) (pool c) (enqueued c) (executed c) (tlog c ++ [TEnvClosed]) (dead c)
  | _, _ => c
  end.

Definition is_recv (r : nat) (t : thread) : bool :=
  match t with
  | UpdRecv r' => Nat.eqb r r'
  | _ => false
  end.

Fixpoint find_index {A} (f : A -> bool) (l : list A) : option nat :=
  match l with
  | [] => None
  | x :: l' => if f x then Some O else option_map S (find_index f l')
  end.

(** Goroutine [i] takes a step, if it can.  The worker's send on a result
    channel and the caller's receive are one step.  A panic ends the
    process: nothing moves afterwards. *)
Definition cstep (p : nat) (i : nat) (c : cstate) : option cstate :=
  match dead c with
  | Some _ => None
  | None =>
      match pool c !! i with
      | None => None
      | Some (WkSend r e) =>
          match find_index (is_recv r) (pool c) with
          | Some j =>
              Some (mkC (shared c) (<[j := UpdDone e]> (<[i := WkRecv]> (pool c)))
                        (enqueued c) (executed c) (tlog c) (dead c))
          | None => None
          end
      | Some t =>
          match thread_step p t (shared c) with
          | Returned t' s' =>
              Some (note t t' (mkC s' (<[i := t']> (pool c))
                                   (enqueued c) (executed c) (tlog c) (dead c)))
          | Panicked msg s' =>
              Some (mkC s' (pool c) (enqueued c) (executed c) (tlog c) (Some msg))
          | Blocked _ => None
          end
      end
  end.

(** A run under a schedule: the goroutine named moves if it can. *)
Fixpoint crun (p : nat) (sched : list nat) (c : cstate) : cstate :=
  match sched with
  | [] => c
  | i :: rest =>
      match cstep p i c with
      | Some c' => crun p rest c'
      | None => crun p rest c
      end
  end.

(** The callers present from the start: each is about to enter [Update]
    or [Close]. *)
Definition is_entry (t : thread) : bool :=
  match t with
  | UpdLoad _ | ClsEnter => true
  | _ => false
  end.

(** The goroutines right after [New] returned [p]: the worker it started,
    parked on the queue, and the callers. *)
Definition start (s : state) (callers : list thread) : cstate :=
  mkC s (WkRecv :: callers) [] [] [] None.


End Wrap.

(** ** The earlier revision of the package (src/wrap/wrap.go)

    Its [New] is the one above, line for line; its [DB] has no
    [closeOnce] and no [closed] field (both stay at their zero value
    here).  The functions that differ: *)
Module WrapGo.
Section WrapGo.
Context `{L : Lmdb}.

(** [update] sends the operation to the worker and waits for the result. *)
Definition update (p : nat) (o : TxnOp) : prog state goerr :=
  r <- make_res;;
  send_uOps p (mkUpdateOp o r);;
  recv_res r.

Definition parseArgs (p : nat) (dbName : string) (key : bytes)
  : prog state (DBI * goerr) :=
  if decide (dbName = "") then ret (0, Some ErrDbNameNotFound)
  else if (bool_decide (key = None) || (len key =? 0))%bool
  then ret (0, Some ErrEmptyKey)
  else
    d <- deref p;;
    match dbs d !! dbName with
    | None => ret (0, Some ErrDbNameNotFound)
    | Some dbi => ret (dbi, None)
    end.

Definition Read (p : nat) (dbName : string) (key : bytes) : prog state (bytes * goerr) :=
  v <- parseArgs p dbName key;;
  match snd v with
  | Some err => ret (None, Some err)
  | None =>
      d <- deref p;;
      EnvView (env d) None (fun txn => txn_Get txn (fst v) key)
  end.

Definition Write (p : nat) (dbName : string) (key value : bytes) : prog state goerr :=
  v <- parseArgs p dbName key;;
  match snd v with
  | Some err => ret (Some err)
  | None => update p (fun txn => txn_Put txn (fst v) key value 0)
  end.

Definition Delete (p : nat) (dbName : string) (key : bytes) : prog state goerr :=
  v <- parseArgs p dbName key;;
  match snd v with
  | Some err => ret (Some err)
  | None => update p (fun txn => txn_Del txn (fst v) key None)
  end.

Definition Close (p : nat) : prog state unit :=
  close_uOps p;;
  wg_Wait p;;
  d <- deref p;;
  _ <- EnvClose (env d);;
  ret tt.

End WrapGo.
End WrapGo.

(** ** The errors of the binding (lmdb/error.go, src/unnamed/part_000) *)
Module lmdb.

(** The return codes of lmdb.h that error.go reads through cgo and its
    functions use: [C.MDB_SUCCESS], the bounds [C.MDB_KEYEXIST] and
    [C.MDB_LAST_ERRCODE] of [minErrno, maxErrno], and the codes behind
    [NotFound], [MapFull] and [MapResized]. *)
Class Header : Type := {
  MDB_SUCCESS : Z;
  MDB_KEYEXIST : Z;
  MDB_NOTFOUND : Z;
  MDB_MAP_FULL : Z;
  MDB_MAP_RESIZED : Z;
  MDB_LAST_ERRCODE : Z
}.

(** The non-nil values of the interface [error] that the file tells
    apart, by dynamic type: an [Errno] (a [C.int]); a [syscall.Errno] (a
    [uintptr]); a [*OpError], either a pointer to a struct or the nil
    pointer of that type; an error of any other type.  The functions of
    the file never compare two [*OpError], so the address is left out. *)
#[local] Unset Elimination Schemes.
Inductive err : Type :=
  | Errno (n : Z)
  | SysErrno (n : Z)
  | OpError (Op : string) (errno : option err)
  | NilOpError
  | Other (name : string).
#[local] Set Elimination Schemes.

(** A Go [error]: [None] is [nil]. *)
Definition goerror : Type := option err.

(** A call that returns or panics. *)
Inductive result (A : Type) : Type :=
  | Value (a : A)
  | Panic (msg : string).
Arguments Value {A} _.
Arguments Panic {A} _.

(** [C.int] to [uintptr], as in [syscall.Errno(ret)]: the value modulo
    the width of a pointer, 64 bits. *)
Definition uintptr (x : Z) : Z := x mod 2 ^ 64.

(** [err == errno] with [errno] of type [Errno], and with [errno] of type
    [syscall.Errno]: interface values are equal when their dynamic types
    and their values are. *)
Definition eq_Errno (errno : Z) (e : goerror) : bool :=
  match e with
  | Some (Errno n) => n =? errno
  | _ => false
  end.

Definition eq_SysErrno (errno : Z) (e : goerror) : bool :=
  match e with
  | Some (SysErrno n) => n =? errno
  | _ => false
  end.

(** [IsErrnoFn]: [fn] on [err.Errno] when [err] is an [*OpError], on
    [err] itself otherwise; reading [err.Errno] through the nil pointer
    panics. *)
Definition IsErrnoFn (e : goerror) (fn : goerror -> bool) : result bool :=
  match e with
  | None => Value false
  | Some (OpError _ errno) => Value (fn errno)
  | Some NilOpError => Panic "invalid memory address or nil pointer dereference"
  | Some _ => Value (fn e)
  end.

Definition IsErrno (e : goerror) (errno : Z) : result bool :=
  IsErrnoFn e (eq_Errno errno).

Definition IsErrnoSys (e : goerror) (errno : Z) : result bool :=
  IsErrnoFn e (eq_SysErrno errno).

Section Codes.
Context `{H : Header}.

Definition NotFound : Z := MDB_NOTFOUND.
Definition MapFull : Z := MDB_MAP_FULL.
Definition MapResized : Z := MDB_MAP_RESIZED.

Definition minErrno : Z := MDB_KEYEXIST.
Definition maxErrno : Z := MDB_LAST_ERRCODE.

(** [operrno(op, ret)]. *)
Definition operrno (op : string) (ret : Z) : goerror :=
  if ret =? MDB_SUCCESS then None
  else if (minErrno <=? ret) && (ret <=? maxErrno)
  then Some (OpError op (Some (Errno ret)))
  else Some (OpError op (Some (SysErrno (uintptr ret)))).

Definition IsNotFound (e : goerror) : result bool := IsErrno e NotFound.
Definition IsMapFull (e : goerror) : result bool := IsErrno e MapFull.
Definition IsMapResized (e : goerror) : result bool := IsErrno e MapResized.

End Codes.

(** The codes as lmdb.h defines them. *)
Definition lmdb_h : Header := {|
  MDB_SUCCESS := 0;
  MDB_KEYEXIST := -30799;
  MDB_NOTFOUND := -30798;
  MDB_MAP_FULL := -30792;
  MDB_MAP_RESIZED := -30785;
  MDB_LAST_ERRCODE := -30780
|}.

End lmdb.

(** ** A reference engine

    An in-memory engine with scripted faults, on which the package can be
    run: named databases are association lists, a write transaction works
    on a copy that [Commit] installs.  Each fallible call consumes one
    entry of [faults] and fails with it when it is an error.  It stands in
    for the binding wherever a property is evaluated on a concrete run. *)
Module Sim.

Definition row : Type := (Z * list Byte.byte * list Byte.byte)%type.

Record senv : Type := mkSenv {
  maxdbs : Z;
  mapsize : Z;
  opened : option string;
  shut : bool;
  names : list string;
  data : list row
}.

Record stxn : Type := mkStxn {
  tenv : nat;
  ro : bool;
  tnames : list string;
  tdata : list row
}.

Record sworld : Type := mkW {
  faults : list goerr;
  dirs : list string;
  envs : list senv;
  txns : list stxn
}.

Definition EINVAL : Z := 22.
Definition EACCES : Z := 13.
Definition NOTFOUND : Z := -30798.
Definition DBS_FULL : Z := -30791.

Definition pop_fault (w : sworld) : goerr * sworld :=
  match faults w with
  | [] => (None, w)
  | f :: fs => (f, mkW fs (dirs w) (envs w) (txns w))
  end.

Definition set_env (e : nat) (v : senv) (w : sworld) : sworld :=
  mkW (faults w) (dirs w) (<[e := v]> (envs w)) (txns w).

Definition set_txn (t : nat) (v : stxn) (w : sworld) : sworld :=
  mkW (faults w) (dirs w) (envs w) (<[t := v]> (txns w)).

(** A call on an environment that must still be usable. *)
Definition on_env {A} (fn : string) (dflt : A) (e : nat)
    (f : senv -> sworld -> (A * goerr) * sworld) (w : sworld) : (A * goerr) * sworld :=
  let '(flt, w1) := pop_fault w in
  match flt with
  | Some err => ((dflt, Some err), w1)
  | None =>
      match envs w1 !! e with
      | Some v => if shut v then ((dflt, Some (OpError fn EINVAL)), w1) else f v w1
      | None => ((dflt, Some (OpError fn EINVAL)), w1)
      end
  end.

Definition on_txn {A} (fn : string) (dflt : A) (t : nat)
    (f : stxn -> sworld -> (A * goerr) * sworld) (w : sworld) : (A * goerr) * sworld :=
  let '(flt, w1) := pop_fault w in
  match flt with
  | Some err => ((dflt, Some err), w1)
  | None =>
      match txns w1 !! t with
      | Some v => f v w1
      | None => ((dflt, Some (OpError fn EINVAL)), w1)
      end
  end.

Definition drop_unit {W} (r : (unit * goerr) * W) : goerr * W := (snd (fst r), snd r).

Definition MkdirAll (path : string) (perm : Z) (w : sworld) : goerr * sworld :=
  let '(flt, w1) := pop_fault w in
  match flt with
  | Some err => (Some err, w1)
  | None => (None, mkW (faults w1) (path :: dirs w1) (envs w1) (txns w1))
  end.

Definition NewEnv (w : sworld) : (error + nat) * sworld :=
  let '(flt, w1) := pop_fault w in
  match flt with
  | Some err => (inl err, w1)
  | None =>
      (inr (length (envs w1)),
       mkW (faults w1) (dirs w1) (envs w1 ++ [mkSenv 0 0 None false [] []]) (txns w1))
  end.

Definition SetMaxDBs (e : nat) (n : Z) (w : sworld) : goerr * sworld :=
  drop_unit (on_env "mdb_env_set_maxdbs" tt e (fun v w1 =>
    ((tt, None), set_env e (mkSenv n (mapsize v) (opened v) (shut v) (names v) (data v)) w1)) w).

Definition SetMapSize (e : nat) (n : Z) (w : sworld) : goerr * sworld :=
  drop_unit (on_env "mdb_env_set_mapsize" tt e (fun v w1 =>
    ((tt, None), set_env e (mkSenv (maxdbs v) n (opened v) (shut v) (names v) (data v)) w1)) w).

Definition EnvOpen (e : nat) (path : string) (flags mode : Z) (w : sworld) : goerr * sworld :=
  drop_unit (on_env "mdb_env_open" tt e (fun v w1 =>
    ((tt, None),
     set_env e (mkSenv (maxdbs v) (mapsize v) (Some path) (shut v) (names v) (data v)) w1)) w).

Definition ReaderCheck (e : nat) (w : sworld) : (Z * goerr) * sworld :=
  on_env "mdb_reader_check" 0 e (fun v w1 => ((0, None), w1)) w.

Definition EnvClose (e : nat) (w : sworld) : goerr * sworld :=
  drop_unit (on_env "mdb_env_close" tt e (fun v w1 =>
    ((tt, None),
     set_env e (mkSenv (maxdbs v) (mapsize v) (opened v) true (names v) (data v)) w1)) w).

Definition BeginTxn (e : nat) (readonly : bool) (w : sworld) : (error + nat) * sworld :=
  let '(r, w1) := on_env "mdb_txn_begin" 0%nat e (fun v w1 =>
    match opened v with
    | None => ((0%nat, Some (OpError "mdb_txn_begin" EINVAL)), w1)
    | Some _ =>
        ((length (txns w1), None),
         mkW (faults w1) (dirs w1) (envs w1)
             (txns w1 ++ [mkStxn e readonly (names v) (data v)]))
    end) w in
  match snd r with
  | Some err => (inl err, w1)
  | None => (inr (fst r), w1)
  end.

Definition Commit (t : nat) (w : sworld) : goerr * sworld :=
  drop_unit (on_txn "mdb_txn_commit" tt t (fun v w1 =>
    if ro v then ((tt, None), w1)
    else
      match envs w1 !! tenv v with
      | Some ev =>
          ((tt, None),
           set_env (tenv v)
             (mkSenv (maxdbs ev) (mapsize ev) (opened ev) (shut ev) (tnames v) (tdata v)) w1)
      | None => ((tt, Some (OpError "mdb_txn_commit" EINVAL)), w1)
      end) w).

Definition Abort (t : nat) (w : sworld) : sworld := w.

Fixpoint index_of (name : string) (l : list string) (i : nat) : option nat :=
  match l with
  | [] => None
  | x :: l' => if String.eqb x name then Some i else index_of name l' (Datatypes.S i)
  end.

Definition CreateDBI (t : nat) (name : string) (w : sworld) : (DBI * goerr) * sworld :=
  on_txn "mdb_dbi_open" 0 t (fun v w1 =>
    match index_of name (tnames v) 0 with
    | Some i => ((Z.of_nat i + 2, None), w1)
    | None =>
        match envs w1 !! tenv v with
        | Some ev =>
            if Z.of_nat (length (tnames v)) <? maxdbs ev then
              ((Z.of_nat (length (tnames v)) + 2, None),
               set_txn t (mkStxn (tenv v) (ro v) (tnames v ++ [name]) (tdata v)) w1)
            else ((0, Some (OpError "mdb_dbi_open" DBS_FULL)), w1)
        | None => ((0, Some (OpError "mdb_dbi_open" EINVAL)), w1)
        end
    end) w.

Definition contents (b : bytes) : list Byte.byte :=
  match b with
  | None => []
  | Some l => l
  end.

Definition same_key (dbi : Z) (k : list Byte.byte) (r : row) : bool :=
  (fst (fst r) =? dbi) && bool_decide (snd (fst r) = k).

Definition find_row (dbi : Z) (k : list Byte.byte) (rows : list row) : option (list Byte.byte) :=
  match List.find (same_key dbi k) rows with
  | Some r => Some (snd r)
  | None => None
  end.

Definition drop_row (dbi : Z) (k : list Byte.byte) (rows : list row) : list row :=
  List.filter (fun r => negb (same_key dbi k r)) rows.

Definition Get (t : nat) (dbi : DBI) (key : bytes) (w : sworld) : (bytes * goerr) * sworld :=
  on_txn "mdb_get" None t (fun v w1 =>
    match find_row dbi (contents key) (tdata v) with
    | Some val => ((Some val, None), w1)
    | None => ((None, Some (OpError "mdb_get" NOTFOUND)), w1)
    end) w.

Definition Put (t : nat) (dbi : DBI) (key val : bytes) (flags : Z) (w : sworld)
  : goerr * sworld :=
  drop_unit (on_txn "mdb_put" tt t (fun v w1 =>
    if ro v then ((tt, Some (OpError "mdb_put" EACCES)), w1)
    else
      ((tt, None),
       set_txn t (mkStxn (tenv v) (ro v) (tnames v)
                    ((dbi, contents key, contents val) :: drop_row dbi (contents key) (tdata v)))
               w1)) w).

Definition Del (t : nat) (dbi : DBI) (key val : bytes) (w : sworld) : goerr * sworld :=
  drop_unit (on_txn "mdb_del" tt t (fun v w1 =>
    if ro v then ((tt, Some (OpError "mdb_del" EACCES)), w1)
    else
      match find_row dbi (contents key) (tdata v) with
      | None => ((tt, Some (OpError "mdb_del" NOTFOUND)), w1)
      | Some _ =>
          ((tt, None),
           set_txn t (mkStxn (tenv v) (ro v) (tnames v)
                        (drop_row dbi (contents key) (tdata v))) w1)
      end) w).

#[export] Instance engine : Lmdb := {|
  world := sworld;
  Env := nat;
  Txn := nat;
  os_MkdirAll := MkdirAll;
  lmdb_NewEnv := NewEnv;
  env_SetMaxDBs := SetMaxDBs;
  env_SetMapSize := SetMapSize;
  env_Open := EnvOpen;
  env_ReaderCheck := ReaderCheck;
  env_Close := EnvClose;
  env_BeginTxn := BeginTxn;
  txn_Commit := Commit;
  txn_Abort := Abort;
  txn_CreateDBI := CreateDBI;
  txn_Get := Get;
  txn_Put := Put;
  txn_Del := Del
|}.

(** A world with the given fault script and nothing else, and the
    program state that starts on it. *)
Definition fresh_world (fs : list goerr) : sworld := mkW fs [] [] [].

Definition boot (fs : list goerr) : state :=
  mkState [] [] ∅ 0%nat (fresh_world fs) [].

(** [[]byte(s)]. *)
Definition B (s : string) : bytes := Some (list_byte_of_string s).

(** The state a call ends in. *)
Definition ended {A} (o : outcome state A) : state :=
  match o with
  | Returned _ s => s
  | Panicked _ s => s
  | Blocked s => s
  end.

(** What a call returned, if it did. *)
Definition returned {A} (o : outcome state A) : option A :=
  match o with
  | Returned a _ => Some a
  | _ => None
  end.

(** Sample runs: after [New("/d", {"a", "b"})] with no fault, and after a
    [Close] of the [DB] it returned; the [DB] behind the pointer 0. *)
Definition after_New : state := ended (New "/d" ["a"; "b"] (boot [])).

Definition after_Close : state := ended (Close 0 after_New).

Definition db_at (s : state) : DB :=
  default (mkDB 0%nat ∅ (make_chan 0) 0 OnceFresh 0) (heap s !! 0%nat).

(** Sample operations: [txn.Put(dbi, "k1", "v1", 0)], [txn.Del(dbi, "k1", nil)]. *)
Definition put_k1 : TxnOp := fun txn => Put txn 2 (B "k1") (B "v1") 0.
Definition del_k1 : TxnOp := fun txn => Del txn 2 (B "k1") None.

(** Fault scripts: the fifth call, [env.Open], fails; the eleventh call,
    [txn.CreateDBI("b")] in the second transaction of New, fails. *)
Definition open_fails : list goerr :=
  [None; None; None; None; Some (OpError "mdb_env_open" EACCES)].

Definition second_dbi_fails : list goerr :=
  [None; None; None; None; None; None; None; None; None; None;
   Some (OpError "mdb_dbi_open" DBS_FULL)].

(** Three callers, two of Update and one of Close, and a schedule that
    lets both requests in, runs them, then closes. *)
Definition three_callers : list thread :=
  [UpdLoad put_k1; UpdLoad del_k1; ClsEnter].

Definition a_schedule : list nat :=
  [1; 2; 2; 1; 3; 3; 0; 0; 0; 0; 0; 0; 3; 3; 0; 3; 3]%nat.

(** More fault scripts: the first call, [os.MkdirAll], fails; the sixth
    call, [env.ReaderCheck], fails. *)
Definition mkdir_fails : list goerr := [Some (PathError "mkdir" "/d" EACCES)].

Definition readers_fail : list goerr :=
  [None; None; None; None; None; Some (OpError "mdb_reader_check" EINVAL)].

(** A caller of Update and a caller of Close, and the schedule of their
    race: the first reads the flag, the second stores it and closes the
    queue, the first sends. *)
Definition two_callers : list thread := [UpdLoad put_k1; ClsEnter].

Definition a_race : list nat := [1; 2; 2; 2; 1]%nat.

End Sim.

(** * Vocabulary of the properties *)

Section Vocabulary.
Context `{L : Lmdb}.

(** A nil or zero-length key. *)
Definition empty_key (key : bytes) : Prop := key = None \/ key = Some [].

(** Two states with the same Go objects (they may differ in the engine
    and in the log). *)
Definition same_go (s s' : state) : Prop :=
  heap s' = heap s /\ workers s' = workers s /\
  mail s' = mail s /\ nchan s' = nchan s.

(** The calls of a New that got as far as a successful [env.Open]. *)
Definition config_events (dirPath : string) (n : Z) (e : Env) : list event :=
  [EvMkdirAll dirPath mode_0755 None; EvNewEnv (inr e);
   EvSetMaxDBs e n None; EvSetMapSize e MapSize None;
   EvOpen e dirPath 0 mode_0644 None].

Definition ok_updates (e : Env) (names : list string) : list event :=
  map (fun n => EvUpdate e n None) names.

(** The runs of [New dirPath dbNames]: the calls it makes, with what each
    returned, and the triple it returns; one case for each [return]. *)
Inductive NewRun (dirPath : string) (dbNames : list string)
  : list event -> NewResult -> Prop :=
  | NR_duplicate :
      ~ NoDup dbNames ->
      NewRun dirPath dbNames [] (None, 0, Some ErrDuplicateDbName)
  | NR_mkdir err :
      NewRun dirPath dbNames
        [EvMkdirAll dirPath mode_0755 (Some err)] (None, 0, Some err)
  | NR_newenv err :
      NewRun dirPath dbNames
        [EvMkdirAll dirPath mode_0755 None; EvNewEnv (inl err)] (None, 0, Some err)
  | NR_maxdbs e err :
      NewRun dirPath dbNames
        [EvMkdirAll dirPath mode_0755 None; EvNewEnv (inr e);
         EvSetMaxDBs e (Z.of_nat (length dbNames)) (Some err)] (None, 0, Some err)
  | NR_mapsize e err :
      NewRun dirPath dbNames
        [EvMkdirAll dirPath mode_0755 None; EvNewEnv (inr e);
         EvSetMaxDBs e (Z.of_nat (length dbNames)) None;
         EvSetMapSize e MapSize (Some err)] (None, 0, Some err)
  | NR_open e err :
      NewRun dirPath dbNames
        [EvMkdirAll dirPath mode_0755 None; EvNewEnv (inr e);
         EvSetMaxDBs e (Z.of_nat (length dbNames)) None;
         EvSetMapSize e MapSize None;
         EvOpen e dirPath 0 mode_0644 (Some err)] (None, 0, Some err)
  | NR_readers e n err cerr :
      NewRun dirPath dbNames
        (config_events dirPath (Z.of_nat (length dbNames)) e ++
         [EvReaderCheck e n (Some err); EvClose e cerr]) (None, 0, Some err)
  | NR_dbi e n opened name rest err cerr :
      dbNames = opened ++ name :: rest ->
      NewRun dirPath dbNames
        (config_events dirPath (Z.of_nat (length dbNames)) e ++
         [EvReaderCheck e n None] ++ ok_updates e opened ++
         [EvUpdate e name (Some err); EvClose e cerr]) (None, n, Some err)
  | NR_ok e n p :
      NoDup dbNames ->
      NewRun dirPath dbNames
        (config_events dirPath (Z.of_nat (length dbNames)) e ++
         [EvReaderCheck e n None] ++ ok_updates e dbNames) (Some p, n, None).

(** The Go objects after New: none when it failed; when it returned [p],
    one new [DB] at [p] over the environment [e], with an empty open queue
    of capacity 1000, every name registered, and its worker started. *)
Definition new_objects (dbNames : list string) (s : state) (r : NewResult)
    (evs : list event) (s' : state) : Prop :=
  mail s' = mail s /\ nchan s' = nchan s /\
  match fst (fst r) with
  | None => heap s' = heap s /\ workers s' = workers s
  | Some p =>
      p = length (heap s) /\
      workers s' = workers s ++ [p] /\
      exists e m,
        In (EvNewEnv (inr e)) evs /\
        heap s' = heap s ++ [mkDB e m (make_chan uOpsCap) 1 OnceFresh 0] /\
        (forall n, n ∈ dbNames -> is_Some (m !! n))
  end.

(** [ev] is a call of [Close] on the environment [e]. *)
Definition is_close_of (e : Env) (ev : event) : Prop :=
  exists err, ev = EvClose e err.

(** The state a call ends in, however it ends. *)
Definition final {A} (o : outcome state A) : state :=
  match o with
  | Returned _ s => s
  | Panicked _ s => s
  | Blocked s => s
  end.

(** What the queue traffic may change in a [DB]: its queue and its
    WaitGroup counter, and nothing else. *)
Definition db_frame (d d' : DB) : Prop :=
  env d' = env d /\ dbs d' = dbs d /\
  closeOnce d' = closeOnce d /\ closed d' = closed d.

Definition heap_frame (s s' : state) : Prop :=
  forall q d, heap s !! q = Some d ->
    exists d', heap s' !! q = Some d' /\ db_frame d d'.

(** A program that, however it ends, has changed the Go objects within
    [heap_frame]. *)
Definition framed {A} (m : prog state A) : Prop :=
  forall s, heap_frame s (final (m s)).

(** A [DB] at rest: open, its queue empty with room in it. *)
Definition at_rest (d : DB) : Prop :=
  closed d = 0 /\ buf (uOps d) = [] /\ is_closed (uOps d) = false /\
  (0 < cap (uOps d))%nat.

(** *** The interleaved runs *)

(** The goroutine of New, at any of its program points. *)
Definition is_worker (t : thread) : bool :=
  match t with
  | WkRecv | WkExec _ | WkSend _ _ | WkDone => true
  | _ => false
  end.

(** The request a goroutine has received and not yet executed. *)
Definition inflight (t : thread) : list updateOp :=
  match t with
  | WkExec u => [u]
  | _ => []
  end.


(** How far inside the function of [closeOnce.Do] a goroutine is: the
    number of teardown steps it has taken. *)
Definition stage (t : thread) : list nat :=
  match t with
  | ClsStore => [0%nat]
  | ClsCloseChan => [1%nat]
  | ClsWait => [2%nat]
  | ClsEnvClose => [3%nat]
  | _ => []
  end.

Definition stages (l : list thread) : list nat := flat_map stage l.

(** One step of a goroutine as seen on the [DB] it works on: from [d]
    with [n] channel names used, to [d'] with [n']. *)
Definition step_rel (t : thread) (d : DB) (n : nat)
    (t' : thread) (d' : DB) (n' : nat) : Prop :=
  match t with
  | UpdLoad o =>
      d' = d /\ n' = n /\
      t' = (if negb (closed d =? 0) then UpdDone (Some ErrDBClosed) else UpdSend o)
  | UpdSend o =>
      t' = UpdRecv n /\ n' = S n /\
      d' = set_uOps (enqueue (mkUpdateOp o n)) d /\
      is_closed (uOps d) = false
  | ClsEnter =>
      n' = n /\
      ((closeOnce d = OnceDone /\ t' = ClsDone /\ d' = d) \/
       (closeOnce d = OnceFresh /\ t' = ClsStore /\
        d' = set_closeOnce OnceRunning d))
  | ClsStore => n' = n /\ t' = ClsCloseChan /\ d' = set_closed 1 d
  | ClsCloseChan =>
      n' = n /\ t' = ClsWait /\
      d' = set_uOps (fun c => mkChan (buf c) (cap c) true) d /\
      is_closed (uOps d) = false
  | ClsWait => n' = n /\ t' = ClsEnvClose /\ d' = d /\ wg d = 0
  | ClsEnvClose => n' = n /\ t' = ClsDone /\ d' = set_closeOnce OnceDone d
  | WkRecv =>
      n' = n /\
      ((exists u rest, buf (uOps d) = u :: rest /\ t' = WkExec u /\
          d' = set_uOps (fun c => mkChan rest (cap c) (is_closed c)) d) \/
       (buf (uOps d) = [] /\ t' = WkDone /\ d' = set_wg (fun c => c + -1) d /\
        is_closed (uOps d) = true /\ 0 <= wg d + -1))
  | WkExec u => n' = n /\ d' = d /\ exists e, t' = WkSend (res u) e
  | _ => False
  end.

(** What a step from [t] to [t'] adds to the history. *)
Definition enq_of (t t' : thread) : list updateOp :=
  match t, t' with
  | UpdSend o, UpdRecv r => [mkUpdateOp o r]
  | _, _ => []
  end.

Definition tsteps_of (t : thread) : list tstep :=
  match t with
  | ClsStore => [TMarkClosed]
  | ClsCloseChan => [TStopQueue]
  | ClsWait => [TDrained]
  | ClsEnvClose => [TEnvClosed]
  | _ => []
  end.

(** The queue discipline: the worker is the first goroutine and the only
    one of its kind; the requests that entered the queue are, in order,
    those executed, the one in flight, those waiting; channel names are
    not reused. *)
Definition fifo_inv (p : nat) (c : cstate) : Prop :=
  exists d tw cs,
    heap (shared c) !! p = Some d /\
    pool c = tw :: cs /\
    is_worker tw = true /\
    Forall (fun t => is_worker t = false) cs /\
    enqueued c = executed c ++ inflight tw ++ buf (uOps d) /\
    Forall (fun u => (res u < nchan (shared c))%nat) (enqueued c) /\
    NoDup (map res (enqueued c)).

(** The one-shot guard: who is inside the teardown, and how far.  With
    the Once fresh, nobody is inside, no step was taken and no Close has
    returned; with the Once running, one goroutine is inside, after [k]
    steps, and the steps taken are the first [k] of the sequence; with the
    Once done, nobody is inside and the whole sequence was taken, once. *)
Definition once_state (o : once) (pl : list thread) (tl : list tstep) : Prop :=
  match o with
  | OnceFresh => stages pl = [] /\ tl = [] /\ ~ In ClsDone pl
  | OnceRunning =>
      exists k, stages pl = [k] /\ tl = take k teardown_seq /\ ~ In ClsDone pl
  | OnceDone => stages pl = [] /\ tl = teardown_seq
  end.

Definition once_inv (p : nat) (c : cstate) : Prop :=
  exists d,
    heap (shared c) !! p = Some d /\
    once_state (closeOnce d) (pool c) (tlog c).

(** The worker has left its loop. *)
Definition left_loop (t : thread) : bool :=
  match t with
  | WkDone => true
  | _ => false
  end.

(** The WaitGroup and the worker [tw]: the counter is 1 while the worker
    is in its loop, and 0 once it has left it, which it does on a closed
    and empty queue only. *)
Definition drain_state (tw : thread) (d : DB) : Prop :=
  if left_loop tw
  then wg d = 0 /\ buf (uOps d) = [] /\ is_closed (uOps d) = true
  else wg d = 1.

(** The teardown is past [db.wg.Wait()] only when the worker has left. *)
Definition drain_inv (p : nat) (c : cstate) : Prop :=
  exists d tw cs,
    heap (shared c) !! p = Some d /\
    pool c = tw :: cs /\
    is_worker tw = true /\
    Forall (fun t => is_worker t = false) cs /\
    drain_state tw d /\
    (In TDrained (tlog c) -> left_loop tw = true).

Definition is_open (ev : event) : Prop :=
  match ev with
  | EvOpen _ _ _ _ _ => True
  | _ => False
  end.

(** A failed call among the three that configure and open the
    environment in New: SetMaxDBs, SetMapSize, Open. *)
Definition config_failure (e : Env) (err : error) (ev : event) : Prop :=
  (exists n, ev = EvSetMaxDBs e n (Some err)) \/
  (exists n, ev = EvSetMapSize e n (Some err)) \/
  (exists path flags mode, ev = EvOpen e path flags mode (Some err)).

(** The call recorded by [ev] returned an error. *)
Definition call_failed (ev : event) : bool :=
  match ev with
  | EvMkdirAll _ _ (Some _) | EvNewEnv (inl _)
  | EvSetMaxDBs _ _ (Some _) | EvSetMapSize _ _ (Some _)
  | EvOpen _ _ _ _ (Some _) | EvReaderCheck _ _ (Some _)
  | EvUpdate _ _ (Some _) | EvUpdateLocked _ (Some _)
  | EvView _ (Some _) | EvClose _ (Some _) => true
  | _ => false
  end.

(** *** More on the objects and on the runs *)

(** What no step of a caller or of the worker undoes in a [DB]: its
    environment and registry stay, and a closed queue stays closed. *)
Definition shut_frame (d d' : DB) : Prop :=
  env d' = env d /\ dbs d' = dbs d /\
  (is_closed (uOps d) = true -> is_closed (uOps d') = true).

(** A program that, however it ends, has changed the Go objects within
    [shut_frame]. *)
Definition keeps_shut {A} (m : prog state A) : Prop :=
  forall s q d, heap s !! q = Some d ->
    exists d', heap (final (m s)) !! q = Some d' /\ shut_frame d d'.

(** The [DB] that [Close] leaves when it is called on [d] at rest. *)
Definition closed_db (d : DB) : DB :=
  mkDB (env d) (dbs d) (mkChan [] (cap (uOps d)) true) 0 OnceDone 1.

(** The queue holds no more requests than its capacity. *)
Definition within_cap (d : DB) : Prop :=
  (length (buf (uOps d)) <= cap (uOps d))%nat.

(** The queue of the [DB] behind [p] has capacity [n] and is within it. *)
Definition cap_inv (p : nat) (n : nat) (c : cstate) : Prop :=
  exists d, heap (shared c) !! p = Some d /\ cap (uOps d) = n /\ within_cap d.

(** The flag [closed] is 1 from the moment the teardown has stored it. *)
Definition flag_inv (p : nat) (c : cstate) : Prop :=
  exists d, heap (shared c) !! p = Some d /\
    (In TMarkClosed (tlog c) -> closed d = 1).

(** The queue is closed by the teardown only. *)
Definition shut_inv (p : nat) (c : cstate) : Prop :=
  exists d, heap (shared c) !! p = Some d /\
    (is_closed (uOps d) = true -> In TStopQueue (tlog c)).

(** A goroutine at the send of Update. *)
Definition is_sender (t : thread) : bool :=
  match t with
  | UpdSend _ => true
  | _ => false
  end.

(** The only way a run dies: a sender of Update found the queue closed
    by the teardown. *)
Definition late_send (c : cstate) : Prop :=
  forall msg, dead c = Some msg ->
    msg = "send on closed channel" /\ In TStopQueue (tlog c) /\
    exists i t, pool c !! i = Some t /\ is_sender t = true.

(** The queue is closed from the moment the teardown has closed it. *)
Definition stop_inv (p : nat) (c : cstate) : Prop :=
  exists d, heap (shared c) !! p = Some d /\
    (In TStopQueue (tlog c) -> is_closed (uOps d) = true).

(** The calls of a run on the environment [e], after the calls [l0] made
    before it: write transactions, then at most one [Close], made by the
    teardown past its wait. *)
Definition close_last_inv (p : nat) (e : Env) (l0 : list event) (c : cstate) : Prop :=
  exists d ups cls,
    heap (shared c) !! p = Some d /\ env d = e /\
    log (shared c) = l0 ++ ups ++ cls /\
    Forall (fun ev => exists err, ev = EvUpdateLocked e err) ups /\
    (cls = [] \/ exists err, cls = [EvClose e err]) /\
    (cls <> [] -> In TDrained (tlog c) /\ In TEnvClosed (tlog c)).

(** The result channel of the request the worker holds, executed or
    not. *)
Definition holding (t : thread) : list nat :=
  match t with
  | WkExec u => [res u]
  | WkSend r _ => [r]
  | _ => []
  end.

(** The result channels of the requests not yet answered: the one the
    worker holds, then those waiting in the queue. *)
Definition pending (tw : thread) (d : DB) : list nat :=
  holding tw ++ map res (buf (uOps d)).

(** Every request not yet answered has its caller waiting on its result
    channel; the channels are distinct and were made before. *)
Definition receivers_inv (p : nat) (c : cstate) : Prop :=
  exists d tw cs,
    heap (shared c) !! p = Some d /\
    pool c = tw :: cs /\
    is_worker tw = true /\
    Forall (fun t => is_worker t = false) cs /\
    (forall r, In r (pending tw d) -> exists j, cs !! j = Some (UpdRecv r)) /\
    NoDup (pending tw d) /\
    Forall (fun r => (r < nchan (shared c))%nat) (pending tw d).

End Vocabulary.

(** * Properties *)

Section Properties.
Context `{L : Lmdb}.

(** ** The monad *)

Lemma Returned_inj {S A} (a b : A) (s t : S) :
  Returned a s = Returned b t -> a = b /\ s = t.
Proof. intros H. now injection H. Qed.

Lemma bind_returned {S A B} (m : prog S A) (k : A -> prog S B) s a s' :
  m s = Returned a s' -> bind m k s = k a s'.
Proof. intros H. unfold bind. now rewrite H. Qed.

Lemma bind_panicked {S A B} (m : prog S A) (k : A -> prog S B) s msg s' :
  m s = Panicked msg s' -> bind m k s = Panicked msg s'.
Proof. intros H. unfold bind. now rewrite H. Qed.

Lemma bind_blocked {S A B} (m : prog S A) (k : A -> prog S B) s s' :
  m s = Blocked s' -> bind m k s = Blocked s'.
Proof. intros H. unfold bind. now rewrite H. Qed.

Lemma bind_bind_returned {S A B C} (m : prog S A) (k1 : A -> prog S B)
    (k2 : B -> prog S C) s a s' :
  m s = Returned a s' -> bind (bind m k1) k2 s = bind (k1 a) k2 s'.
Proof. intros H. unfold bind. now rewrite H. Qed.

Lemma deref_returned p s d :
  heap s !! p = Some d -> deref p s = Returned d s.
Proof. intros H. unfold deref. now rewrite H. Qed.

(** ** Unique names: the first loop of New *)

Lemma unique_names_seen seen names n :
  n ∈ seen -> n ∈ names -> unique_names seen names = Some ErrDuplicateDbName.
Proof.
  revert seen. induction names as [|x rest IH]; intros seen Hs Hn.
  - inversion Hn.
  - simpl. destruct (decide (x ∈ seen)) as [|Hx]; [done|].
    apply IH with (seen := {[x]} ∪ seen); [apply elem_of_union; now right|].
    apply elem_of_cons in Hn. destruct Hn as [Heq|Hin]; [congruence|done].
Qed.

Lemma unique_names_dup seen names :
  ~ NoDup names -> unique_names seen names = Some ErrDuplicateDbName.
Proof.
  revert seen. induction names as [|x rest IH]; intros seen Hd.
  - destruct Hd. constructor.
  - simpl. destruct (decide (x ∈ seen)); [done|].
    destruct (decide (x ∈ rest)) as [Hin|Hnin].
    + apply unique_names_seen with (n := x); [|done].
      apply elem_of_union. left. now apply elem_of_singleton.
    + apply IH. intros Hnd. apply Hd. now constructor.
Qed.

Lemma unique_names_nodup seen names :
  NoDup names -> (forall n, n ∈ names -> n ∉ seen) ->
  unique_names seen names = None.
Proof.
  revert seen. induction names as [|x rest IH]; intros seen Hnd Hdis; [done|].
  simpl. inversion Hnd as [|? ? Hx Hrest]; subst.
  destruct (decide (x ∈ seen)) as [Hin|_].
  - exfalso. apply (Hdis x); [left|done].
  - apply IH; [done|]. intros n Hn.
    assert (n <> x) by congruence.
    assert (n ∉ seen) by (apply Hdis; now right).
    intros Hu. apply elem_of_union in Hu. destruct Hu as [Hu|Hu]; [|contradiction].
    apply elem_of_singleton in Hu. congruence.
Qed.

(** The check rejects exactly the lists with a repeated name. *)
Lemma unique_names_spec names :
  unique_names ∅ names = None <-> NoDup names.
Proof.
  split.
  - intros H. destruct (decide (NoDup names)) as [|Hd]; [done|].
    rewrite (unique_names_dup ∅ names Hd) in H. discriminate.
  - intros H. apply unique_names_nodup; [done|]. intros n _.
    apply not_elem_of_empty.
Qed.

(** ** Validation *)

Lemma empty_key_test (key : bytes) :
  (bool_decide (key = None) || (len key =? 0))%bool = true <-> empty_key key.
Proof.
  unfold empty_key. destruct key as [[|b l]|].
  - split; [intros _; now right|reflexivity].
  - split; [|intros [H|H]; discriminate].
    intros H. apply orb_true_iff in H as [H|H].
    + apply bool_decide_eq_true in H. discriminate.
    + apply Z.eqb_eq in H. simpl in H. lia.
  - split; [intros _; now left|reflexivity].
Qed.

Lemma validateArgs_empty_name p key s :
  validateArgs p "" key s = Returned (0, Some ErrDbNameNotFound) s.
Proof. reflexivity. Qed.

Lemma validateArgs_empty_key p dbName key s :
  dbName <> "" -> empty_key key ->
  validateArgs p dbName key s = Returned (0, Some ErrEmptyKey) s.
Proof.
  intros Hn Hk. unfold validateArgs.
  destruct (decide (dbName = "")); [contradiction|].
  apply empty_key_test in Hk. now rewrite Hk.
Qed.

Lemma validateArgs_lookup (p : nat) (dbName : string) (key : bytes)
    (s : state) (d : DB) :
  heap s !! p = Some d -> dbName <> "" -> ~ empty_key key ->
  validateArgs p dbName key s =
    Returned (match dbs d !! dbName with
              | Some dbi => (dbi, None)
              | None => (0, Some ErrDbNameNotFound)
              end) s.
Proof.
  intros Hp Hn Hk. unfold validateArgs.
  destruct (decide (dbName = "")); [contradiction|].
  destruct (bool_decide (key = None) || (len key =? 0))%bool eqn:E.
  - apply empty_key_test in E. contradiction.
  - rewrite (bind_returned _ _ _ _ _ (deref_returned _ _ _ Hp)).
    now destruct (dbs d !! dbName).
Qed.

Lemma parseArgs_validateArgs p dbName key :
  WrapGo.parseArgs p dbName key = validateArgs p dbName key.
Proof. reflexivity. Qed.

(** A rejected call: the error of [validateArgs], whatever it is, is what
    Read, Write and Delete return, in the state they were called in. *)
Lemma rejected_calls p dbName key value s dbi e :
  validateArgs p dbName key s = Returned (dbi, Some e) s ->
  Read p dbName key s = Returned (None, Some e) s /\
  Write p dbName key value s = Returned (Some e) s /\
  Delete p dbName key s = Returned (Some e) s.
Proof.
  intros H. unfold Read, Write, Delete.
  rewrite !(bind_returned _ _ _ _ _ H). simpl. auto.
Qed.

(** ** New: its runs *)

Lemma same_go_refl s : same_go s s.
Proof. now repeat split. Qed.

Lemma same_go_trans s1 s2 s3 : same_go s1 s2 -> same_go s2 s3 -> same_go s1 s3.
Proof.
  intros (H1 & H2 & H3 & H4) (K1 & K2 & K3 & K4).
  repeat split; congruence.
Qed.

(** An engine call returns, adds one event and leaves the Go objects. *)
Lemma call_returns {A} (f : world -> A * world) (ev : A -> event) s :
  exists a s', call f ev s = Returned a s' /\ same_go s s' /\
    (a, eng s') = f (eng s) /\ log s' = log s ++ [ev a].
Proof.
  unfold call. destruct (f (eng s)) as [a w'].
  exists a. eexists. split; [reflexivity|]. simpl. now repeat split.
Qed.

(** When the transaction of [create_dbi] succeeds, a handle was assigned. *)
Lemma create_dbi_assigned e name w a w' :
  env_Update e None (create_dbi name) w = ((a, None), w') ->
  exists dbi, a = Some dbi.
Proof.
  unfold env_Update, run_txn, create_dbi.
  destruct (env_BeginTxn e false w) as [[err|txn] w1]; [discriminate|].
  destruct (txn_CreateDBI txn name w1) as [[dbi err] w2].
  destruct err as [err|].
  - discriminate.
  - destruct (txn_Commit txn w2) as [cerr w3]. intros [= <- _ _]. eauto.
Qed.

Lemma open_dbis_runs e names : forall m s,
  exists r s', open_dbis e names m s = Returned r s' /\ same_go s s' /\
    match r with
    | inr m' =>
        log s' = log s ++ ok_updates e names /\
        (forall n, is_Some (m !! n) \/ n ∈ names -> is_Some (m' !! n))
    | inl err =>
        exists opened name rest cerr,
          names = opened ++ name :: rest /\
          log s' = log s ++ ok_updates e opened ++
                   [EvUpdate e name (Some err); EvClose e cerr]
    end.
Proof.
  induction names as [|name rest IH]; intros m s.
  - exists (inr m), s. split; [reflexivity|]. split; [apply same_go_refl|].
    split; [simpl; now rewrite app_nil_r|].
    intros n [H|H]; [done|inversion H].
  - simpl open_dbis. unfold EnvUpdate.
    destruct (call_returns (env_Update e None (create_dbi name))
                (fun r => EvUpdate e name (snd r)) s)
      as ([a err] & s1 & Hc & Hgo1 & Hr & Hlog1).
    rewrite (bind_returned _ _ _ _ _ Hc). cbn [fst snd].
    simpl in Hlog1. destruct err as [err|].
    + unfold EnvClose.
      destruct (call_returns (env_Close e) (EvClose e) s1)
        as (cerr & s2 & Hc2 & Hgo2 & _ & Hlog2).
      rewrite (bind_returned _ _ _ _ _ Hc2).
      exists (inl err), s2. split; [reflexivity|].
      split; [eapply same_go_trans; eauto|].
      exists [], name, rest, cerr. split; [reflexivity|].
      rewrite Hlog2, Hlog1. now rewrite <- app_assoc.
    + symmetry in Hr. apply create_dbi_assigned in Hr as [dbi ->].
      destruct (IH (<[name := dbi]> m) s1) as (r & s2 & Hrun & Hgo2 & Hpost).
      exists r, s2. split; [exact Hrun|].
      split; [eapply same_go_trans; eauto|].
      destruct r as [err|m'].
      * destruct Hpost as (opened & nm & rst & cerr & -> & Hlog2).
        exists (name :: opened), nm, rst, cerr. split; [reflexivity|].
        rewrite Hlog2, Hlog1. now rewrite <- app_assoc.
      * destruct Hpost as [Hlog2 Hreg]. split.
        -- rewrite Hlog2, Hlog1. now rewrite <- app_assoc.
        -- intros n [Hn|Hn].
           ++ apply Hreg. left. destruct (decide (name = n)) as [->|Hne].
              ** rewrite lookup_insert_eq. eauto.
              ** now rewrite lookup_insert_ne.
           ++ apply elem_of_cons in Hn. destruct Hn as [->|Hn].
              ** apply Hreg. left. rewrite lookup_insert_eq. eauto.
              ** apply Hreg. now right.
Qed.

(** *** Stores through a valid pointer *)

Lemma store_returned p f s d :
  heap s !! p = Some d -> store p f s = Returned tt (update_db p f s).
Proof.
  intros H. unfold store. now rewrite (bind_returned _ _ _ _ _ (deref_returned _ _ _ H)).
Qed.

Lemma heap_update_db p f s d :
  heap s !! p = Some d -> heap (update_db p f s) = <[p := f d]> (heap s).
Proof. intros H. unfold update_db, set_heap. simpl. now rewrite H. Qed.

Lemma lookup_update_db p f s d :
  heap s !! p = Some d -> heap (update_db p f s) !! p = Some (f d).
Proof.
  intros H. rewrite (heap_update_db _ _ _ _ H).
  apply list_lookup_insert_eq. now apply lookup_lt_Some in H.
Qed.

Lemma wg_Add_returned p n s d :
  heap s !! p = Some d -> 0 <= wg d + n ->
  wg_Add p n s = Returned tt (update_db p (set_wg (fun c => c + n)) s).
Proof.
  intros H Hn. unfold wg_Add.
  rewrite (bind_returned _ _ _ _ _ (deref_returned _ _ _ H)).
  destruct (wg d + n <? 0) eqn:E; [apply Z.ltb_lt in E; lia|].
  now apply store_returned with (d := d).
Qed.

(** The end of New: the object is allocated, the WaitGroup counts the
    worker, the worker is started. *)
Lemma New_tail (d0 : DB) (n : Z) s :
  wg d0 = 0 ->
  (newDB <- alloc d0;;
   wg_Add newDB 1;;
   spawn_worker newDB;;
   (ret (Some newDB, n, None) : prog state NewResult)) s =
  Returned (Some (length (heap s)), n, None)
    (mkState (heap s ++ [set_wg (fun c => c + 1) d0])
             (workers s ++ [length (heap s)])
             (mail s) (nchan s) (eng s) (log s)).
Proof.
  intros Hwg.
  assert (Ha : alloc d0 s =
    Returned (length (heap s)) (set_heap (fun h => h ++ [d0]) s)) by reflexivity.
  rewrite (bind_returned _ _ _ _ _ Ha).
  set (s1 := set_heap (fun h => h ++ [d0]) s).
  assert (Hl : heap s1 !! length (heap s) = Some d0)
    by (simpl; now apply list_lookup_middle).
  assert (Hw : 0 <= wg d0 + 1) by lia.
  rewrite (bind_returned _ _ _ _ _ (wg_Add_returned _ _ _ _ Hl Hw)).
  unfold spawn_worker, bind, modify, ret, set_workers. simpl.
  f_equal. f_equal.
  change (heap (update_db (length (heap s)) (set_wg (fun c => c + 1)) s1) =
          heap s ++ [set_wg (fun c => c + 1) d0]).
  rewrite (heap_update_db _ _ _ _ Hl). simpl.
  rewrite insert_app_r_alt by lia. now rewrite Nat.sub_diag.
Qed.

Ltac run_call f ev s a s1 Hgo Hlog :=
  let Hc := fresh "Hc" in
  destruct (call_returns f ev s) as (a & s1 & Hc & Hgo & _ & Hlog);
  rewrite (bind_returned _ _ _ _ _ Hc); clear Hc.

(** New always returns; its calls and its result are one of the runs of
    [NewRun], and the Go objects are as [new_objects] says. *)
Lemma New_runs dirPath dbNames s :
  exists r s' evs,
    New dirPath dbNames s = Returned r s' /\
    log s' = log s ++ evs /\
    NewRun dirPath dbNames evs r /\
    new_objects dbNames s r evs s'.
Proof.
  unfold New.
  destruct (unique_names ∅ dbNames) as [err|] eqn:Hu.
  { assert (Hd : ~ NoDup dbNames).
    { intros Hnd. apply unique_names_spec in Hnd. congruence. }
    rewrite (unique_names_dup ∅ dbNames Hd) in Hu. injection Hu as <-.
    exists (None, 0, Some ErrDuplicateDbName), s, [].
    split; [reflexivity|]. split; [now rewrite app_nil_r|].
    split; [now constructor|]. now repeat split. }
  apply unique_names_spec in Hu.
  unfold MkdirAll.
  run_call (os_MkdirAll dirPath mode_0755) (@EvMkdirAll Env dirPath mode_0755) s
    e1 s1 Hgo1 Hlog1.
  destruct Hgo1 as (Hh1 & Hw1 & Hm1 & Hn1).
  destruct e1 as [err|].
  { exists (None, 0, Some err), s1, [EvMkdirAll dirPath mode_0755 (Some err)].
    split; [reflexivity|]. split; [done|]. split; [constructor|].
    now repeat split. }
  unfold NewEnv.
  run_call lmdb_NewEnv (@EvNewEnv Env) s1 r2 s2 Hgo2 Hlog2.
  destruct Hgo2 as (Hh2 & Hw2 & Hm2 & Hn2).
  destruct r2 as [err|e].
  { exists (None, 0, Some err), s2,
      [EvMkdirAll dirPath mode_0755 None; EvNewEnv (inl err)].
    split; [reflexivity|].
    split; [rewrite Hlog2, Hlog1; now rewrite <- app_assoc|].
    split; [constructor|]. repeat split; congruence. }
  unfold SetMaxDBs.
  run_call (env_SetMaxDBs e (Z.of_nat (length dbNames)))
    (EvSetMaxDBs e (Z.of_nat (length dbNames))) s2 e3 s3 Hgo3 Hlog3.
  destruct Hgo3 as (Hh3 & Hw3 & Hm3 & Hn3).
  destruct e3 as [err|].
  { exists (None, 0, Some err), s3,
      [EvMkdirAll dirPath mode_0755 None; EvNewEnv (inr e);
       EvSetMaxDBs e (Z.of_nat (length dbNames)) (Some err)].
    split; [reflexivity|].
    split; [rewrite Hlog3, Hlog2, Hlog1; now rewrite <- !app_assoc|].
    split; [constructor|]. repeat split; congruence. }
  unfold SetMapSize.
  run_call (env_SetMapSize e MapSize) (EvSetMapSize e MapSize) s3 e4 s4 Hgo4 Hlog4.
  destruct Hgo4 as (Hh4 & Hw4 & Hm4 & Hn4).
  destruct e4 as [err|].
  { exists (None, 0, Some err), s4,
      [EvMkdirAll dirPath mode_0755 None; EvNewEnv (inr e);
       EvSetMaxDBs e (Z.of_nat (length dbNames)) None;
       EvSetMapSize e MapSize (Some err)].
    split; [reflexivity|].
    split; [rewrite Hlog4, Hlog3, Hlog2, Hlog1; now rewrite <- !app_assoc|].
    split; [constructor|]. repeat split; congruence. }
  unfold Open.
  run_call (env_Open e dirPath 0 mode_0644) (EvOpen e dirPath 0 mode_0644)
    s4 e5 s5 Hgo5 Hlog5.
  destruct Hgo5 as (Hh5 & Hw5 & Hm5 & Hn5).
  destruct e5 as [err|].
  { exists (None, 0, Some err), s5,
      [EvMkdirAll dirPath mode_0755 None; EvNewEnv (inr e);
       EvSetMaxDBs e (Z.of_nat (length dbNames)) None;
       EvSetMapSize e MapSize None;
       EvOpen e dirPath 0 mode_0644 (Some err)].
    split; [reflexivity|].
    split; [rewrite Hlog5, Hlog4, Hlog3, Hlog2, Hlog1; now rewrite <- !app_assoc|].
    split; [constructor|]. repeat split; congruence. }
  assert (Hcfg : log s5 = log s ++
            config_events dirPath (Z.of_nat (length dbNames)) e).
  { rewrite Hlog5, Hlog4, Hlog3, Hlog2, Hlog1. now rewrite <- !app_assoc. }
  unfold ReaderCheck.
  run_call (env_ReaderCheck e) (fun r => EvReaderCheck e (fst r) (snd r))
    s5 rc s6 Hgo6 Hlog6.
  destruct Hgo6 as (Hh6 & Hw6 & Hm6 & Hn6).
  destruct rc as [n rerr]. cbn [fst snd] in *.
  destruct rerr as [err|].
  { unfold EnvClose.
    run_call (env_Close e) (EvClose e) s6 cerr s7 Hgo7 Hlog7.
    destruct Hgo7 as (Hh7 & Hw7 & Hm7 & Hn7).
    exists (None, 0, Some err), s7,
      (config_events dirPath (Z.of_nat (length dbNames)) e ++
       [EvReaderCheck e n (Some err); EvClose e cerr]).
    split; [reflexivity|].
    split; [rewrite Hlog7, Hlog6, Hcfg; now rewrite <- !app_assoc|].
    split; [constructor|]. repeat split; congruence. }
  destruct (open_dbis_runs e dbNames ∅ s6)
    as (r & s7 & Hrun & (Hh7 & Hw7 & Hm7 & Hn7) & Hpost).
  rewrite (bind_returned _ _ _ _ _ Hrun).
  destruct r as [err|m].
  { destruct Hpost as (opened & name & rest & cerr & Hnames & Hlog7).
    exists (None, n, Some err), s7,
      (config_events dirPath (Z.of_nat (length dbNames)) e ++
       [EvReaderCheck e n None] ++ ok_updates e opened ++
       [EvUpdate e name (Some err); EvClose e cerr]).
    split; [reflexivity|].
    split; [rewrite Hlog7, Hlog6, Hcfg; now rewrite <- !app_assoc|].
    split; [now apply NR_dbi with (rest := rest)|].
    repeat split; congruence. }
  destruct Hpost as [Hlog7 Hreg].
  rewrite New_tail by reflexivity.
  eexists _, _,
    (config_events dirPath (Z.of_nat (length dbNames)) e ++
     [EvReaderCheck e n None] ++ ok_updates e dbNames).
  split; [reflexivity|]. cbn [log heap workers mail nchan].
  split; [rewrite Hlog7, Hlog6, Hcfg; now rewrite <- !app_assoc|].
  split; [now constructor|].
  unfold new_objects. cbn [fst heap workers mail nchan].
  split; [congruence|]. split; [congruence|].
  split; [congruence|]. split; [congruence|].
  exists e, m. split; [simpl; auto|].
  split; [replace (heap s7) with (heap s) by congruence; reflexivity|].
  intros nm Hnm. apply Hreg. now right.
Qed.

(** Membership in the lists of [NewRun]. *)
Lemma in_ok_updates e names ev :
  In ev (ok_updates e names) -> exists n, ev = EvUpdate e n None.
Proof.
  unfold ok_updates. intros H. apply in_map_iff in H as (n & <- & _). eauto.
Qed.

Lemma New_deterministic dirPath dbNames s r s' evs r0 s0 evs0 :
  New dirPath dbNames s = Returned r s' -> log s' = log s ++ evs ->
  New dirPath dbNames s = Returned r0 s0 -> log s0 = log s ++ evs0 ->
  r0 = r /\ s0 = s' /\ evs0 = evs.
Proof.
  intros H1 Hl1 H2 Hl2. rewrite H1 in H2. injection H2 as <- <-.
  repeat split. rewrite Hl1 in Hl2. now apply app_inv_head in Hl2.
Qed.

(** C6. A name list with a repeated name: New returns
    [ErrDuplicateDbName] (with a nil [*DB] and a count of 0) in the very
    state it was called in: no directory was created, no environment was
    created or opened, no call reached the engine, nothing was allocated. *)
Theorem New_rejects_duplicates dirPath dbNames s :
  ~ NoDup dbNames ->
  New dirPath dbNames s = Returned (None, 0, Some ErrDuplicateDbName) s.
Proof.
  intros Hd. unfold New. now rewrite (unique_names_dup ∅ dbNames Hd).
Qed.

(** C9. [MapSize] is 10 GiB, 10737418240 bytes.  Each call to the
    engine being taken to answer, New returns, and in its run either
    [env.Open] is not called at all, or it is called once, right after
    [SetMaxDBs(len(dbNames))] and [SetMapSize(MapSize)] on the same
    environment, both successful.  A [DB] that New returns has a queue of
    pending writes that is empty, open, of capacity exactly 1000.  And New
    does get there: on distinct names, a run in which no call returned an
    error ends with a nil error and a new [DB] with that queue, on the
    environment that was configured so and then opened; and a run that
    ends with a nil error has made these calls and returns such a [DB]. *)
Theorem New_configuration dirPath dbNames s :
  MapSize = 10737418240 /\
  MapSize = 10 * 2 ^ 30 /\
  exists r s' evs,
    New dirPath dbNames s = Returned r s' /\
    log s' = log s ++ evs /\
    ((forall ev, In ev evs -> ~ is_open ev) \/
     (exists e err rest,
        evs = [EvMkdirAll dirPath mode_0755 None; EvNewEnv (inr e);
               EvSetMaxDBs e (Z.of_nat (length dbNames)) None;
               EvSetMapSize e 10737418240 None;
               EvOpen e dirPath 0 mode_0644 err] ++ rest /\
        (forall ev, In ev rest -> ~ is_open ev))) /\
    match fst (fst r) with
    | None => True
    | Some p =>
        exists d, heap s' !! p = Some d /\
          cap (uOps d) = 1000%nat /\ buf (uOps d) = [] /\
          is_closed (uOps d) = false
    end /\
    ((NoDup dbNames /\ (forall ev, In ev evs -> call_failed ev = false) \/
      snd r = None) ->
     exists p d rest,
       fst (fst r) = Some p /\ snd r = None /\
       p = length (heap s) /\ heap s' = heap s ++ [d] /\
       cap (uOps d) = 1000%nat /\ buf (uOps d) = [] /\
       is_closed (uOps d) = false /\
       evs = [EvMkdirAll dirPath mode_0755 None; EvNewEnv (inr (env d));
              EvSetMaxDBs (env d) (Z.of_nat (length dbNames)) None;
              EvSetMapSize (env d) 10737418240 None;
              EvOpen (env d) dirPath 0 mode_0644 None] ++ rest).
Proof.
  split; [reflexivity|]. split; [reflexivity|].
  destruct (New_runs dirPath dbNames s) as (r & s' & evs & Hrun & Hlog & HR & Hobj).
  exists r, s', evs. split; [exact Hrun|]. split; [exact Hlog|]. split; [|split].
  - assert (Hupd : forall e names ev, In ev (ok_updates e names) -> ~ is_open ev).
    { intros e names ev H. apply in_ok_updates in H as [n ->]. simpl. tauto. }
    destruct HR as [Hd|err|err|e err|e err|e err|e n err cerr
                   |e n opened name rest err cerr Hnames|e n p Hnd];
      try (left; intros ev Hin; simpl in Hin;
      repeat (destruct Hin as [<-|Hin]; [simpl; tauto|]); now destruct Hin).
    + right. exists e, (Some err), []. split; [reflexivity|]. intros ev [].
    + right. exists e, None, [EvReaderCheck e n (Some err); EvClose e cerr].
      split; [reflexivity|]. intros ev Hin. simpl in Hin.
      repeat (destruct Hin as [<-|Hin]; [simpl; tauto|]). now destruct Hin.
    + right. exists e, None,
        ([EvReaderCheck e n None] ++ ok_updates e opened ++
         [EvUpdate e name (Some err); EvClose e cerr]).
      split; [reflexivity|]. intros ev Hin.
      apply in_app_iff in Hin as [Hin|Hin];
        [simpl in Hin; destruct Hin as [<-|[]]; simpl; tauto|].
      apply in_app_iff in Hin as [Hin|Hin]; [now apply Hupd in Hin|].
      simpl in Hin.
      repeat (destruct Hin as [<-|Hin]; [simpl; tauto|]). now destruct Hin.
    + right. exists e, None, ([EvReaderCheck e n None] ++ ok_updates e dbNames).
      split; [reflexivity|]. intros ev Hin.
      apply in_app_iff in Hin as [Hin|Hin];
        [simpl in Hin; destruct Hin as [<-|[]]; simpl; tauto|].
      now apply Hupd in Hin.
  - destruct Hobj as (_ & _ & Hobj).
    destruct (fst (fst r)) as [p|]; [|exact I].
    destruct Hobj as (-> & _ & e & m & _ & Hheap & _).
    eexists. split; [rewrite Hheap; now apply list_lookup_middle|].
    now repeat split.
  - intros Hok. destruct Hobj as (_ & _ & Hobj).
    assert (Hbad : forall ev, In ev evs -> call_failed ev = true ->
              ~ (NoDup dbNames /\ forall ev, In ev evs -> call_failed ev = false)).
    { intros ev Hin Hf [_ Hall]. rewrite (Hall ev Hin) in Hf. discriminate. }
    destruct HR as [Hd|err|err|e err|e err|e err|e n err cerr
                   |e n opened name rest err cerr Hnames|e n p Hnd].
    + exfalso. destruct Hok as [[Hnd _]|Hn]; [now apply Hd|discriminate].
    + exfalso. destruct Hok as [Hok|Hn]; [|discriminate].
      revert Hok. apply (Hbad (EvMkdirAll dirPath mode_0755 (Some err))); [|reflexivity]. simpl; auto 10.
    + exfalso. destruct Hok as [Hok|Hn]; [|discriminate].
      revert Hok. apply (Hbad (EvNewEnv (inl err))); [|reflexivity]. simpl; auto 10.
    + exfalso. destruct Hok as [Hok|Hn]; [|discriminate].
      revert Hok. apply (Hbad (EvSetMaxDBs e (Z.of_nat (length dbNames)) (Some err))); [|reflexivity]. simpl; auto 10.
    + exfalso. destruct Hok as [Hok|Hn]; [|discriminate].
      revert Hok. apply (Hbad (EvSetMapSize e MapSize (Some err))); [|reflexivity]. simpl; auto 10.
    + exfalso. destruct Hok as [Hok|Hn]; [|discriminate].
      revert Hok. apply (Hbad (EvOpen e dirPath 0 mode_0644 (Some err))); [|reflexivity]. simpl; auto 10.
    + exfalso. destruct Hok as [Hok|Hn]; [|discriminate].
      revert Hok.
      apply (Hbad (EvReaderCheck e n (Some err))); [|reflexivity].
      apply in_app_iff. right. now left.
    + exfalso. destruct Hok as [Hok|Hn]; [|discriminate].
      revert Hok.
      apply (Hbad (EvUpdate e name (Some err))); [|reflexivity].
      apply in_app_iff. right. apply in_app_iff. right.
      apply in_app_iff. right. now left.
    + cbn [fst snd] in Hobj |- *.
      destruct Hobj as (-> & _ & e0 & m & Hin & Hheap & _).
      assert (He : e0 = e).
      { apply in_app_iff in Hin as [Hin|Hin].
        - unfold config_events in Hin. simpl in Hin.
          repeat (destruct Hin as [Hin|Hin]; [try discriminate|]);
            [now injection Hin as ->|destruct Hin].
        - apply in_app_iff in Hin as [Hin|Hin].
          + simpl in Hin. destruct Hin as [Hin|[]]. discriminate.
          + apply in_ok_updates in Hin as [nm Hin]. discriminate. }
      subst e0.
      exists (length (heap s)), (mkDB e m (make_chan uOpsCap) 1 OnceFresh 0),
        ([EvReaderCheck e n None] ++ ok_updates e dbNames).
      split; [reflexivity|]. split; [reflexivity|]. split; [reflexivity|].
      split; [exact Hheap|]. split; [reflexivity|]. split; [reflexivity|].
      split; [reflexivity|]. reflexivity.
Qed.

Ltac split_in H :=
  repeat match type of H with
  | In _ (_ ++ _) => apply in_app_iff in H; destruct H as [H|H]
  | In _ (config_events _ _ _) => unfold config_events in H
  | In _ (ok_updates _ _) => apply in_ok_updates in H; destruct H as [? H]
  | In _ (_ :: _) => destruct H as [H|H]
  | In _ [] => destruct H
  end.

(** C8. When one of the create-or-open transactions of New fails with
    [err], that call is followed by [env.Close()] and by nothing else; New
    returns a nil [*DB], [err], and the count [n] that the reader check
    had returned; no [DB] was allocated and no worker started, so the
    handles registered so far are lost with the local registry. *)
Theorem New_dbi_failure dirPath dbNames s r s' evs e name err :
  New dirPath dbNames s = Returned r s' ->
  log s' = log s ++ evs ->
  In (EvUpdate e name (Some err)) evs ->
  exists n pre cerr,
    evs = pre ++ [EvUpdate e name (Some err); EvClose e cerr] /\
    In (EvReaderCheck e n None) pre /\
    r = (None, n, Some err) /\
    heap s' = heap s /\ workers s' = workers s.
Proof.
  intros Hrun Hlog Hin.
  destruct (New_runs dirPath dbNames s) as (r0 & s0 & evs0 & Hrun0 & Hlog0 & HR & Hobj).
  destruct (New_deterministic _ _ _ _ _ _ _ _ _ Hrun Hlog Hrun0 Hlog0)
    as (-> & -> & ->).
  destruct HR as [Hd|err0|err0|e0 err0|e0 err0|e0 err0|e0 n err0 cerr
                 |e0 n opened name0 rest err0 cerr Hnames|e0 n p Hnd];
    split_in Hin; try discriminate.
  injection Hin as -> -> ->.
  exists n, (config_events dirPath (Z.of_nat (length dbNames)) e ++
             [EvReaderCheck e n None] ++ ok_updates e opened), cerr.
  split; [now rewrite <- !app_assoc|].
  split; [apply in_app_iff; right; now left|].
  split; [reflexivity|].
  destruct Hobj as (_ & _ & Hh & Hw). now split.
Qed.

(** The configuration failures of New.  When SetMaxDBs, SetMapSize or Open
    fails with [err] on the environment [e] that NewEnv returned, New
    returns a nil [*DB], 0 and [err] -- and [e] was never closed: no call
    of the run is a [Close] of [e]. *)
Lemma New_config_failure dirPath dbNames s r s' evs e err ev :
  New dirPath dbNames s = Returned r s' ->
  log s' = log s ++ evs ->
  In ev evs -> config_failure e err ev ->
  r = (None, 0, Some err) /\
  In (EvNewEnv (inr e)) evs /\
  (forall ev', In ev' evs -> ~ is_close_of e ev') /\
  heap s' = heap s.
Proof.
  intros Hrun Hlog Hin Hf.
  destruct (New_runs dirPath dbNames s) as (r0 & s0 & evs0 & Hrun0 & Hlog0 & HR & Hobj).
  destruct (New_deterministic _ _ _ _ _ _ _ _ _ Hrun Hlog Hrun0 Hlog0)
    as (-> & -> & ->).
  destruct Hf as [(k & ->)|[(k & ->)|(pth & fl & md & ->)]];
    (destruct HR as [Hd|err0|err0|e0 err0|e0 err0|e0 err0|e0 n err0 cerr
                    |e0 n opened name0 rest err0 cerr Hnames|e0 n p Hnd];
     split_in Hin; try discriminate; injection Hin; intros; subst;
     (split; [reflexivity|]); (split; [simpl; auto|]);
     (split; [|now destruct Hobj as (_ & _ & Hh & _)]);
     intros ev' Hin' [cerr ->]; split_in Hin'; discriminate).
Qed.

(** ** Validation: the claims *)

(** C10. The checks come in a fixed order.  An empty database name gives
    [ErrDbNameNotFound] whatever the key.  A non-empty name with a nil or
    zero-length key gives [ErrEmptyKey] in every state, so also when the
    name is not registered: the key is checked before the registry is
    looked up.  Read, Write and Delete return these errors, and so does
    [parseArgs] of the earlier revision. *)
Theorem validation_order p dbName key value s :
  (dbName = "" ->
     validateArgs p dbName key s = Returned (0, Some ErrDbNameNotFound) s /\
     WrapGo.parseArgs p dbName key s = Returned (0, Some ErrDbNameNotFound) s /\
     Read p dbName key s = Returned (None, Some ErrDbNameNotFound) s /\
     Write p dbName key value s = Returned (Some ErrDbNameNotFound) s /\
     Delete p dbName key s = Returned (Some ErrDbNameNotFound) s) /\
  (dbName <> "" -> empty_key key ->
     validateArgs p dbName key s = Returned (0, Some ErrEmptyKey) s /\
     WrapGo.parseArgs p dbName key s = Returned (0, Some ErrEmptyKey) s /\
     Read p dbName key s = Returned (None, Some ErrEmptyKey) s /\
     Write p dbName key value s = Returned (Some ErrEmptyKey) s /\
     Delete p dbName key s = Returned (Some ErrEmptyKey) s).
Proof.
  split.
  - intros ->.
    pose proof (validateArgs_empty_name p key s) as Hv.
    split; [exact Hv|]. split; [exact Hv|].
    now apply rejected_calls with (dbi := 0).
  - intros Hn Hk.
    pose proof (validateArgs_empty_key p dbName key s Hn Hk) as Hv.
    split; [exact Hv|]. split; [exact Hv|].
    now apply rejected_calls with (dbi := 0).
Qed.

(** C7. A call of Read, Write or Delete whose database name is not
    registered or whose key is nil or of length zero returns
    [ErrDbNameNotFound] or [ErrEmptyKey], in the state it was called in: no
    transaction was begun, no call reached the engine, nothing was queued.
    The error is [ErrDbNameNotFound] when the key is not empty (the name is
    then the fault), and [ErrEmptyKey] when the key is empty and the name
    registered. *)
Theorem invalid_arguments_rejected (p : nat) (d : DB) (dbName : string)
    (key value : bytes) (s : state) :
  heap s !! p = Some d ->
  dbs d !! dbName = None \/ empty_key key ->
  exists e,
    (e = ErrDbNameNotFound \/ e = ErrEmptyKey) /\
    Read p dbName key s = Returned (None, Some e) s /\
    Write p dbName key value s = Returned (Some e) s /\
    Delete p dbName key s = Returned (Some e) s /\
    (~ empty_key key -> e = ErrDbNameNotFound) /\
    (is_Some (dbs d !! dbName) -> dbName <> "" -> e = ErrEmptyKey).
Proof.
  intros Hp Hbad.
  destruct (decide (dbName = "")) as [->|Hn].
  - exists ErrDbNameNotFound. split; [now left|].
    destruct (rejected_calls p "" key value s 0 _ (validateArgs_empty_name p key s))
      as (HR & HW & HD).
    split; [exact HR|]. split; [exact HW|]. split; [exact HD|].
    split; [reflexivity|]. intros _ Hne. now destruct Hne.
  - destruct (bool_decide (key = None) || (len key =? 0))%bool eqn:E.
    + apply empty_key_test in E. exists ErrEmptyKey. split; [now right|].
      destruct (rejected_calls p dbName key value s 0 _
                  (validateArgs_empty_key p dbName key s Hn E)) as (HR & HW & HD).
      split; [exact HR|]. split; [exact HW|]. split; [exact HD|].
      split; [intros Hne; contradiction|reflexivity].
    + assert (Hk : ~ empty_key key).
      { intros Hk. apply empty_key_test in Hk. congruence. }
      destruct Hbad as [Hnone|Hk']; [|contradiction].
      pose proof (validateArgs_lookup p dbName key s d Hp Hn Hk) as Hv.
      rewrite Hnone in Hv. exists ErrDbNameNotFound. split; [now left|].
      destruct (rejected_calls p dbName key value s 0 _ Hv) as (HR & HW & HD).
      split; [exact HR|]. split; [exact HW|]. split; [exact HD|].
      split; [reflexivity|]. intros [x Hx]. congruence.
Qed.

(** ** Frames: what the queue traffic leaves alone *)

Lemma db_frame_refl d : db_frame d d.
Proof. now repeat split. Qed.

Lemma heap_frame_refl s : heap_frame s s.
Proof. intros q d H. exists d. split; [done|apply db_frame_refl]. Qed.

Lemma heap_frame_trans s1 s2 s3 :
  heap_frame s1 s2 -> heap_frame s2 s3 -> heap_frame s1 s3.
Proof.
  intros H12 H23 q d Hq.
  destruct (H12 q d Hq) as (d2 & Hq2 & F1 & F2 & F3 & F4).
  destruct (H23 q d2 Hq2) as (d3 & Hq3 & G1 & G2 & G3 & G4).
  exists d3. split; [done|]. repeat split; congruence.
Qed.

Lemma heap_frame_same s s' : heap s' = heap s -> heap_frame s s'.
Proof. intros H q d Hq. exists d. rewrite H. split; [done|apply db_frame_refl]. Qed.

Lemma framed_ret {A} (a : A) : framed (ret a).
Proof. intros s. apply heap_frame_refl. Qed.

Lemma framed_panic {A} msg : framed (panic msg : prog state A).
Proof. intros s. apply heap_frame_refl. Qed.

Lemma framed_block {A} : framed (block : prog state A).
Proof. intros s. apply heap_frame_refl. Qed.

Lemma framed_bind {A B} (m : prog state A) (k : A -> prog state B) :
  framed m -> (forall a, framed (k a)) -> framed (bind m k).
Proof.
  intros Hm Hk s. unfold bind. specialize (Hm s).
  destruct (m s) as [a s1|msg s1|s1]; simpl in *; try done.
  eapply heap_frame_trans; [exact Hm|apply Hk].
Qed.

Lemma framed_deref p : framed (deref p).
Proof. intros s. unfold deref. destruct (heap s !! p); apply heap_frame_refl. Qed.

Lemma framed_get : framed (get : prog state state).
Proof. intros s. apply heap_frame_refl. Qed.

Lemma framed_call {A} (f : world -> A * world) ev : framed (call f ev).
Proof.
  intros s. unfold call. destruct (f (eng s)) as [a w'].
  now apply heap_frame_same.
Qed.

Lemma framed_modify (f : state -> state) :
  (forall s, heap (f s) = heap s) -> framed (modify f).
Proof. intros H s. simpl. now apply heap_frame_same. Qed.

Lemma heap_frame_update_db p f s :
  (forall d, db_frame d (f d)) -> heap_frame s (update_db p f s).
Proof.
  intros Hf q d Hq. unfold update_db, set_heap. simpl.
  destruct (heap s !! p) as [dp|] eqn:Hp.
  - destruct (decide (p = q)) as [->|Hne].
    + exists (f dp). split.
      * apply list_lookup_insert_eq. now apply lookup_lt_Some in Hp.
      * assert (dp = d) by congruence. subst. apply Hf.
    + exists d. split; [now rewrite list_lookup_insert_ne|apply db_frame_refl].
  - exists d. split; [done|apply db_frame_refl].
Qed.

Lemma framed_store p f : (forall d, db_frame d (f d)) -> framed (store p f).
Proof.
  intros Hf. unfold store. apply framed_bind; [apply framed_deref|].
  intros _ s. simpl. now apply heap_frame_update_db.
Qed.

Lemma db_frame_set_uOps g d : db_frame d (set_uOps g d).
Proof. now repeat split. Qed.

Lemma db_frame_set_wg g d : db_frame d (set_wg g d).
Proof. now repeat split. Qed.

Lemma framed_wg_Add p n : framed (wg_Add p n).
Proof.
  unfold wg_Add. apply framed_bind; [apply framed_deref|]. intros d.
  destruct (wg d + n <? 0); [apply framed_panic|].
  apply framed_store. apply db_frame_set_wg.
Qed.

Lemma framed_worker_range p received : framed (worker_range p received).
Proof.
  induction received as [|u rest IH]; simpl; [apply framed_ret|].
  apply framed_bind; [apply framed_deref|]. intros d.
  apply framed_bind; [apply framed_call|]. intros r.
  apply framed_bind; [now apply framed_modify|]. intros _. exact IH.
Qed.

Lemma framed_worker p : framed (worker p).
Proof.
  unfold worker. apply framed_bind; [apply framed_deref|]. intros d.
  apply framed_bind; [apply framed_store, db_frame_set_uOps|]. intros _.
  apply framed_bind; [apply framed_worker_range|]. intros _.
  destruct (is_closed (uOps d)); [|apply framed_ret].
  apply framed_bind; [apply framed_wg_Add|]. intros _.
  now apply framed_modify.
Qed.

Lemma framed_run_each ps : framed (run_each ps).
Proof.
  induction ps as [|p ps IH]; simpl; [apply framed_ret|].
  apply framed_bind; [apply framed_worker|]. intros _. exact IH.
Qed.

Lemma framed_yield : framed yield.
Proof.
  unfold yield. apply framed_bind; [apply framed_get|].
  intros s. apply framed_run_each.
Qed.

Lemma framed_close_uOps p : framed (close_uOps p).
Proof.
  unfold close_uOps. apply framed_bind; [apply framed_deref|]. intros d.
  destruct (is_closed (uOps d)); [apply framed_panic|].
  apply framed_store, db_frame_set_uOps.
Qed.

Lemma framed_wg_Wait p : framed (wg_Wait p).
Proof.
  unfold wg_Wait. apply framed_bind; [apply framed_yield|]. intros _.
  apply framed_bind; [apply framed_deref|]. intros d.
  destruct (wg d =? 0); [apply framed_ret|apply framed_block].
Qed.

(** The teardown after its first step. *)
Lemma framed_teardown_rest p :
  framed (close_uOps p;; wg_Wait p;; d <- deref p;; _ <- EnvClose (env d);; ret tt).
Proof.
  apply framed_bind; [apply framed_close_uOps|]. intros _.
  apply framed_bind; [apply framed_wg_Wait|]. intros _.
  apply framed_bind; [apply framed_deref|]. intros d.
  apply framed_bind; [apply framed_call|]. intros _. apply framed_ret.
Qed.

(** ** Close, run by one caller *)

(** A Close on a [DB] whose Once is done returns at once and changes
    nothing. *)
Lemma Close_done p s d :
  heap s !! p = Some d -> closeOnce d = OnceDone -> Close p s = Returned tt s.
Proof.
  intros Hp Hd. unfold Close, closeOnce_Do.
  rewrite (bind_returned _ _ _ _ _ (deref_returned _ _ _ Hp)). now rewrite Hd.
Qed.

(** The first Close: however it ends, the flag [closed] is 1 and the
    environment and the registry are the same; unless it blocked, the Once
    is done. *)
Lemma Close_fresh p s d :
  heap s !! p = Some d -> closeOnce d = OnceFresh ->
  exists d', heap (final (Close p s)) !! p = Some d' /\
    closed d' = 1 /\ env d' = env d /\ dbs d' = dbs d /\
    closeOnce d' = match Close p s with
                   | Blocked _ => OnceRunning
                   | _ => OnceDone
                   end.
Proof.
  intros Hp Hf. unfold Close, closeOnce_Do.
  rewrite (bind_returned _ _ _ _ _ (deref_returned _ _ _ Hp)). rewrite Hf.
  rewrite (bind_returned _ _ _ _ _ (store_returned _ _ _ _ Hp)).
  pose proof (lookup_update_db p (set_closeOnce OnceRunning) s d Hp) as Hp1.
  set (s1 := update_db p (set_closeOnce OnceRunning) s) in *.
  unfold teardown, store_closed.
  unfold deferred.
  rewrite (bind_returned _ _ _ _ _ (store_returned _ _ _ _ Hp1)).
  pose proof (lookup_update_db p (set_closed 1) s1 _ Hp1) as Hp2.
  set (s2 := update_db p (set_closed 1) s1) in *.
  pose proof (framed_teardown_rest p s2 p _ Hp2) as (d3 & Hp3 & F1 & F2 & F3 & F4).
  simpl in F1, F2, F3, F4.
  destruct ((close_uOps p;; wg_Wait p;; d0 <- deref p;; _ <- EnvClose (env d0);; ret tt) s2)
    as [[] s3|msg s3|s3]; simpl in Hp3; simpl.
  - exists (set_closeOnce OnceDone d3).
    split; [now apply lookup_update_db|]. now repeat split.
  - exists (set_closeOnce OnceDone d3).
    split; [now apply lookup_update_db|]. now repeat split.
  - exists d3. now repeat split.
Qed.

(** After a Close that returned, every further Close returns at once
    and changes nothing. *)
Lemma Close_twice p s d s1 :
  heap s !! p = Some d -> closeOnce d <> OnceRunning ->
  Close p s = Returned tt s1 -> Close p s1 = Returned tt s1.
Proof.
  intros Hp Hr Hc. destruct (closeOnce d) eqn:Ho; [|contradiction|].
  - destruct (Close_fresh p s d Hp Ho) as (d' & Hp' & _ & _ & _ & Hd').
    rewrite Hc in Hp', Hd'. simpl in Hp'. now apply Close_done with (d := d').
  - rewrite (Close_done p s d Hp Ho) in Hc. injection Hc as <-.
    now apply Close_done with (d := d).
Qed.

(** ** The closed guard *)

Lemma load_closed_returned p s d :
  heap s !! p = Some d -> load_closed p s = Returned (closed d) s.
Proof.
  intros H. unfold load_closed.
  now rewrite (bind_returned _ _ _ _ _ (deref_returned _ _ _ H)).
Qed.

Lemma Update_closed p s d o :
  heap s !! p = Some d -> closed d <> 0 ->
  Update p o s = Returned (Some ErrDBClosed) s.
Proof.
  intros Hp Hc. unfold Update.
  rewrite (bind_returned _ _ _ _ _ (load_closed_returned _ _ _ Hp)).
  destruct (closed d =? 0) eqn:E; [apply Z.eqb_eq in E; contradiction|reflexivity].
Qed.

Lemma View_closed p s d o :
  heap s !! p = Some d -> closed d <> 0 ->
  View p o s = Returned (Some ErrDBClosed) s.
Proof.
  intros Hp Hc. unfold View.
  rewrite (bind_returned _ _ _ _ _ (load_closed_returned _ _ _ Hp)).
  destruct (closed d =? 0) eqn:E; [apply Z.eqb_eq in E; contradiction|reflexivity].
Qed.

(** [validateArgs] always returns, in the state it was called in, as
    long as the pointer is valid. *)
Lemma validateArgs_returns (p : nat) (dbName : string) (key : bytes)
    (s : state) (d : DB) :
  heap s !! p = Some d ->
  exists dbi e, validateArgs p dbName key s = Returned (dbi, e) s /\
    (e = None -> dbName <> "" /\ ~ empty_key key /\ dbs d !! dbName = Some dbi).
Proof.
  intros Hp. destruct (decide (dbName = "")) as [->|Hn].
  { exists 0, (Some ErrDbNameNotFound). split; [reflexivity|discriminate]. }
  destruct (bool_decide (key = None) || (len key =? 0))%bool eqn:E.
  { apply empty_key_test in E. exists 0, (Some ErrEmptyKey).
    split; [now apply validateArgs_empty_key|discriminate]. }
  assert (Hk : ~ empty_key key).
  { intros Hk. apply empty_key_test in Hk. congruence. }
  rewrite (validateArgs_lookup p dbName key s d Hp Hn Hk).
  destruct (dbs d !! dbName) as [dbi|] eqn:El.
  - exists dbi, None. now repeat split.
  - exists 0, (Some ErrDbNameNotFound). split; [reflexivity|discriminate].
Qed.

(** C1, as the code has it.  Once a first Close has returned, in every
    later state whose Go objects are as that Close left them: Update and
    View return [ErrDBClosed]; Write and Delete return the error of
    [validateArgs] when there is one and [ErrDBClosed] otherwise; each of
    these calls returns (it neither blocks nor panics) in the state it was
    called in, so nothing was queued and no call reached the engine.
    Read is not part of the statement: it has no such guard. *)
Theorem closed_guard (p : nat) (s0 s1 : state) (d0 : DB) :
  heap s0 !! p = Some d0 -> closeOnce d0 = OnceFresh ->
  Close p s0 = Returned tt s1 ->
  forall s, heap s = heap s1 ->
  forall (o : TxnOp) (dbName : string) (key value : bytes),
    Update p o s = Returned (Some ErrDBClosed) s /\
    View p o s = Returned (Some ErrDBClosed) s /\
    exists dbi e,
      validateArgs p dbName key s = Returned (dbi, e) s /\
      Write p dbName key value s =
        Returned (Some (match e with Some err => err | None => ErrDBClosed end)) s /\
      Delete p dbName key s =
        Returned (Some (match e with Some err => err | None => ErrDBClosed end)) s.
Proof.
  intros Hp Hf Hc s Hs o dbName key value.
  destruct (Close_fresh p s0 d0 Hp Hf) as (d1 & Hp1 & Hcl & _).
  rewrite Hc in Hp1. simpl in Hp1. rewrite <- Hs in Hp1.
  assert (Hne : closed d1 <> 0) by lia.
  split; [now apply Update_closed with (d := d1)|].
  split; [now apply View_closed with (d := d1)|].
  destruct (validateArgs_returns p dbName key s d1 Hp1) as (dbi & e & Hv & _).
  exists dbi, e. split; [exact Hv|].
  unfold Write, Delete. rewrite !(bind_returned _ _ _ _ _ Hv). cbn [fst snd].
  destruct e as [err|]; [now split|].
  split; now apply Update_closed with (d := d1).
Qed.

(** Read after Close: with a registered name and a key that is not
    empty, Read goes on to [db.env.View] whatever the flag [closed] says. *)
Lemma Read_ignores_closed (p : nat) (s : state) (d : DB) (dbName : string)
    (key : bytes) (dbi : DBI) :
  heap s !! p = Some d ->
  dbName <> "" -> ~ empty_key key -> dbs d !! dbName = Some dbi ->
  exists r s', Read p dbName key s = Returned r s' /\
    log s' = log s ++ [EvView (env d) (snd r)].
Proof.
  intros Hp Hn Hk Hl. unfold Read.
  rewrite (bind_returned _ _ _ _ _ (validateArgs_lookup p dbName key s d Hp Hn Hk)).
  rewrite Hl. cbn [fst snd].
  rewrite (bind_returned _ _ _ _ _ (deref_returned _ _ _ Hp)).
  unfold EnvView.
  destruct (call_returns (env_View (env d) None (fun txn => txn_Get txn dbi key))
              (fun r => EvView (env d) (snd r)) s) as (r & s' & Hc & _ & _ & Hlog).
  exists r, s'. now split.
Qed.

(** ** Update through the queue, one caller *)

Lemma make_res_returned s :
  make_res s = Returned (nchan s) (set_nchan S s).
Proof. reflexivity. Qed.

Lemma try_send_returned p u s d :
  heap s !! p = Some d -> is_closed (uOps d) = false -> is_full (uOps d) = false ->
  try_send p u s = Returned tt (update_db p (set_uOps (enqueue u)) s).
Proof.
  intros Hp Hc Hf. unfold try_send.
  rewrite (bind_returned _ _ _ _ _ (deref_returned _ _ _ Hp)).
  rewrite Hc, Hf. now apply store_returned with (d := d).
Qed.

Lemma send_uOps_returned p u s d :
  heap s !! p = Some d -> is_closed (uOps d) = false -> is_full (uOps d) = false ->
  send_uOps p u s = Returned tt (update_db p (set_uOps (enqueue u)) s).
Proof.
  intros Hp Hc Hf. unfold send_uOps.
  rewrite (bind_returned _ _ _ _ _ (deref_returned _ _ _ Hp)).
  rewrite Hc, Hf. now apply try_send_returned with (d := d).
Qed.

Lemma at_rest_not_full d : at_rest d -> is_full (uOps d) = false.
Proof.
  intros (_ & Hb & _ & Hcap). unfold is_full. rewrite Hb. simpl.
  apply negb_false_iff. now apply Nat.ltb_lt.
Qed.

(** Emptying the queue of a [DB] at rest to which one request was sent
    gives the [DB] back. *)
Lemma drained_at_rest u d :
  buf (uOps d) = [] ->
  set_uOps (fun c => mkChan [] (cap c) (is_closed c)) (set_uOps (enqueue u) d) = d.
Proof.
  destruct d as [e m [b c k] w o cl]. simpl. intros ->. reflexivity.
Qed.

Lemma worker_range_one p s d u :
  heap s !! p = Some d ->
  worker_range p [u] s =
    let r := env_UpdateLocked (env d) (op u) (eng s) in
    Returned tt
      (mkState (heap s) (workers s) (<[res u := fst r]> (mail s)) (nchan s)
               (snd r) (log s ++ [EvUpdateLocked (env d) (fst r)])).
Proof.
  intros Hp. simpl worker_range.
  rewrite (bind_returned _ _ _ _ _ (deref_returned _ _ _ Hp)).
  unfold EnvUpdateLocked, call, bind, send_res, modify, ret. simpl.
  now destruct (env_UpdateLocked (env d) (op u) (eng s)) as [e w'].
Qed.

(** The worker woken on a queue holding one request [u] of an open
    channel: it runs [UpdateLocked] on [u]'s operation, sends the result on
    [u]'s channel, finds the queue empty and parks. *)
Lemma worker_one_request p s d u :
  heap s !! p = Some d -> buf (uOps d) = [u] -> is_closed (uOps d) = false ->
  worker p s =
    let r := env_UpdateLocked (env d) (op u) (eng s) in
    Returned tt
      (mkState (<[p := set_uOps (fun c => mkChan [] (cap c) (is_closed c)) d]> (heap s))
               (workers s) (<[res u := fst r]> (mail s)) (nchan s)
               (snd r) (log s ++ [EvUpdateLocked (env d) (fst r)])).
Proof.
  intros Hp Hb Hc. unfold worker.
  rewrite (bind_returned _ _ _ _ _ (deref_returned _ _ _ Hp)).
  rewrite (bind_returned _ _ _ _ _ (store_returned _ _ _ _ Hp)).
  pose proof (lookup_update_db p (set_uOps (fun c => mkChan [] (cap c) (is_closed c))) s d Hp)
    as Hp1.
  pose proof (heap_update_db p (set_uOps (fun c => mkChan [] (cap c) (is_closed c))) s d Hp)
    as Hh1.
  set (s1 := update_db p (set_uOps (fun c => mkChan [] (cap c) (is_closed c))) s) in *.
  rewrite Hb, Hc.
  rewrite (bind_returned _ _ _ _ _ (worker_range_one p s1 _ u Hp1)).
  unfold ret. simpl. now rewrite Hp.
Qed.

Lemma yield_single p s s' :
  workers s = [p] -> worker p s = Returned tt s' -> yield s = Returned tt s'.
Proof.
  intros Hw Hr. unfold yield, bind, get. rewrite Hw. simpl.
  unfold bind. now rewrite Hr.
Qed.

(** Update on a [DB] at rest whose worker is the only one alive: the
    request goes through the queue, the worker runs it, the caller gets
    the result.  The outcome is the one of [env.UpdateLocked(o)] called
    directly, and the Go objects are as before (but for one more channel
    name used). *)
Lemma Update_at_rest (p : nat) (s : state) (d : DB) (o : TxnOp) :
  heap s !! p = Some d -> at_rest d -> workers s = [p] -> mail s = ∅ ->
  Update p o s =
    let r := env_UpdateLocked (env d) o (eng s) in
    Returned (fst r)
      (mkState (heap s) (workers s) (mail s) (S (nchan s)) (snd r)
               (log s ++ [EvUpdateLocked (env d) (fst r)])).
Proof.
  intros Hp Hrest Hw Hm.
  pose proof (at_rest_not_full d Hrest) as Hnf.
  destruct Hrest as (Hcl & Hb & Hopen & Hcap).
  unfold Update.
  rewrite (bind_returned _ _ _ _ _ (load_closed_returned _ _ _ Hp)).
  rewrite Hcl. change (negb (0 =? 0)) with false. cbv iota.
  rewrite (bind_returned _ _ _ _ _ (make_res_returned s)).
  set (u := mkUpdateOp o (nchan s)).
  set (s1 := set_nchan S s).
  assert (Hp1 : heap s1 !! p = Some d) by exact Hp.
  rewrite (bind_returned _ _ _ _ _ (send_uOps_returned p u s1 d Hp1 Hopen Hnf)).
  pose proof (lookup_update_db p (set_uOps (enqueue u)) s1 d Hp1) as Hp2.
  pose proof (heap_update_db p (set_uOps (enqueue u)) s1 d Hp1) as Hh2.
  set (s2 := update_db p (set_uOps (enqueue u)) s1) in *.
  assert (Hb2 : buf (uOps (set_uOps (enqueue u) d)) = [u]).
  { simpl. now rewrite Hb. }
  assert (Ho2 : is_closed (uOps (set_uOps (enqueue u) d)) = false) by exact Hopen.
  pose proof (worker_one_request p s2 _ u Hp2 Hb2 Ho2) as Hwk.
  cbv zeta in Hwk.
  assert (Hw2 : workers s2 = [p]) by exact Hw.
  unfold recv_res.
  rewrite (bind_returned _ _ _ _ _ (yield_single p s2 _ Hw2 Hwk)).
  unfold bind, get, modify, ret. cbn [mail].
  rewrite lookup_insert_eq. cbv zeta. cbn [op res u env set_uOps eng log fst snd].
  f_equal. unfold set_mail. cbn [heap workers mail nchan eng log].
  f_equal.
  - rewrite Hh2. rewrite list_insert_insert_eq.
    rewrite (drained_at_rest u d Hb). now apply list_insert_id.
  - change (mail s2) with (mail s). rewrite Hm.
    apply delete_insert_id. apply lookup_empty.
Qed.



(** ** The interleaved runs *)

(** A step of a goroutine that returns is the step [step_rel] describes,
    and leaves the other objects; a step that panics has changed nothing
    in the [DB]. *)
Lemma thread_step_spec (p : nat) (t : thread) (s : state) (d : DB) :
  heap s !! p = Some d ->
  match thread_step p t s with
  | Returned t' s' =>
      exists d', heap s' !! p = Some d' /\
        step_rel t d (nchan s) t' d' (nchan s')
  | Panicked _ s' => heap s' !! p = Some d /\ (nchan s <= nchan s')%nat
  | Blocked _ => True
  end.
Proof.
  intros Hp. destruct t as [o|o|r|e| | | | | | | |u|r e| ]; simpl thread_step;
    try exact I.
  - (* UpdLoad *)
    rewrite (bind_returned _ _ _ _ _ (load_closed_returned _ _ _ Hp)).
    exists d. now repeat split.
  - (* UpdSend *)
    rewrite (bind_returned _ _ _ _ _ (make_res_returned s)).
    assert (Hp1 : heap (set_nchan S s) !! p = Some d) by exact Hp.
    unfold try_send.
    rewrite (bind_bind_returned _ _ _ _ _ _ (deref_returned _ _ _ Hp1)).
    destruct (is_closed (uOps d)) eqn:Hcl; [split; [exact Hp|simpl; lia]|].
    destruct (is_full (uOps d)); [exact I|].
    rewrite (bind_returned _ _ _ _ _ (store_returned _ _ _ _ Hp1)). unfold ret.
    eexists. split; [apply (lookup_update_db _ _ _ _ Hp1)|]. now repeat split.
  - (* ClsEnter *)
    rewrite (bind_returned _ _ _ _ _ (deref_returned _ _ _ Hp)).
    destruct (closeOnce d) eqn:Ho.
    + rewrite (bind_returned _ _ _ _ _ (store_returned _ _ _ _ Hp)).
      eexists. split; [eapply lookup_update_db; eassumption|].
      split; [reflexivity|]. right. now repeat split.
    + exact I.
    + exists d. split; [exact Hp|]. split; [reflexivity|]. left. now repeat split.
  - (* ClsStore *)
    unfold store_closed.
    rewrite (bind_returned _ _ _ _ _ (store_returned _ _ _ _ Hp)).
    eexists. split; [eapply lookup_update_db; eassumption|]. now repeat split.
  - (* ClsCloseChan *)
    unfold close_uOps.
    rewrite (bind_bind_returned _ _ _ _ _ _ (deref_returned _ _ _ Hp)).
    destruct (is_closed (uOps d)) eqn:Hcl; [now split|].
    rewrite (bind_returned _ _ _ _ _ (store_returned _ _ _ _ Hp)). unfold ret.
    eexists. split; [eapply lookup_update_db; eassumption|]. now repeat split.
  - (* ClsWait *)
    rewrite (bind_returned _ _ _ _ _ (deref_returned _ _ _ Hp)).
    destruct (wg d =? 0) eqn:Hwg; [|exact I]. apply Z.eqb_eq in Hwg.
    exists d. now repeat split.
  - (* ClsEnvClose *)
    rewrite (bind_returned _ _ _ _ _ (deref_returned _ _ _ Hp)).
    unfold EnvClose.
    destruct (call_returns (env_Close (env d)) (EvClose (env d)) s)
      as (e & s1 & Hc & (Hh & _ & _ & Hn) & _).
    rewrite (bind_returned _ _ _ _ _ Hc).
    assert (Hp1 : heap s1 !! p = Some d) by now rewrite Hh.
    rewrite (bind_returned _ _ _ _ _ (store_returned _ _ _ _ Hp1)).
    eexists. split; [apply (lookup_update_db _ _ _ _ Hp1)|]. now repeat split.
  - (* WkRecv *)
    rewrite (bind_returned _ _ _ _ _ (deref_returned _ _ _ Hp)).
    destruct (buf (uOps d)) as [|u rest] eqn:Hb.
    + destruct (is_closed (uOps d)) eqn:Hcl; [|exact I].
      unfold wg_Done, wg_Add.
      rewrite (bind_bind_returned _ _ _ _ _ _ (deref_returned _ _ _ Hp)).
      destruct (wg d + -1 <? 0) eqn:Hneg; [now split|].
      apply Z.ltb_ge in Hneg.
      rewrite (bind_returned _ _ _ _ _ (store_returned _ _ _ _ Hp)). unfold ret.
      eexists. split; [eapply lookup_update_db; eassumption|].
      split; [reflexivity|]. right. now repeat split.
    + rewrite (bind_returned _ _ _ _ _ (store_returned _ _ _ _ Hp)).
      eexists. split; [eapply lookup_update_db; eassumption|].
      split; [reflexivity|]. left. exists u, rest. now repeat split.
  - (* WkExec *)
    rewrite (bind_returned _ _ _ _ _ (deref_returned _ _ _ Hp)).
    unfold EnvUpdateLocked.
    destruct (call_returns (env_UpdateLocked (env d) (op u))
                (EvUpdateLocked (env d)) s)
      as (e & s1 & Hc & (Hh & _ & _ & Hn) & _).
    rewrite (bind_returned _ _ _ _ _ Hc).
    exists d. split; [now rewrite Hh|]. repeat split; eauto.
Qed.

Lemma note_fields t t' c :
  shared (note t t' c) = shared c /\ pool (note t t' c) = pool c /\
  dead (note t t' c) = dead c /\
  enqueued (note t t' c) = enqueued c ++ enq_of t t' /\
  executed (note t t' c) = executed c ++ inflight t /\
  tlog (note t t' c) = tlog c ++ tsteps_of t.
Proof.
  destruct t; destruct t'; simpl; rewrite ?app_nil_r; now repeat split.
Qed.

Lemma find_index_some {A} (f : A -> bool) l j :
  find_index f l = Some j -> exists x, l !! j = Some x /\ f x = true.
Proof.
  revert j. induction l as [|x l IH]; intros j H; [discriminate|].
  simpl in H. destruct (f x) eqn:E.
  - injection H as <-. exists x. now split.
  - destruct (find_index f l) as [k|]; [|discriminate].
    injection H as <-. destruct (IH k eq_refl) as (y & Hy & Hf). now exists y.
Qed.

Lemma is_recv_true r t : is_recv r t = true -> t = UpdRecv r.
Proof.
  destruct t; simpl; try discriminate. intros H.
  apply Nat.eqb_eq in H. now subst.
Qed.

(** The three kinds of step of a run: a goroutine moves on its own; a
    goroutine panics and the process is dead; the worker hands a result
    to the caller waiting for it. *)
Lemma cstep_inv (p i : nat) (c c' : cstate) (d : DB) :
  heap (shared c) !! p = Some d -> cstep p i c = Some c' ->
  (exists t t' d',
     pool c !! i = Some t /\ heap (shared c') !! p = Some d' /\
     step_rel t d (nchan (shared c)) t' d' (nchan (shared c')) /\
     pool c' = <[i := t']> (pool c) /\
     enqueued c' = enqueued c ++ enq_of t t' /\
     executed c' = executed c ++ inflight t /\
     tlog c' = tlog c ++ tsteps_of t /\ dead c' = None) \/
  (exists msg,
     dead c' = Some msg /\ pool c' = pool c /\
     heap (shared c') !! p = Some d /\
     (nchan (shared c) <= nchan (shared c'))%nat /\
     enqueued c' = enqueued c /\ executed c' = executed c /\ tlog c' = tlog c) \/
  (exists r e j,
     pool c !! i = Some (WkSend r e) /\ pool c !! j = Some (UpdRecv r) /\
     pool c' = <[j := UpdDone e]> (<[i := WkRecv]> (pool c)) /\
     shared c' = shared c /\
     enqueued c' = enqueued c /\ executed c' = executed c /\
     tlog c' = tlog c /\ dead c' = None).
Proof.
  intros Hp H. unfold cstep in H.
  destruct (dead c) eqn:Hd; [discriminate|].
  destruct (pool c !! i) as [t|] eqn:Ht; [|discriminate].
  assert (Hgen : forall t0, t0 = t ->
    match thread_step p t0 (shared c) with
    | Returned t' s' =>
        Some (note t0 t' (mkC s' (<[i := t']> (pool c))
                              (enqueued c) (executed c) (tlog c) None))
    | Panicked msg s' =>
        Some (mkC s' (pool c) (enqueued c) (executed c) (tlog c) (Some msg))
    | Blocked _ => None
    end = Some c' ->
    (exists t t' d',
       Some t0 = Some t /\ heap (shared c') !! p = Some d' /\
       step_rel t d (nchan (shared c)) t' d' (nchan (shared c')) /\
       pool c' = <[i := t']> (pool c) /\
       enqueued c' = enqueued c ++ enq_of t t' /\
       executed c' = executed c ++ inflight t /\
       tlog c' = tlog c ++ tsteps_of t /\ dead c' = None) \/
    (exists msg,
       dead c' = Some msg /\ pool c' = pool c /\
       heap (shared c') !! p = Some d /\
       (nchan (shared c) <= nchan (shared c'))%nat /\
       enqueued c' = enqueued c /\ executed c' = executed c /\ tlog c' = tlog c)).
  { intros t0 _ H0. pose proof (thread_step_spec p t0 (shared c) d Hp) as Hs.
    destruct (thread_step p t0 (shared c)) as [t' s'|msg s'|s']; [| |discriminate].
    - injection H0 as <-. destruct Hs as (d' & Hp' & Hrel).
      destruct (note_fields t0 t'
                  (mkC s' (<[i := t']> (pool c)) (enqueued c) (executed c) (tlog c) None))
        as (N1 & N2 & N3 & N4 & N5 & N6).
      left. exists t0, t', d'. rewrite N1, N2, N3, N4, N5, N6. simpl.
      now repeat split.
    - injection H0 as <-. destruct Hs as [Hp' Hn]. right. exists msg. simpl.
      now repeat split. }
  destruct t as [o|o|r|e| | | | | | | |u|r e| ];
    try (destruct (Hgen _ eq_refl H) as [G|G]; [left; exact G|right; left; exact G]).
  destruct (find_index (is_recv r) (pool c)) as [j|] eqn:Hj; [|discriminate].
  injection H as <-. right. right.
  apply find_index_some in Hj as (x & Hx & Hr). apply is_recv_true in Hr. subst x.
  exists r, e, j. simpl. now repeat split.
Qed.

(** The worker's step on a request it holds is one call of
    [env.UpdateLocked] on the request's operation, on the engine as it is
    at that moment; the result is what the worker will send. *)
Lemma worker_executes_UpdateLocked (p i : nat) (c c' : cstate) (d : DB)
    (u : updateOp) :
  heap (shared c) !! p = Some d -> pool c !! i = Some (WkExec u) ->
  cstep p i c = Some c' ->
  exists e,
    env_UpdateLocked (env d) (op u) (eng (shared c)) = (e, eng (shared c')) /\
    pool c' = <[i := WkSend (res u) e]> (pool c) /\
    heap (shared c') = heap (shared c) /\
    log (shared c') = log (shared c) ++ [EvUpdateLocked (env d) e].
Proof.
  intros Hp Hi H. unfold cstep in H.
  destruct (dead c); [discriminate|]. rewrite Hi in H.
  simpl thread_step in H.
  rewrite (bind_returned _ _ _ _ _ (deref_returned _ _ _ Hp)) in H.
  unfold EnvUpdateLocked, call, bind, ret in H.
  destruct (env_UpdateLocked (env d) (op u) (eng (shared c))) as [e w'].
  injection H as <-. exists e. simpl. now repeat split.
Qed.

(** The worker's send and the caller's receive: the caller waiting on the
    channel gets the result the worker holds, and returns it. *)
Lemma handover_delivers (p i : nat) (c c' : cstate) (r : nat) (e : goerr) :
  pool c !! i = Some (WkSend r e) -> cstep p i c = Some c' ->
  exists j, pool c !! j = Some (UpdRecv r) /\
    pool c' !! j = Some (UpdDone e) /\ shared c' = shared c.
Proof.
  intros Hi H. unfold cstep in H.
  destruct (dead c); [discriminate|]. rewrite Hi in H.
  destruct (find_index (is_recv r) (pool c)) as [j|] eqn:Hj; [|discriminate].
  injection H as <-. apply find_index_some in Hj as (x & Hx & Hr).
  apply is_recv_true in Hr. subst x. exists j. simpl.
  split; [exact Hx|]. split; [|reflexivity].
  apply list_lookup_insert_eq. rewrite length_insert.
  now apply lookup_lt_Some in Hx.
Qed.

(** *** The queue discipline is kept *)

Lemma step_rel_caller t d n t' d' n' :
  is_worker t = false -> step_rel t d n t' d' n' ->
  is_worker t' = false /\
  buf (uOps d') = buf (uOps d) ++ enq_of t t' /\
  (n <= n')%nat /\
  (forall u, In u (enq_of t t') -> res u = n /\ n' = S n).
Proof.
  intros Hk Hrel. destruct t; simpl in Hk; try discriminate; simpl in Hrel;
    try contradiction.
  - destruct Hrel as (-> & -> & ->).
    destruct (negb (closed d =? 0)); simpl; rewrite app_nil_r;
      (split; [reflexivity|]); (split; [reflexivity|]);
      (split; [lia|]); intros u [].
  - destruct Hrel as (-> & -> & -> & _). simpl.
    split; [reflexivity|]. split; [reflexivity|]. split; [lia|].
    intros u [<-|[]]. now split.
  - destruct Hrel as (-> & [(_ & -> & ->)|(_ & -> & ->)]); simpl;
      rewrite app_nil_r;
      (split; [reflexivity|]); (split; [reflexivity|]);
      (split; [lia|]); intros u [].
  - destruct Hrel as (-> & -> & ->). simpl. rewrite app_nil_r.
    split; [reflexivity|]. split; [reflexivity|]. split; [lia|]. intros u [].
  - destruct Hrel as (-> & -> & -> & _). simpl. rewrite app_nil_r.
    split; [reflexivity|]. split; [reflexivity|]. split; [lia|]. intros u [].
  - destruct Hrel as (-> & -> & -> & _). simpl. rewrite app_nil_r.
    split; [reflexivity|]. split; [reflexivity|]. split; [lia|]. intros u [].
  - destruct Hrel as (-> & -> & ->). simpl. rewrite app_nil_r.
    split; [reflexivity|]. split; [reflexivity|]. split; [lia|]. intros u [].
Qed.

Lemma step_rel_worker t d n t' d' n' :
  is_worker t = true -> step_rel t d n t' d' n' ->
  is_worker t' = true /\ n' = n /\ enq_of t t' = [] /\
  inflight t ++ buf (uOps d) = inflight t ++ inflight t' ++ buf (uOps d').
Proof.
  intros Hk Hrel. destruct t; simpl in Hk; try discriminate; simpl in Hrel;
    try contradiction.
  - destruct Hrel as (-> & [(u & rest & Hb & -> & ->)|(Hb & -> & -> & _)]); simpl.
    + now rewrite Hb.
    + now rewrite Hb.
  - destruct Hrel as (-> & -> & e & ->). now simpl.
Qed.

Lemma fifo_step (p i : nat) (c c' : cstate) :
  fifo_inv p c -> cstep p i c = Some c' -> fifo_inv p c'.
Proof.
  intros (d & tw & cs & Hp & Hpool & Hw & Hcs & Henq & Hlt & Hnd) H.
  destruct (cstep_inv p i c c' d Hp H)
    as [(t & t' & d' & Ht & Hp' & Hrel & Hpool' & He & Hx & _ & _)
       |[(msg & _ & Hpool' & Hp' & Hn & He & Hx & _)
        |(r & e & j & Ht & Hj & Hpool' & Hsh & He & Hx & _)]].
  - rewrite Hpool in Ht, Hpool'. destruct i as [|k].
    + (* the worker moves *)
      injection Ht as <-.
      destruct (step_rel_worker _ _ _ _ _ _ Hw Hrel) as (Hw' & Hn & He0 & Hq).
      exists d', t', cs. split; [exact Hp'|]. split; [exact Hpool'|].
      split; [exact Hw'|]. split; [exact Hcs|].
      rewrite He, He0, app_nil_r, Hx, Hn.
      split; [|now split].
      rewrite Henq. rewrite <- app_assoc. now f_equal.
    + (* a caller moves *)
      simpl in Ht, Hpool'.
      assert (Hk : is_worker t = false)
        by (rewrite Forall_lookup in Hcs; now apply (Hcs k)).
      destruct (step_rel_caller _ _ _ _ _ _ Hk Hrel) as (Hk' & Hb & Hn & Hfresh).
      exists d', tw, (<[k := t']> cs). split; [exact Hp'|].
      split; [exact Hpool'|]. split; [exact Hw|].
      split; [now apply Forall_insert|].
      assert (Hfl : inflight t = []) by (destruct t; simpl in *; congruence).
      rewrite He, Hx, Hb, Hfl, app_nil_r.
      split; [rewrite Henq, <- !app_assoc; reflexivity|].
      split.
      * apply Forall_app. split.
        -- eapply Forall_impl; [exact Hlt|]. simpl. intros u Hu. lia.
        -- apply Forall_forall. intros u Hu. apply list_elem_of_In in Hu.
           destruct (Hfresh u Hu) as [-> ->]. lia.
      * rewrite map_app. apply NoDup_app. split; [exact Hnd|]. split.
        -- intros x Hx1 Hx2.
           apply list_elem_of_In, in_map_iff in Hx1 as (u1 & <- & Hu1).
           apply list_elem_of_In, in_map_iff in Hx2 as (u2 & Heq & Hu2).
           destruct (Hfresh u2 Hu2) as [Hr2 _].
           rewrite Forall_forall in Hlt.
           apply list_elem_of_In in Hu1. specialize (Hlt u1 Hu1). simpl in Hlt. lia.
        -- destruct (enq_of t t') as [|u [|u2 l]] eqn:Eq.
           ++ constructor.
           ++ simpl. apply NoDup_singleton.
           ++ exfalso. destruct t; destruct t'; simpl in Eq; discriminate.
  - (* a panic *)
    exists d, tw, cs. rewrite Hpool', He, Hx.
    split; [exact Hp'|]. split; [exact Hpool|]. split; [exact Hw|].
    split; [exact Hcs|]. split; [exact Henq|]. split; [|exact Hnd].
    eapply Forall_impl; [exact Hlt|]. simpl. intros u Hu. lia.
  - (* the result is handed over *)
    rewrite Hpool in Ht, Hj, Hpool'.
    destruct i as [|k].
    + injection Ht as ->. destruct j as [|k]; [discriminate|].
      simpl in Hj, Hpool'.
      exists d, WkRecv, (<[k := UpdDone e]> cs). rewrite Hsh, He, Hx.
      split; [exact Hp|]. split; [exact Hpool'|]. split; [reflexivity|].
      split; [now apply Forall_insert|]. now split.
    + simpl in Ht. rewrite Forall_lookup in Hcs.
      specialize (Hcs k _ Ht). discriminate.
Qed.

Lemma fifo_run (p : nat) (sched : list nat) : forall c,
  fifo_inv p c -> fifo_inv p (crun p sched c).
Proof.
  induction sched as [|i rest IH]; intros c Hinv; [exact Hinv|].
  simpl. destruct (cstep p i c) as [c'|] eqn:E.
  - apply IH. now apply fifo_step with (i := i) (c := c).
  - now apply IH.
Qed.

Lemma is_entry_not_worker t : is_entry t = true -> is_worker t = false.
Proof. destruct t; simpl; congruence. Qed.

Lemma fifo_start (p : nat) (s : state) (d : DB) (callers : list thread) :
  heap s !! p = Some d -> buf (uOps d) = [] ->
  Forall (fun t => is_entry t = true) callers ->
  fifo_inv p (start s callers).
Proof.
  intros Hp Hb Hc. exists d, WkRecv, callers. simpl.
  split; [exact Hp|]. split; [reflexivity|]. split; [reflexivity|].
  split; [eapply Forall_impl; [exact Hc|apply is_entry_not_worker]|].
  split; [now rewrite Hb|]. split; constructor.
Qed.




(** *** The one-shot guard is kept *)

Lemma stages_split cs j t :
  cs !! j = Some t ->
  stages cs = stages (take j cs) ++ stage t ++ stages (drop (S j) cs).
Proof.
  intros H. rewrite <- (take_drop_middle cs j t H) at 1.
  unfold stages. rewrite flat_map_app. reflexivity.
Qed.

Lemma stages_insert cs j t t' :
  cs !! j = Some t ->
  stages (<[j := t']> cs) = stages (take j cs) ++ stage t' ++ stages (drop (S j) cs).
Proof.
  intros H. rewrite insert_take_drop by (now apply lookup_lt_Some in H).
  unfold stages. rewrite flat_map_app. reflexivity.
Qed.

Lemma stages_insert_same cs j t t' :
  cs !! j = Some t -> stage t' = stage t -> stages (<[j := t']> cs) = stages cs.
Proof.
  intros H Hs. rewrite (stages_insert cs j t t' H), (stages_split cs j t H).
  now rewrite Hs.
Qed.

Lemma stages_insert_enter cs j t t' :
  cs !! j = Some t -> stages cs = [] -> stages (<[j := t']> cs) = stage t'.
Proof.
  intros H Hs. rewrite (stages_insert cs j t t' H).
  rewrite (stages_split cs j t H) in Hs.
  apply app_eq_nil in Hs as [-> Hs]. apply app_eq_nil in Hs as [_ ->].
  now rewrite app_nil_r.
Qed.

Lemma stages_insert_inside cs j t t' a k :
  cs !! j = Some t -> stage t = [a] -> stages cs = [k] ->
  a = k /\ stages (<[j := t']> cs) = stage t'.
Proof.
  intros H Ha Hs. rewrite (stages_insert cs j t t' H).
  rewrite (stages_split cs j t H), Ha in Hs.
  destruct (stages (take j cs)) as [|x l].
  - simpl in Hs. injection Hs as -> Hs. rewrite Hs. now rewrite app_nil_r.
  - simpl in Hs. injection Hs as _ Hs. destruct l; discriminate.
Qed.

Lemma In_insert {A} (x y : A) l i :
  In x (<[i := y]> l) -> x = y \/ In x l.
Proof.
  revert i. induction l as [|z l IH]; intros i H; [destruct H|].
  destruct i as [|i]; simpl in H.
  - destruct H as [<-|H]; [now left|right; now right].
  - destruct H as [<-|H]; [right; now left|].
    destruct (IH i H) as [->|Hin]; [now left|right; now right].
Qed.

(** A step outside the teardown, by a goroutine that does not return
    from Close, leaves the guard's state. *)
Lemma once_quiet (o : once) (pl : list thread) (i : nat) (t t' : thread)
    (tl : list tstep) :
  pl !! i = Some t -> stage t = [] -> stage t' = [] -> t' <> ClsDone ->
  once_state o pl tl -> once_state o (<[i := t']> pl) tl.
Proof.
  intros Hi Hs Hs' Hne Hst.
  assert (Heq : stages (<[i := t']> pl) = stages pl)
    by (apply stages_insert_same with (t := t); congruence).
  assert (Hin : ~ In ClsDone pl -> ~ In ClsDone (<[i := t']> pl)).
  { intros Hn Hin. apply In_insert in Hin as [Hin|Hin]; [congruence|contradiction]. }
  destruct o; simpl in *; rewrite Heq.
  - destruct Hst as (H1 & H2 & H3). auto.
  - destruct Hst as (k & H1 & H2 & H3). exists k. auto.
  - exact Hst.
Qed.

Lemma once_step (p i : nat) (c c' : cstate) :
  once_inv p c -> cstep p i c = Some c' -> once_inv p c'.
Proof.
  intros (d & Hp & Hst) H.
  destruct (cstep_inv p i c c' d Hp H)
    as [(t & t' & d' & Ht & Hp' & Hrel & Hpool' & _ & _ & Htl & _)
       |[(msg & _ & Hpool' & Hp' & _ & _ & _ & Htl)
        |(r & e & j & Ht & Hj & Hpool' & Hsh & _ & _ & Htl & _)]].
  - exists d'. split; [exact Hp'|]. rewrite Hpool', Htl.
    destruct t; simpl in Hrel; try contradiction; simpl tsteps_of;
      rewrite ?app_nil_r.
    + (* UpdLoad *)
      destruct Hrel as (-> & _ & ->).
      apply once_quiet with (t := UpdLoad o); try done;
        destruct (negb (closed d =? 0)); done.
    + (* UpdSend *)
      destruct Hrel as (-> & _ & -> & _).
      now apply once_quiet with (t := UpdSend o).
    + (* ClsEnter *)
      destruct Hrel as (_ & [(Ho & -> & ->)|(Ho & -> & ->)]).
      * rewrite Ho in *. simpl in *. destruct Hst as [H1 H2].
        split; [|exact H2].
        rewrite (stages_insert_same _ _ _ ClsDone Ht); [exact H1|reflexivity].
      * simpl closeOnce. rewrite Ho in Hst. simpl in *.
        destruct Hst as (H1 & H2 & H3). exists 0%nat.
        split; [now rewrite (stages_insert_enter _ _ _ ClsStore Ht H1)|].
        split; [exact H2|].
        intros Hin. apply In_insert in Hin as [Hin|Hin]; [discriminate|contradiction].
    + (* ClsStore *)
      destruct Hrel as (_ & -> & ->). simpl closeOnce.
      pose proof (stages_split _ _ _ Ht) as Hsp. simpl stage in Hsp.
      destruct (closeOnce d); simpl in *.
      * destruct Hst as (H1 & _). rewrite H1 in Hsp.
        symmetry in Hsp. apply app_eq_nil in Hsp as [_ Hsp]. discriminate.
      * destruct Hst as (k & H1 & H2 & H3).
        destruct (stages_insert_inside _ _ _ ClsCloseChan 0%nat k Ht eq_refl H1)
          as [<- Hs]. exists 1%nat. split; [exact Hs|].
        split; [now rewrite H2|].
        intros Hin. apply In_insert in Hin as [Hin|Hin]; [discriminate|contradiction].
      * destruct Hst as (H1 & _). rewrite H1 in Hsp.
        symmetry in Hsp. apply app_eq_nil in Hsp as [_ Hsp]. discriminate.
    + (* ClsCloseChan *)
      destruct Hrel as (_ & -> & -> & _). simpl closeOnce.
      pose proof (stages_split _ _ _ Ht) as Hsp. simpl stage in Hsp.
      destruct (closeOnce d); simpl in *.
      * destruct Hst as (H1 & _). rewrite H1 in Hsp.
        symmetry in Hsp. apply app_eq_nil in Hsp as [_ Hsp]. discriminate.
      * destruct Hst as (k & H1 & H2 & H3).
        destruct (stages_insert_inside _ _ _ ClsWait 1%nat k Ht eq_refl H1)
          as [<- Hs]. exists 2%nat. split; [exact Hs|].
        split; [now rewrite H2|].
        intros Hin. apply In_insert in Hin as [Hin|Hin]; [discriminate|contradiction].
      * destruct Hst as (H1 & _). rewrite H1 in Hsp.
        symmetry in Hsp. apply app_eq_nil in Hsp as [_ Hsp]. discriminate.
    + (* ClsWait *)
      destruct Hrel as (_ & -> & -> & _).
      pose proof (stages_split _ _ _ Ht) as Hsp. simpl stage in Hsp.
      destruct (closeOnce d); simpl in *.
      * destruct Hst as (H1 & _). rewrite H1 in Hsp.
        symmetry in Hsp. apply app_eq_nil in Hsp as [_ Hsp]. discriminate.
      * destruct Hst as (k & H1 & H2 & H3).
        destruct (stages_insert_inside _ _ _ ClsEnvClose 2%nat k Ht eq_refl H1)
          as [<- Hs]. exists 3%nat. split; [exact Hs|].
        split; [now rewrite H2|].
        intros Hin. apply In_insert in Hin as [Hin|Hin]; [discriminate|contradiction].
      * destruct Hst as (H1 & _). rewrite H1 in Hsp.
        symmetry in Hsp. apply app_eq_nil in Hsp as [_ Hsp]. discriminate.
    + (* ClsEnvClose *)
      destruct Hrel as (_ & -> & ->). simpl closeOnce.
      pose proof (stages_split _ _ _ Ht) as Hsp. simpl stage in Hsp.
      destruct (closeOnce d); simpl in *.
      * destruct Hst as (H1 & _). rewrite H1 in Hsp.
        symmetry in Hsp. apply app_eq_nil in Hsp as [_ Hsp]. discriminate.
      * destruct Hst as (k & H1 & H2 & H3).
        destruct (stages_insert_inside _ _ _ ClsDone 3%nat k Ht eq_refl H1)
          as [<- Hs]. split; [exact Hs|]. now rewrite H2.
      * destruct Hst as (H1 & _). rewrite H1 in Hsp.
        symmetry in Hsp. apply app_eq_nil in Hsp as [_ Hsp]. discriminate.
    + (* WkRecv *)
      destruct Hrel as (_ & [(u & rest & _ & -> & ->)|(_ & -> & -> & _)]);
        now apply once_quiet with (t := WkRecv).
    + (* WkExec *)
      destruct Hrel as (_ & -> & e & ->).
      now apply once_quiet with (t := WkExec u).
  - exists d. split; [exact Hp'|]. now rewrite Hpool', Htl.
  - exists d. rewrite Hsh. split; [exact Hp|]. rewrite Hpool', Htl.
    assert (Hij : i <> j) by (intros ->; congruence).
    apply once_quiet with (t := UpdRecv r); try done.
    + now rewrite list_lookup_insert_ne.
    + now apply once_quiet with (t := WkSend r e).
Qed.

Lemma once_run (p : nat) (sched : list nat) : forall c,
  once_inv p c -> once_inv p (crun p sched c).
Proof.
  induction sched as [|i rest IH]; intros c Hinv; [exact Hinv|].
  simpl. destruct (cstep p i c) as [c'|] eqn:E.
  - apply IH. now apply once_step with (i := i) (c := c).
  - now apply IH.
Qed.

Lemma entries_outside callers :
  Forall (fun t => is_entry t = true) callers ->
  stages callers = [] /\ ~ In ClsDone callers.
Proof.
  induction 1 as [|t cs Ht _ [IH1 IH2]]; [split; [reflexivity|intros []]|].
  split.
  - unfold stages in *. simpl. rewrite IH1. destruct t; simpl in *; congruence.
  - intros [->|Hin]; [discriminate|contradiction].
Qed.

Lemma once_start (p : nat) (s : state) (d : DB) (callers : list thread) :
  heap s !! p = Some d -> closeOnce d = OnceFresh ->
  Forall (fun t => is_entry t = true) callers ->
  once_inv p (start s callers).
Proof.
  intros Hp Ho Hc. exists d. split; [exact Hp|]. rewrite Ho. simpl.
  destruct (entries_outside callers Hc) as [H1 H2].
  split; [exact H1|]. split; [reflexivity|].
  intros [Hin|Hin]; [discriminate|contradiction].
Qed.

(** *** Close waits for the worker *)

Lemma step_rel_caller_drain (tw t : thread) d n t' d' n' :
  is_worker t = false -> step_rel t d n t' d' n' -> drain_state tw d ->
  drain_state tw d' /\ (In TDrained (tsteps_of t) -> left_loop tw = true).
Proof.
  unfold drain_state. intros Hk Hrel Hd.
  destruct t; simpl in Hk; try discriminate; simpl in Hrel; try contradiction;
    simpl tsteps_of.
  - destruct Hrel as (-> & _). split; [exact Hd|intros []].
  - destruct Hrel as (_ & _ & -> & Hopen). simpl.
    destruct (left_loop tw).
    + destruct Hd as (_ & _ & Hc). congruence.
    + split; [exact Hd|intros []].
  - destruct Hrel as (_ & [(_ & _ & ->)|(_ & _ & ->)]); simpl;
      (split; [exact Hd|intros []]).
  - destruct Hrel as (_ & _ & ->). simpl. split; [exact Hd|].
    intros [Hx|[]]. discriminate.
  - destruct Hrel as (_ & _ & -> & Hopen). simpl.
    destruct (left_loop tw).
    + destruct Hd as (_ & _ & Hc). congruence.
    + split; [exact Hd|]. intros [Hx|[]]. discriminate.
  - destruct Hrel as (_ & _ & -> & Hwg). split; [exact Hd|].
    intros _. destruct (left_loop tw); [reflexivity|lia].
  - destruct Hrel as (_ & _ & ->). simpl. split; [exact Hd|].
    intros [Hx|[]]. discriminate.
Qed.

Lemma step_rel_worker_drain t d n t' d' n' :
  is_worker t = true -> step_rel t d n t' d' n' -> drain_state t d ->
  drain_state t' d' /\ left_loop t = false /\ tsteps_of t = [].
Proof.
  unfold drain_state. intros Hk Hrel Hd.
  destruct t; simpl in Hk; try discriminate; simpl in Hrel; try contradiction;
    simpl in Hd.
  - destruct Hrel as (_ & [(u & rest & _ & -> & ->)|(Hb & -> & -> & Hc & _)]);
      simpl.
    + now repeat split.
    + repeat split; try assumption. lia.
  - destruct Hrel as (_ & -> & e & ->). now repeat split.
Qed.

Lemma drain_step (p i : nat) (c c' : cstate) :
  drain_inv p c -> cstep p i c = Some c' -> drain_inv p c'.
Proof.
  intros (d & tw & cs & Hp & Hpool & Hw & Hcs & Hd & Hdr) H.
  destruct (cstep_inv p i c c' d Hp H)
    as [(t & t' & d' & Ht & Hp' & Hrel & Hpool' & _ & _ & Htl & _)
       |[(msg & _ & Hpool' & Hp' & _ & _ & _ & Htl)
        |(r & e & j & Ht & Hj & Hpool' & Hsh & _ & _ & Htl & _)]].
  - rewrite Hpool in Ht, Hpool'. destruct i as [|k].
    + injection Ht as <-.
      destruct (step_rel_worker _ _ _ _ _ _ Hw Hrel) as (Hw' & _).
      destruct (step_rel_worker_drain _ _ _ _ _ _ Hw Hrel Hd) as (Hd' & Hnl & Hts).
      exists d', t', cs. split; [exact Hp'|]. split; [exact Hpool'|].
      split; [exact Hw'|]. split; [exact Hcs|]. split; [exact Hd'|].
      rewrite Htl, Hts, app_nil_r. intros Hin. specialize (Hdr Hin). congruence.
    + simpl in Ht, Hpool'.
      assert (Hk : is_worker t = false)
        by (rewrite Forall_lookup in Hcs; now apply (Hcs k)).
      destruct (step_rel_caller _ _ _ _ _ _ Hk Hrel) as (Hk' & _).
      destruct (step_rel_caller_drain tw _ _ _ _ _ _ Hk Hrel Hd) as (Hd' & Hts).
      exists d', tw, (<[k := t']> cs). split; [exact Hp'|].
      split; [exact Hpool'|]. split; [exact Hw|].
      split; [now apply Forall_insert|]. split; [exact Hd'|].
      rewrite Htl. intros Hin. apply in_app_iff in Hin as [Hin|Hin]; auto.
  - exists d, tw, cs. rewrite Hpool', Htl. now repeat split.
  - rewrite Hpool in Ht, Hj, Hpool'. destruct i as [|k].
    + injection Ht as ->. destruct j as [|k]; [discriminate|].
      simpl in Hj, Hpool'.
      exists d, WkRecv, (<[k := UpdDone e]> cs). rewrite Hsh, Htl.
      split; [exact Hp|]. split; [exact Hpool'|]. split; [reflexivity|].
      split; [now apply Forall_insert|]. split; [exact Hd|exact Hdr].
    + simpl in Ht. rewrite Forall_lookup in Hcs.
      specialize (Hcs k _ Ht). discriminate.
Qed.

Lemma drain_run (p : nat) (sched : list nat) : forall c,
  drain_inv p c -> drain_inv p (crun p sched c).
Proof.
  induction sched as [|i rest IH]; intros c Hinv; [exact Hinv|].
  simpl. destruct (cstep p i c) as [c'|] eqn:E.
  - apply IH. now apply drain_step with (i := i) (c := c).
  - now apply IH.
Qed.

Lemma drain_start (p : nat) (s : state) (d : DB) (callers : list thread) :
  heap s !! p = Some d -> wg d = 1 ->
  Forall (fun t => is_entry t = true) callers ->
  drain_inv p (start s callers).
Proof.
  intros Hp Hwg Hc. exists d, WkRecv, callers. simpl.
  split; [exact Hp|]. split; [reflexivity|]. split; [reflexivity|].
  split; [eapply Forall_impl; [exact Hc|apply is_entry_not_worker]|].
  split; [exact Hwg|]. intros [].
Qed.

(** Once the teardown is past its wait, every request that entered the
    queue has been executed, and none is in flight or waiting. *)
Lemma drained_all_executed (p : nat) (s : state) (d : DB)
    (callers : list thread) (sched : list nat) :
  heap s !! p = Some d -> wg d = 1 -> buf (uOps d) = [] ->
  Forall (fun t => is_entry t = true) callers ->
  let c := crun p sched (start s callers) in
  In TDrained (tlog c) ->
  enqueued c = executed c /\ pool c !! 0%nat = Some WkDone.
Proof.
  intros Hp Hwg Hb Hc c Hin.
  destruct (drain_run p sched _ (drain_start p s d callers Hp Hwg Hc))
    as (d1 & tw & cs & Hp1 & Hpool & _ & _ & Hd & Hdr).
  destruct (fifo_run p sched _ (fifo_start p s d callers Hp Hb Hc))
    as (d2 & tw2 & cs2 & Hp2 & Hpool2 & _ & _ & Henq & _).
  fold c in Hp1, Hpool, Hdr, Hp2, Hpool2, Henq.
  rewrite Hpool in Hpool2. injection Hpool2 as <- <-.
  assert (d2 = d1) by congruence. subst d2.
  specialize (Hdr Hin). unfold drain_state in Hd. rewrite Hdr in Hd.
  destruct Hd as (_ & Hbuf & _).
  destruct tw; simpl in Hdr; try discriminate.
  rewrite Henq, Hbuf. simpl. rewrite app_nil_r.
  split; [reflexivity|]. now rewrite Hpool.
Qed.

(** C5. Close is idempotent.  One caller after another: once a Close
    has returned, a further Close returns at once in the same state, the
    [DB], the engine and the log untouched.  Callers in any interleaving,
    with any number of concurrent Close and Update: the teardown steps
    taken so far are always an initial part of the sequence mark closed,
    stop the queue, worker drained, environment closed, each step taken at
    most once and in that order; at most one goroutine is inside the
    teardown; and when some Close has returned the whole sequence has been
    taken, exactly once.  On a [DB] as New leaves it (WaitGroup at 1, queue
    empty) the wait is a real one: once the teardown is past it, every
    request that entered the queue has been executed and the worker has
    left its loop. *)
Theorem Close_exactly_once (p : nat) (s : state) (d : DB) :
  heap s !! p = Some d -> closeOnce d = OnceFresh ->
  (forall s1, Close p s = Returned tt s1 -> Close p s1 = Returned tt s1) /\
  (forall (callers : list thread) (sched : list nat),
     Forall (fun t => is_entry t = true) callers ->
     let c := crun p sched (start s callers) in
     (exists k, tlog c = take k teardown_seq) /\
     (length (stages (pool c)) <= 1)%nat /\
     (In ClsDone (pool c) -> tlog c = teardown_seq) /\
     (wg d = 1 -> buf (uOps d) = [] -> In TDrained (tlog c) ->
      enqueued c = executed c /\ pool c !! 0%nat = Some WkDone)).
Proof.
  intros Hp Ho. split.
  - intros s1 Hc. apply Close_twice with (s := s) (d := d); [done| |done].
    rewrite Ho. discriminate.
  - intros callers sched Hc c.
    assert (Hdrain : wg d = 1 -> buf (uOps d) = [] -> In TDrained (tlog c) ->
              enqueued c = executed c /\ pool c !! 0%nat = Some WkDone).
    { intros Hwg Hb. exact (drained_all_executed p s d callers sched Hp Hwg Hb Hc). }
    destruct (once_run p sched _ (once_start p s d callers Hp Ho Hc))
      as (d' & _ & Hst).
    fold c in Hst. destruct (closeOnce d'); simpl in Hst.
    + destruct Hst as (H1 & H2 & H3). rewrite H1, H2.
      split; [now exists 0%nat|]. split; [simpl; lia|].
      split; [intros Hin; contradiction|].
      intros _ _ Hin. destruct Hin.
    + destruct Hst as (k & H1 & H2 & H3). rewrite H1.
      split; [now exists k|]. split; [simpl; lia|].
      split; [intros Hin; contradiction|exact Hdrain].
    + destruct Hst as (H1 & H2). rewrite H1.
      split; [exists 4%nat; exact H2|]. split; [simpl; lia|].
      split; [intros _; exact H2|exact Hdrain].
Qed.

(** The Close of the earlier revision has no guard: called on a [DB]
    whose queue is already closed, it panics. *)
Lemma WrapGo_Close_again_panics (p : nat) (s : state) (d : DB) :
  heap s !! p = Some d -> is_closed (uOps d) = true ->
  WrapGo.Close p s = Panicked "close of closed channel" s.
Proof.
  intros Hp Hc. unfold WrapGo.Close, close_uOps.
  rewrite (bind_bind_returned _ _ _ _ _ _ (deref_returned _ _ _ Hp)).
  now rewrite Hc.
Qed.

(** ** One caller alone in the interleaved model *)

(** A lone Update on a [DB] at rest, step by step: load, send, receive by
    the worker, transaction, hand-over.  The caller returns what
    [env.UpdateLocked] returned, and the [DB], the engine and the log end
    as they do after [Update] run by one caller ([Update_at_rest]): the
    two models agree. *)
Lemma solo_Update (p : nat) (s : state) (d : DB) (o : TxnOp) :
  heap s !! p = Some d -> at_rest d ->
  let r := env_UpdateLocked (env d) o (eng s) in
  let u := mkUpdateOp o (nchan s) in
  crun p [1; 1; 0; 0; 0]%nat (start s [UpdLoad o]) =
    mkC (mkState (heap s) (workers s) (mail s) (S (nchan s)) (snd r)
                 (log s ++ [EvUpdateLocked (env d) (fst r)]))
        [WkRecv; UpdDone (fst r)] [u] [u] [] None.
Proof.
  intros Hp Hrest.
  pose proof (at_rest_not_full d Hrest) as Hnf.
  destruct Hrest as (Hcl & Hb & Hopen & Hcap).
  cbv zeta. unfold start.
  set (u := mkUpdateOp o (nchan s)).
  (* load *)
  assert (E1 : cstep p 1 (mkC s [WkRecv; UpdLoad o] [] [] [] None) =
               Some (mkC s [WkRecv; UpdSend o] [] [] [] None)).
  { unfold cstep. cbn [dead pool].
    change ([WkRecv; UpdLoad o] !! 1%nat) with (Some (UpdLoad o)).
    cbn [thread_step shared].
    rewrite (bind_returned _ _ _ _ _ (load_closed_returned _ _ _ Hp)).
    rewrite Hcl. reflexivity. }
  (* send *)
  set (s1 := set_nchan S s).
  assert (Hp1 : heap s1 !! p = Some d) by exact Hp.
  pose proof (lookup_update_db p (set_uOps (enqueue u)) s1 d Hp1) as Hp2.
  pose proof (heap_update_db p (set_uOps (enqueue u)) s1 d Hp1) as Hh2.
  set (s2 := update_db p (set_uOps (enqueue u)) s1) in *.
  assert (E2 : cstep p 1 (mkC s [WkRecv; UpdSend o] [] [] [] None) =
               Some (mkC s2 [WkRecv; UpdRecv (nchan s)] [u] [] [] None)).
  { unfold cstep. cbn [dead pool].
    change ([WkRecv; UpdSend o] !! 1%nat) with (Some (UpdSend o)).
    cbn [thread_step shared].
    rewrite (bind_returned _ _ _ _ _ (make_res_returned s)).
    rewrite (bind_returned _ _ _ _ _ (try_send_returned p u s1 d Hp1 Hopen Hnf)).
    reflexivity. }
  (* the worker receives *)
  set (d2 := set_uOps (enqueue u) d) in *.
  assert (Hb2 : buf (uOps d2) = [u]) by (simpl; now rewrite Hb).
  pose proof (lookup_update_db p
    (set_uOps (fun c => mkChan [] (cap c) (is_closed c))) s2 d2 Hp2) as Hp3.
  pose proof (heap_update_db p
    (set_uOps (fun c => mkChan [] (cap c) (is_closed c))) s2 d2 Hp2) as Hh3.
  set (s3 := update_db p (set_uOps (fun c => mkChan [] (cap c) (is_closed c))) s2) in *.
  assert (E3 : cstep p 0 (mkC s2 [WkRecv; UpdRecv (nchan s)] [u] [] [] None) =
               Some (mkC s3 [WkExec u; UpdRecv (nchan s)] [u] [] [] None)).
  { unfold cstep. cbn [dead pool].
    change ([WkRecv; UpdRecv (nchan s)] !! 0%nat) with (Some (@WkRecv Txn world)).
    cbn [thread_step shared].
    rewrite (bind_returned _ _ _ _ _ (deref_returned _ _ _ Hp2)).
    rewrite Hb2.
    rewrite (bind_returned _ _ _ _ _ (store_returned _ _ _ _ Hp2)).
    reflexivity. }
  (* the transaction *)
  unfold d2 in Hp3. rewrite (drained_at_rest u d Hb) in Hp3.
  destruct (env_UpdateLocked (env d) o (eng s)) as [e w'] eqn:Er.
  set (s4 := mkState (heap s3) (workers s3) (mail s3) (nchan s3) w'
                     (log s3 ++ [EvUpdateLocked (env d) e])).
  assert (E4 : cstep p 0 (mkC s3 [WkExec u; UpdRecv (nchan s)] [u] [] [] None) =
               Some (mkC s4 [WkSend (nchan s) e; UpdRecv (nchan s)] [u] [u] [] None)).
  { unfold cstep. cbn [dead pool].
    change ([WkExec u; UpdRecv (nchan s)] !! 0%nat) with (Some (WkExec u)).
    cbn [thread_step shared].
    rewrite (bind_returned _ _ _ _ _ (deref_returned _ _ _ Hp3)).
    unfold EnvUpdateLocked, call, bind, ret.
    change (eng s3) with (eng s). change (op u) with o. rewrite Er.
    reflexivity. }
  (* the hand-over *)
  assert (E5 : cstep p 0
                 (mkC s4 [WkSend (nchan s) e; UpdRecv (nchan s)] [u] [u] [] None) =
               Some (mkC s4 [WkRecv; UpdDone e] [u] [u] [] None)).
  { unfold cstep. cbn [dead pool].
    change ([WkSend (nchan s) e; UpdRecv (nchan s)] !! 0%nat)
      with (Some (@WkSend Txn world (nchan s) e)).
    cbn [find_index is_recv]. rewrite Nat.eqb_refl. reflexivity. }
  simpl crun. rewrite E1, E2, E3, E4, E5. cbn [fst snd].
  f_equal. unfold s4. f_equal.
  rewrite Hh3, Hh2. rewrite list_insert_insert_eq.
  unfold d2. rewrite (drained_at_rest u d Hb). now apply list_insert_id.
Qed.

(** ** New: what it returns and what it leaves *)

Lemma open_dbis_dom e names : forall m s m' s',
  open_dbis e names m s = Returned (inr m') s' ->
  dom m' = dom m ∪ list_to_set names.
Proof.
  induction names as [|name rest IH]; intros m s m' s' H.
  - injection H as <- _. simpl. now rewrite (right_id_L ∅ (∪)).
  - simpl open_dbis in H. unfold EnvUpdate in H.
    destruct (call_returns (env_Update e None (create_dbi name))
                (fun r => EvUpdate e name (snd r)) s)
      as ([a err] & s1 & Hc & _ & Hr & _).
    rewrite (bind_returned _ _ _ _ _ Hc) in H. cbn [fst snd] in H.
    destruct err as [err|].
    + unfold EnvClose in H.
      destruct (call_returns (env_Close e) (EvClose e) s1) as (cerr & s2 & Hc2 & _).
      rewrite (bind_returned _ _ _ _ _ Hc2) in H. discriminate.
    + symmetry in Hr. apply create_dbi_assigned in Hr as [dbi ->].
      apply IH in H. rewrite H, dom_insert_L. simpl.
      rewrite (comm_L (∪) {[name]} (dom m)). now rewrite <- (assoc_L (∪)).
Qed.

(** A New that returned a [DB]: every call before the second loop
    succeeded, the second loop registered every name, and the object is
    the one allocated at the end. *)
Lemma New_ok_inv dirPath dbNames s p n s' :
  New dirPath dbNames s = Returned (Some p, n, None) s' ->
  exists e m s6 s7,
    open_dbis e dbNames ∅ s6 = Returned (inr m) s7 /\
    p = length (heap s) /\
    heap s' = heap s ++ [mkDB e m (make_chan uOpsCap) 1 OnceFresh 0].
Proof.
  unfold New. destruct (unique_names ∅ dbNames); [discriminate|].
  unfold MkdirAll.
  destruct (call_returns (os_MkdirAll dirPath mode_0755)
              (@EvMkdirAll Env dirPath mode_0755) s)
    as (e1 & s1 & Hc1 & (Hh1 & _) & _).
  rewrite (bind_returned _ _ _ _ _ Hc1). destruct e1; [discriminate|].
  unfold NewEnv.
  destruct (call_returns lmdb_NewEnv (@EvNewEnv Env) s1)
    as (r2 & s2 & Hc2 & (Hh2 & _) & _).
  rewrite (bind_returned _ _ _ _ _ Hc2). destruct r2 as [err|e]; [discriminate|].
  unfold SetMaxDBs.
  destruct (call_returns (env_SetMaxDBs e (Z.of_nat (length dbNames)))
              (EvSetMaxDBs e (Z.of_nat (length dbNames))) s2)
    as (e3 & s3 & Hc3 & (Hh3 & _) & _).
  rewrite (bind_returned _ _ _ _ _ Hc3). destruct e3; [discriminate|].
  unfold SetMapSize.
  destruct (call_returns (env_SetMapSize e MapSize) (EvSetMapSize e MapSize) s3)
    as (e4 & s4 & Hc4 & (Hh4 & _) & _).
  rewrite (bind_returned _ _ _ _ _ Hc4). destruct e4; [discriminate|].
  unfold Open.
  destruct (call_returns (env_Open e dirPath 0 mode_0644)
              (EvOpen e dirPath 0 mode_0644) s4)
    as (e5 & s5 & Hc5 & (Hh5 & _) & _).
  rewrite (bind_returned _ _ _ _ _ Hc5). destruct e5; [discriminate|].
  unfold ReaderCheck.
  destruct (call_returns (env_ReaderCheck e)
              (fun r => EvReaderCheck e (fst r) (snd r)) s5)
    as ([k rerr] & s6 & Hc6 & (Hh6 & _) & _).
  rewrite (bind_returned _ _ _ _ _ Hc6). cbn [fst snd].
  destruct rerr.
  { unfold EnvClose.
    destruct (call_returns (env_Close e) (EvClose e) s6) as (cerr & s7 & Hc7 & _).
    rewrite (bind_returned _ _ _ _ _ Hc7). discriminate. }
  destruct (open_dbis_runs e dbNames ∅ s6) as (r & s7 & Hrun & (Hh7 & _) & _).
  rewrite (bind_returned _ _ _ _ _ Hrun).
  destruct r as [err|m]; [discriminate|].
  rewrite New_tail by reflexivity. intros [= <- <- <-].
  exists e, m, s6, s7. split; [exact Hrun|].
  assert (Hh : heap s7 = heap s) by congruence.
  cbn [heap]. rewrite Hh. now split.
Qed.


(** X1.  What New returns is a [DB] with a nil error or a nil [DB]
    with an error, never both and never neither.  With a [DB], exactly one
    object was allocated, behind the pointer returned, and one worker
    started, for it; with an error, no object was allocated and no worker
    started.  Objects that existed before are untouched either way, and no
    result channel was made. *)
Theorem New_db_or_error dirPath dbNames s r s' :
  New dirPath dbNames s = Returned r s' ->
  mail s' = mail s /\ nchan s' = nchan s /\
  ((exists p n d, r = (Some p, n, None) /\ p = length (heap s) /\
      heap s' = heap s ++ [d] /\ workers s' = workers s ++ [p]) \/
   (exists n err, r = (None, n, Some err) /\
      heap s' = heap s /\ workers s' = workers s)).
Proof.
  intros H.
  destruct (New_runs dirPath dbNames s) as (r0 & s0 & evs & Hrun & _ & HR & Hobj).
  rewrite H in Hrun. injection Hrun as <- <-.
  destruct Hobj as (Hm & Hn & Hobj). split; [exact Hm|]. split; [exact Hn|].
  destruct HR as [Hd|err|err|e err|e err|e err|e n err cerr
                 |e n opened name rest err cerr Hnames|e n p Hnd];
    cbn [fst] in Hobj;
    try (right; eexists _, _; split; [reflexivity|exact Hobj]).
  left. destruct Hobj as (-> & Hw & e0 & m & _ & Hh & _).
  eexists _, n, _. split; [reflexivity|]. split; [reflexivity|].
  split; [exact Hh|exact Hw].
Qed.

(** X2.  After a New that returned a [DB], the registry holds exactly
    the names given: GetDBis returns a map whose keys are the names of
    [dbNames] and no other.  A call with a key that is not empty passes
    [validateArgs] exactly when its name is one of [dbNames] and is not the
    empty string: a database registered under the empty name is never
    reached through Read, Write or Delete. *)
Theorem New_registers_names dirPath dbNames s p n s' :
  New dirPath dbNames s = Returned (Some p, n, None) s' ->
  exists d,
    heap s' !! p = Some d /\
    GetDBis p s' = Returned (dbs d) s' /\
    dom (dbs d) = list_to_set dbNames /\
    (forall (name : string) (key : bytes), ~ empty_key key ->
       (exists dbi, validateArgs p name key s' = Returned (dbi, None) s') <->
       name ∈ dbNames /\ name <> "").
Proof.
  intros H. destruct (New_ok_inv _ _ _ _ _ _ H) as (e & m & s6 & s7 & Ho & -> & Hh).
  apply open_dbis_dom in Ho. rewrite dom_empty_L, (left_id_L ∅ (∪)) in Ho.
  assert (Hp : heap s' !! length (heap s) =
               Some (mkDB e m (make_chan uOpsCap) 1 OnceFresh 0))
    by (rewrite Hh; now apply list_lookup_middle).
  eexists. split; [exact Hp|]. split.
  { unfold GetDBis. now rewrite (bind_returned _ _ _ _ _ (deref_returned _ _ _ Hp)). }
  split; [exact Ho|].
  intros name key Hk. cbn [dbs] in *.
  destruct (decide (name = "")) as [->|Hne].
  { split; [intros [dbi E]; discriminate|intros [_ Hx]; now destruct Hx]. }
  rewrite (validateArgs_lookup _ name key s' _ Hp Hne Hk). cbn [dbs].
  assert (Hin : name ∈ dbNames <-> is_Some (m !! name)).
  { rewrite <- elem_of_dom, Ho. now rewrite elem_of_list_to_set. }
  split.
  - intros [dbi E]. split; [|exact Hne]. apply Hin.
    destruct (m !! name); [eauto|discriminate].
  - intros [Hn _]. apply Hin in Hn as [dbi ->]. eauto.
Qed.

(** X3.  A New that returned a [DB] made these calls and no other, in
    this order: MkdirAll(dirPath, 0755), NewEnv, SetMaxDBs(len(dbNames)),
    SetMapSize(MapSize), Open(dirPath, 0, 0644), ReaderCheck, then one
    create-or-open transaction for each name, in the order of [dbNames];
    every one of them succeeded, and the environment was not closed.  The
    count returned is the one ReaderCheck gave, the environment of the
    [DB] the one NewEnv gave, and the names are distinct. *)
Theorem New_success_calls dirPath dbNames s p n s' evs :
  New dirPath dbNames s = Returned (Some p, n, None) s' ->
  log s' = log s ++ evs ->
  NoDup dbNames /\
  exists d,
    heap s' !! p = Some d /\
    evs = [EvMkdirAll dirPath mode_0755 None; EvNewEnv (inr (env d));
           EvSetMaxDBs (env d) (Z.of_nat (length dbNames)) None;
           EvSetMapSize (env d) MapSize None;
           EvOpen (env d) dirPath 0 mode_0644 None;
           EvReaderCheck (env d) n None] ++
          map (fun name => EvUpdate (env d) name None) dbNames.
Proof.
  intros Hrun Hlog.
  destruct (New_runs dirPath dbNames s) as (r0 & s0 & evs0 & Hrun0 & Hlog0 & HR & Hobj).
  destruct (New_deterministic _ _ _ _ _ _ _ _ _ Hrun Hlog Hrun0 Hlog0)
    as (-> & -> & ->).
  destruct Hobj as (_ & _ & Hobj). cbn [fst] in Hobj.
  destruct Hobj as (-> & _ & e0 & m & Hin & Hh & _).
  remember (Some (length (heap s)), n, @None error) as r eqn:Er.
  destruct HR as [Hd|err|err|e err|e err|e err|e k err cerr
                 |e k opened name rest err cerr Hnames|e k p Hnd];
    try discriminate.
  injection Er as -> ->. split; [exact Hnd|].
  split_in Hin; try discriminate. injection Hin as ->.
  eexists. split; [rewrite Hh; now apply list_lookup_middle|]. reflexivity.
Qed.

(** X4.  When [ReaderCheck] fails with [err], New calls [env.Close()]
    right after it and nothing else, and returns a nil [*DB], [err], and 0
    as the count, whatever count came with the failure; no [DB] was
    allocated and no worker started. *)
Theorem New_reader_check_failure dirPath dbNames s r s' evs e n err :
  New dirPath dbNames s = Returned r s' ->
  log s' = log s ++ evs ->
  In (EvReaderCheck e n (Some err)) evs ->
  exists pre cerr,
    evs = pre ++ [EvReaderCheck e n (Some err); EvClose e cerr] /\
    In (EvOpen e dirPath 0 mode_0644 None) pre /\
    r = (None, 0, Some err) /\
    heap s' = heap s /\ workers s' = workers s.
Proof.
  intros Hrun Hlog Hin.
  destruct (New_runs dirPath dbNames s) as (r0 & s0 & evs0 & Hrun0 & Hlog0 & HR & Hobj).
  destruct (New_deterministic _ _ _ _ _ _ _ _ _ Hrun Hlog Hrun0 Hlog0)
    as (-> & -> & ->).
  destruct HR as [Hd|err0|err0|e0 err0|e0 err0|e0 err0|e0 k err0 cerr
                 |e0 k opened name0 rest err0 cerr Hnames|e0 k p Hnd];
    split_in Hin; try discriminate.
  injection Hin as -> -> ->.
  exists (config_events dirPath (Z.of_nat (length dbNames)) e), cerr.
  split; [reflexivity|]. split; [simpl; tauto|]. split; [reflexivity|].
  destruct Hobj as (_ & _ & Hh & Hw). now split.
Qed.

(** X5.  When [os.MkdirAll] or [lmdb.NewEnv] fails with [err], New
    returns a nil [*DB], 0 and [err] at once: the failed call is the last
    one, there is no environment, and no method of an environment was
    called. *)
Theorem New_early_failure dirPath dbNames s r s' evs err :
  New dirPath dbNames s = Returned r s' ->
  log s' = log s ++ evs ->
  In (EvMkdirAll dirPath mode_0755 (Some err)) evs \/ In (EvNewEnv (inl err)) evs ->
  r = (None, 0, Some err) /\
  (evs = [EvMkdirAll dirPath mode_0755 (Some err)] \/
   evs = [EvMkdirAll dirPath mode_0755 None; EvNewEnv (inl err)]) /\
  heap s' = heap s /\ workers s' = workers s.
Proof.
  intros Hrun Hlog Hin.
  destruct (New_runs dirPath dbNames s) as (r0 & s0 & evs0 & Hrun0 & Hlog0 & HR & Hobj).
  destruct (New_deterministic _ _ _ _ _ _ _ _ _ Hrun Hlog Hrun0 Hlog0)
    as (-> & -> & ->).
  destruct Hin as [Hin|Hin];
    (destruct HR as [Hd|err0|err0|e0 err0|e0 err0|e0 err0|e0 k err0 cerr
                    |e0 k opened name0 rest err0 cerr Hnames|e0 k p Hnd];
     split_in Hin; try discriminate; injection Hin as ->;
     (split; [reflexivity|]); (split; [auto|]);
     destruct Hobj as (_ & _ & Hh & Hw); now split).
Qed.

(** ** Reads go straight to the engine *)

(** X6.  Read and View do not go through the queue.  On a [DB] that
    is not closed, a Read or a View that returns has left every Go object
    as it was (the queue, the WaitGroup, the result channels, the worker):
    it has enqueued nothing and waited for nothing.  A View has made one
    call, an [env.View] on the environment of the [DB], and returns its
    error.  A Read has made that one call and returns what it returned,
    or, when its arguments are refused, has made no call at all and
    returns a nil value with the error. *)
Theorem reads_bypass_queue (p : nat) (s : state) (d : DB)
    (dbName : string) (key : bytes) (o : TxnOp) :
  heap s !! p = Some d -> closed d = 0 ->
  (forall r s', Read p dbName key s = Returned r s' ->
     same_go s s' /\
     ((s' = s /\ fst r = None /\ snd r <> None) \/
      (exists dbi,
         validateArgs p dbName key s = Returned (dbi, None) s /\
         env_View (env d) None (fun txn => txn_Get txn dbi key) (eng s) =
           (r, eng s') /\
         log s' = log s ++ [EvView (env d) (snd r)]))) /\
  (forall e s', View p o s = Returned e s' ->
     same_go s s' /\
     (exists v, env_View (env d) tt (body_of o) (eng s) = ((v, e), eng s')) /\
     log s' = log s ++ [EvView (env d) e]).
Proof.
  intros Hp Hc. split.
  - intros r s' H.
    destruct (validateArgs_returns p dbName key s d Hp) as (dbi & e & Hv & _).
    unfold Read in H. rewrite (bind_returned _ _ _ _ _ Hv) in H. cbn [fst snd] in H.
    destruct e as [err|].
    + injection H as <- <-. split; [apply same_go_refl|].
      left. split; [reflexivity|]. split; [reflexivity|discriminate].
    + rewrite (bind_returned _ _ _ _ _ (deref_returned _ _ _ Hp)) in H.
      unfold EnvView in H.
      destruct (call_returns (env_View (env d) None (fun txn => txn_Get txn dbi key))
                  (fun r => EvView (env d) (snd r)) s)
        as (r0 & s0 & Hc0 & Hgo & Heng & Hlog).
      rewrite Hc0 in H. injection H as <- <-.
      split; [exact Hgo|]. right. exists dbi. split; [exact Hv|].
      split; [symmetry; exact Heng|exact Hlog].
  - intros e s' H. unfold View in H.
    rewrite (bind_returned _ _ _ _ _ (load_closed_returned _ _ _ Hp)) in H.
    rewrite Hc in H. cbn [Z.eqb negb] in H.
    rewrite (bind_returned _ _ _ _ _ (deref_returned _ _ _ Hp)) in H.
    unfold EnvView in H.
    destruct (call_returns (env_View (env d) tt (body_of o))
                (fun r => EvView (env d) (snd r)) s)
      as (r0 & s0 & Hc0 & Hgo & Heng & Hlog).
    rewrite (bind_returned _ _ _ _ _ Hc0) in H. injection H as <- <-.
    split; [exact Hgo|]. split; [|exact Hlog].
    exists (fst r0). rewrite <- surjective_pairing. symmetry. exact Heng.
Qed.

(** X7.  Write is synchronous.  On a [DB] at rest, Write with valid
    arguments returns only when its transaction has run, with the result
    of [env.UpdateLocked] on the one-step operation [txn.Put(dbi, key,
    value, 0)]; a Read of the same key that follows runs its
    [env.View] of [txn.Get(dbi, key)] on the engine exactly as that
    transaction left it.  The two calls reach the engine as these two
    calls and nothing else, and leave the Go objects as they were. *)
Theorem Write_then_Read (p : nat) (s : state) (d : DB) (dbName : string)
    (key value : bytes) (dbi : DBI) :
  heap s !! p = Some d -> at_rest d -> workers s = [p] -> mail s = ∅ ->
  dbName <> "" -> ~ empty_key key -> dbs d !! dbName = Some dbi ->
  exists e1 w1 r2 w2 s1 s2,
    env_UpdateLocked (env d) (fun txn => txn_Put txn dbi key value 0) (eng s) =
      (e1, w1) /\
    env_View (env d) None (fun txn => txn_Get txn dbi key) w1 = (r2, w2) /\
    Write p dbName key value s = Returned e1 s1 /\
    Read p dbName key s1 = Returned r2 s2 /\
    eng s1 = w1 /\ eng s2 = w2 /\
    heap s2 = heap s /\ workers s2 = workers s /\ mail s2 = mail s /\
    log s2 = log s ++ [EvUpdateLocked (env d) e1; EvView (env d) (snd r2)].
Proof.
  intros Hp Hrest Hw Hm Hn Hk Hl.
  destruct (env_UpdateLocked (env d) (fun txn => txn_Put txn dbi key value 0) (eng s))
    as [e1 w1] eqn:E1.
  destruct (env_View (env d) None (fun txn => txn_Get txn dbi key) w1)
    as [r2 w2] eqn:E2.
  exists e1, w1, r2, w2.
  assert (HW : Write p dbName key value s =
    Returned e1 (mkState (heap s) (workers s) (mail s) (S (nchan s)) w1
                   (log s ++ [EvUpdateLocked (env d) e1]))).
  { unfold Write.
    rewrite (bind_returned _ _ _ _ _ (validateArgs_lookup p dbName key s d Hp Hn Hk)).
    rewrite Hl. cbn [fst snd].
    rewrite (Update_at_rest p s d _ Hp Hrest Hw Hm). now rewrite E1. }
  set (s1 := mkState (heap s) (workers s) (mail s) (S (nchan s)) w1
               (log s ++ [EvUpdateLocked (env d) e1])) in *.
  assert (Hp1 : heap s1 !! p = Some d) by exact Hp.
  exists s1.
  exists (mkState (heap s) (workers s) (mail s) (S (nchan s)) w2
            ((log s ++ [EvUpdateLocked (env d) e1]) ++ [EvView (env d) (snd r2)])).
  split; [first [exact E1|reflexivity]|]. split; [exact E2|]. split; [exact HW|].
  split.
  { unfold Read.
    rewrite (bind_returned _ _ _ _ _ (validateArgs_lookup p dbName key s1 d Hp1 Hn Hk)).
    rewrite Hl. cbn [fst snd].
    rewrite (bind_returned _ _ _ _ _ (deref_returned _ _ _ Hp1)).
    unfold EnvView, call. cbn [eng s1]. now rewrite E2. }
  cbn [eng heap workers mail log s1]. rewrite <- app_assoc. now repeat split.
Qed.

(** ** Close on a [DB] at rest *)

Lemma bind_ret_l {S A B} (a : A) (k : A -> prog S B) (s : S) :
  bind (ret a) k s = k a s.
Proof. reflexivity. Qed.

(** X8.  Close on a [DB] as New left it (open, queue empty, its worker
    parked, the WaitGroup at 1) returns: the flag is set, the queue closed,
    the worker leaves its loop and brings the WaitGroup to 0, and
    [env.Close()] is called once, as the last and only call; the error it
    returns is dropped.  The [DB] ends closed, its Once done, and no worker
    is left. *)
Theorem Close_at_rest (p : nat) (s : state) (d : DB) :
  heap s !! p = Some d -> at_rest d -> closeOnce d = OnceFresh ->
  wg d = 1 -> workers s = [p] ->
  Close p s =
    let r := env_Close (env d) (eng s) in
    Returned tt
      (mkState (<[p := closed_db d]> (heap s)) [] (mail s) (nchan s)
               (snd r) (log s ++ [EvClose (env d) (fst r)])).
Proof.
  intros Hp (Hcl & Hb & Hopen & Hcap) Ho Hwg Hw.
  assert (Hlt : (p < length (heap s))%nat) by now apply lookup_lt_Some in Hp.
  destruct d as [e m [b c k] w o cl]. simpl in Hcl, Hb, Hopen, Ho, Hwg. subst.
  unfold Close, closeOnce_Do.
  rewrite (bind_returned _ _ _ _ _ (deref_returned _ _ _ Hp)). cbn [closeOnce].
  rewrite (bind_returned _ _ _ _ _ (store_returned _ _ _ _ Hp)).
  pose proof (lookup_update_db p (set_closeOnce OnceRunning) s _ Hp) as Hp1.
  pose proof (heap_update_db p (set_closeOnce OnceRunning) s _ Hp) as Hh1.
  set (s1 := update_db p (set_closeOnce OnceRunning) s) in *.
  unfold set_closeOnce, set_closed, set_uOps, set_wg in Hp1, Hh1.
  cbn [env dbs uOps wg closeOnce closed buf cap is_closed] in Hp1, Hh1.
  unfold deferred, teardown, store_closed.
  rewrite (bind_returned _ _ _ _ _ (store_returned _ _ _ _ Hp1)).
  pose proof (lookup_update_db p (set_closed 1) s1 _ Hp1) as Hp2.
  pose proof (heap_update_db p (set_closed 1) s1 _ Hp1) as Hh2.
  set (s2 := update_db p (set_closed 1) s1) in *.
  unfold set_closeOnce, set_closed, set_uOps, set_wg in Hp2, Hh2.
  cbn [env dbs uOps wg closeOnce closed buf cap is_closed] in Hp2, Hh2.
  unfold close_uOps.
  rewrite (bind_bind_returned _ _ _ _ _ _ (deref_returned _ _ _ Hp2)).
  cbn [uOps is_closed].
  rewrite (bind_returned _ _ _ _ _ (store_returned _ _ _ _ Hp2)).
  pose proof (lookup_update_db p
    (set_uOps (fun c => mkChan (buf c) (cap c) true)) s2 _ Hp2) as Hp3.
  pose proof (heap_update_db p
    (set_uOps (fun c => mkChan (buf c) (cap c) true)) s2 _ Hp2) as Hh3.
  set (s3 := update_db p (set_uOps (fun c => mkChan (buf c) (cap c) true)) s2) in *.
  unfold set_closeOnce, set_closed, set_uOps, set_wg in Hp3, Hh3.
  cbn [env dbs uOps wg closeOnce closed buf cap is_closed] in Hp3, Hh3.
  (* the worker, woken by the wait *)
  assert (Hw3 : workers s3 = [p]) by exact Hw.
  pose proof (lookup_update_db p
    (set_uOps (fun c => mkChan [] (cap c) (is_closed c))) s3 _ Hp3) as Hp4.
  pose proof (heap_update_db p
    (set_uOps (fun c => mkChan [] (cap c) (is_closed c))) s3 _ Hp3) as Hh4.
  set (s4 := update_db p (set_uOps (fun c => mkChan [] (cap c) (is_closed c))) s3) in *.
  unfold set_closeOnce, set_closed, set_uOps, set_wg in Hp4, Hh4.
  cbn [env dbs uOps wg closeOnce closed buf cap is_closed] in Hp4, Hh4.
  pose proof (lookup_update_db p (set_wg (fun c => c + -1)) s4 _ Hp4) as Hp5.
  pose proof (heap_update_db p (set_wg (fun c => c + -1)) s4 _ Hp4) as Hh5.
  set (s5 := update_db p (set_wg (fun c => c + -1)) s4) in *.
  unfold set_closeOnce, set_closed, set_uOps, set_wg in Hp5, Hh5.
  cbn [env dbs uOps wg closeOnce closed buf cap is_closed] in Hp5, Hh5.
  assert (Hwk : worker p s3 =
    Returned tt (set_workers (List.filter (fun q => negb (Nat.eqb q p))) s5)).
  { unfold worker.
    rewrite (bind_returned _ _ _ _ _ (deref_returned _ _ _ Hp3)).
    rewrite (bind_returned _ _ _ _ _ (store_returned _ _ _ _ Hp3)).
    cbn [uOps buf is_closed worker_range]. fold s4. rewrite bind_ret_l.
    unfold wg_Done.
    assert (Hge : 0 <= 1 + -1) by lia.
    rewrite (bind_returned _ _ _ _ _ (wg_Add_returned _ _ _ _ Hp4 Hge)).
    reflexivity. }
  set (s6 := set_workers (List.filter (fun q => negb (Nat.eqb q p))) s5) in *.
  assert (Hp6 : heap s6 !! p = Some (mkDB e m (mkChan [] c true) 0 OnceRunning 1))
    by exact Hp5.
  unfold wg_Wait.
  rewrite (bind_bind_returned _ _ _ _ _ _ (yield_single p s3 _ Hw3 Hwk)).
  rewrite (bind_bind_returned _ _ _ _ _ _ (deref_returned _ _ _ Hp6)).
  cbn [wg]. change (0 =? 0) with true. cbv iota. rewrite bind_ret_l.
  rewrite (bind_returned _ _ _ _ _ (deref_returned _ _ _ Hp6)).
  unfold EnvClose, call, bind, ret. cbn [env eng].
  change (eng s6) with (eng s).
  destruct (env_Close e (eng s)) as [cerr w'].
  cbv zeta. cbn [fst snd]. f_equal.
  unfold update_db, set_heap, closed_db. cbn [heap workers mail nchan eng log].
  change (heap s6) with (heap s5). change (workers s6) with
    (List.filter (fun q => negb (Nat.eqb q p)) (workers s)).
  rewrite Hp5. cbn [set_closeOnce env dbs uOps wg closed cap].
  f_equal.
  - rewrite Hh5, Hh4, Hh3, Hh2, Hh1. now rewrite !list_insert_insert_eq.
  - rewrite Hw. simpl. now rewrite Nat.eqb_refl.
Qed.

(** ** The earlier revision (src/wrap/wrap.go) *)

Lemma shut_frame_refl d : shut_frame d d.
Proof. now repeat split. Qed.

Lemma shut_frame_trans d1 d2 d3 :
  shut_frame d1 d2 -> shut_frame d2 d3 -> shut_frame d1 d3.
Proof.
  intros (E1 & E2 & E3) (F1 & F2 & F3). repeat split; try congruence. auto.
Qed.

Lemma keeps_shut_same {A} (m : prog state A) :
  (forall s, heap (final (m s)) = heap s) -> keeps_shut m.
Proof.
  intros H s q d Hq. exists d. rewrite H. split; [exact Hq|apply shut_frame_refl].
Qed.

Lemma keeps_shut_bind {A B} (m : prog state A) (k : A -> prog state B) :
  keeps_shut m -> (forall a, keeps_shut (k a)) -> keeps_shut (bind m k).
Proof.
  intros Hm Hk s q d Hq. unfold bind. destruct (Hm s q d Hq) as (d1 & Hq1 & F1).
  destruct (m s) as [a s1|msg s1|s1]; simpl in *; eauto.
  destruct (Hk a s1 q d1 Hq1) as (d2 & Hq2 & F2).
  exists d2. split; [exact Hq2|]. eapply shut_frame_trans; eauto.
Qed.

Lemma keeps_shut_deref p : keeps_shut (deref p).
Proof.
  apply keeps_shut_same. intros s. unfold deref. now destruct (heap s !! p).
Qed.

Lemma keeps_shut_call {A} (f : world -> A * world) ev : keeps_shut (call f ev).
Proof.
  apply keeps_shut_same. intros s. unfold call. now destruct (f (eng s)).
Qed.

Lemma keeps_shut_store p f :
  (forall d, shut_frame d (f d)) -> keeps_shut (store p f).
Proof.
  intros Hf. unfold store. apply keeps_shut_bind; [apply keeps_shut_deref|].
  intros _ s q d Hq. simpl. unfold update_db, set_heap. simpl.
  destruct (heap s !! p) as [dp|] eqn:Hp.
  - destruct (decide (p = q)) as [->|Hne].
    + exists (f dp). split.
      * apply list_lookup_insert_eq. now apply lookup_lt_Some in Hp.
      * assert (dp = d) by congruence. subst. apply Hf.
    + exists d. split; [now rewrite list_lookup_insert_ne|apply shut_frame_refl].
  - exists d. split; [exact Hq|apply shut_frame_refl].
Qed.

Lemma keeps_shut_wg_Add p n : keeps_shut (wg_Add p n).
Proof.
  unfold wg_Add. apply keeps_shut_bind; [apply keeps_shut_deref|]. intros d.
  destruct (wg d + n <? 0); [now apply keeps_shut_same|].
  apply keeps_shut_store. intros d0. now repeat split.
Qed.

Lemma keeps_shut_worker_range p received : keeps_shut (worker_range p received).
Proof.
  induction received as [|u rest IH]; simpl; [now apply keeps_shut_same|].
  apply keeps_shut_bind; [apply keeps_shut_deref|]. intros d.
  apply keeps_shut_bind; [apply keeps_shut_call|]. intros r.
  apply keeps_shut_bind; [now apply keeps_shut_same|]. intros _. exact IH.
Qed.

Lemma keeps_shut_worker p : keeps_shut (worker p).
Proof.
  unfold worker. apply keeps_shut_bind; [apply keeps_shut_deref|]. intros d.
  apply keeps_shut_bind.
  { apply keeps_shut_store. intros d0. now repeat split. }
  intros _. apply keeps_shut_bind; [apply keeps_shut_worker_range|]. intros _.
  destruct (is_closed (uOps d)); [|now apply keeps_shut_same].
  apply keeps_shut_bind; [apply keeps_shut_wg_Add|]. intros _.
  now apply keeps_shut_same.
Qed.

Lemma keeps_shut_yield : keeps_shut yield.
Proof.
  unfold yield. apply keeps_shut_bind; [now apply keeps_shut_same|]. intros s.
  induction (workers s) as [|p ps IH]; simpl; [now apply keeps_shut_same|].
  apply keeps_shut_bind; [apply keeps_shut_worker|]. intros _. exact IH.
Qed.

(** The Close of the earlier revision after its first step. *)
Lemma keeps_shut_Close_rest p :
  keeps_shut (wg_Wait p;; d <- deref p;; _ <- EnvClose (env d);; ret tt).
Proof.
  apply keeps_shut_bind.
  { unfold wg_Wait. apply keeps_shut_bind; [apply keeps_shut_yield|]. intros _.
    apply keeps_shut_bind; [apply keeps_shut_deref|]. intros d.
    destruct (wg d =? 0); now apply keeps_shut_same. }
  intros _. apply keeps_shut_bind; [apply keeps_shut_deref|]. intros d.
  apply keeps_shut_bind; [apply keeps_shut_call|]. intros _.
  now apply keeps_shut_same.
Qed.

(** After a Close of the earlier revision that returned, the queue of
    the [DB] is closed; its environment and registry are as before. *)
Lemma WrapGo_Close_shuts (p : nat) (s s1 : state) (d : DB) :
  heap s !! p = Some d -> WrapGo.Close p s = Returned tt s1 ->
  exists d1, heap s1 !! p = Some d1 /\ is_closed (uOps d1) = true /\
    env d1 = env d /\ dbs d1 = dbs d.
Proof.
  intros Hp H. unfold WrapGo.Close, close_uOps in H.
  rewrite (bind_bind_returned _ _ _ _ _ _ (deref_returned _ _ _ Hp)) in H.
  destruct (is_closed (uOps d)) eqn:Hc; [discriminate|].
  rewrite (bind_returned _ _ _ _ _ (store_returned _ _ _ _ Hp)) in H.
  pose proof (lookup_update_db p
    (set_uOps (fun c => mkChan (buf c) (cap c) true)) s d Hp) as Hp1.
  destruct (keeps_shut_Close_rest p _ p _ Hp1) as (d1 & Hq & E1 & E2 & E3).
  rewrite H in Hq. simpl in Hq. exists d1. split; [exact Hq|].
  split; [now apply E3|]. now split.
Qed.

(** X13.  In the earlier revision Close has no guard: after a Close
    that returned, a second Close panics with "close of closed channel",
    before anything else is done.  (The later revision returns at once
    there.) *)
Theorem WrapGo_second_Close_panics (p : nat) (s s1 : state) (d : DB) :
  heap s !! p = Some d -> WrapGo.Close p s = Returned tt s1 ->
  WrapGo.Close p s1 = Panicked "close of closed channel" s1.
Proof.
  intros Hp H.
  destruct (WrapGo_Close_shuts p s s1 d Hp H) as (d1 & Hp1 & Hc & _).
  unfold WrapGo.Close, close_uOps.
  rewrite (bind_bind_returned _ _ _ _ _ _ (deref_returned _ _ _ Hp1)).
  now rewrite Hc.
Qed.

(** X14.  In the earlier revision nothing tells a closed [DB] from an
    open one: after a Close that returned, Write and Delete with valid
    arguments panic with "send on closed channel", the result channel
    being already made; with invalid arguments they still return the
    validation error. *)
Theorem WrapGo_write_after_Close_panics (p : nat) (s s1 : state) (d : DB)
    (dbName : string) (key value : bytes) (dbi : DBI) :
  heap s !! p = Some d -> WrapGo.Close p s = Returned tt s1 ->
  dbName <> "" -> ~ empty_key key -> dbs d !! dbName = Some dbi ->
  WrapGo.Write p dbName key value s1 =
    Panicked "send on closed channel" (set_nchan S s1) /\
  WrapGo.Delete p dbName key s1 =
    Panicked "send on closed channel" (set_nchan S s1) /\
  (forall o, WrapGo.update p o s1 =
     Panicked "send on closed channel" (set_nchan S s1)).
Proof.
  intros Hp H Hn Hk Hl.
  destruct (WrapGo_Close_shuts p s s1 d Hp H) as (d1 & Hp1 & Hc & _ & Hdbs).
  assert (Hu : forall o, WrapGo.update p o s1 =
            Panicked "send on closed channel" (set_nchan S s1)).
  { intros o. unfold WrapGo.update.
    rewrite (bind_returned _ _ _ _ _ (make_res_returned s1)).
    assert (Hp2 : heap (set_nchan S s1) !! p = Some d1) by exact Hp1.
    unfold send_uOps.
    rewrite (bind_bind_returned _ _ _ _ _ _ (deref_returned _ _ _ Hp2)).
    now rewrite Hc. }
  assert (Hv : WrapGo.parseArgs p dbName key s1 = Returned (dbi, None) s1).
  { rewrite parseArgs_validateArgs.
    rewrite (validateArgs_lookup p dbName key s1 d1 Hp1 Hn Hk).
    now rewrite Hdbs, Hl. }
  unfold WrapGo.Write, WrapGo.Delete.
  rewrite !(bind_returned _ _ _ _ _ Hv). cbn [fst snd].
  split; [apply Hu|]. split; [apply Hu|exact Hu].
Qed.

(** X15.  On an open [DB] the two revisions do the same: Write, Delete
    and the update behind them end in the same way and in the same state
    in src/wrap/wrap.go and in the later revision; Read is the same
    function in both, whether the [DB] is open or not. *)
Theorem revisions_agree_while_open (p : nat) (s : state) (d : DB) :
  heap s !! p = Some d -> closed d = 0 ->
  (forall o, WrapGo.update p o s = Update p o s) /\
  (forall dbName key value,
     WrapGo.Write p dbName key value s = Write p dbName key value s) /\
  (forall dbName key, WrapGo.Delete p dbName key s = Delete p dbName key s) /\
  (forall dbName key s', WrapGo.Read p dbName key s' = Read p dbName key s').
Proof.
  intros Hp Hc.
  assert (Hu : forall o, WrapGo.update p o s = Update p o s).
  { intros o. unfold Update.
    rewrite (bind_returned _ _ _ _ _ (load_closed_returned _ _ _ Hp)).
    now rewrite Hc. }
  split; [exact Hu|]. split; [|split].
  - intros dbName key value. unfold WrapGo.Write, Write.
    rewrite parseArgs_validateArgs.
    destruct (validateArgs_returns p dbName key s d Hp) as (dbi & e & Hv & _).
    rewrite !(bind_returned _ _ _ _ _ Hv). cbn [fst snd].
    destruct e; [reflexivity|apply Hu].
  - intros dbName key. unfold WrapGo.Delete, Delete.
    rewrite parseArgs_validateArgs.
    destruct (validateArgs_returns p dbName key s d Hp) as (dbi & e & Hv & _).
    rewrite !(bind_returned _ _ _ _ _ Hv). cbn [fst snd].
    destruct e; [reflexivity|apply Hu].
  - reflexivity.
Qed.

(** ** More on the interleaved runs *)

(** A step of a run, by the step of the goroutine that moved. *)
Lemma cstep_thread (p i : nat) (c c' : cstate) :
  cstep p i c = Some c' ->
  dead c = None /\
  exists t, pool c !! i = Some t /\
    ((exists r e, t = WkSend r e /\ shared c' = shared c /\ dead c' = None /\
        tlog c' = tlog c) \/
     (exists t', thread_step p t (shared c) = Returned t' (shared c') /\
        dead c' = None /\ tlog c' = tlog c ++ tsteps_of t /\
        pool c' = <[i := t']> (pool c)) \/
     (exists msg, thread_step p t (shared c) = Panicked msg (shared c') /\
        dead c' = Some msg /\ tlog c' = tlog c /\ pool c' = pool c)).
Proof.
  intros H. unfold cstep in H.
  destruct (dead c) eqn:Hd; [discriminate|]. split; [reflexivity|].
  destruct (pool c !! i) as [t|] eqn:Ht; [|discriminate].
  exists t. split; [reflexivity|].
  assert (Hgen :
    match thread_step p t (shared c) with
    | Returned t' s' =>
        Some (note t t' (mkC s' (<[i := t']> (pool c))
                             (enqueued c) (executed c) (tlog c) None))
    | Panicked msg s' =>
        Some (mkC s' (pool c) (enqueued c) (executed c) (tlog c) (Some msg))
    | Blocked _ => None
    end = Some c' ->
    (exists t', thread_step p t (shared c) = Returned t' (shared c') /\
       dead c' = None /\ tlog c' = tlog c ++ tsteps_of t /\
       pool c' = <[i := t']> (pool c)) \/
    (exists msg, thread_step p t (shared c) = Panicked msg (shared c') /\
       dead c' = Some msg /\ tlog c' = tlog c /\ pool c' = pool c)).
  { intros H0.
    destruct (thread_step p t (shared c)) as [t' s'|msg s'|s']; [| |discriminate].
    - injection H0 as <-.
      destruct (note_fields t t'
                  (mkC s' (<[i := t']> (pool c)) (enqueued c) (executed c) (tlog c) None))
        as (N1 & N2 & N3 & _ & _ & N6).
      left. exists t'. rewrite N1, N2, N3, N6. now repeat split.
    - injection H0 as <-. right. exists msg. now repeat split. }
  destruct t as [o|o|r|e| | | | | | | |u|r e| ];
    try (right; exact (Hgen H)).
  destruct (find_index (is_recv r) (pool c)) as [j|]; [|discriminate].
  injection H as <-. left. exists r, e. now repeat split.
Qed.

(** *** The queue stays within its capacity *)

Lemma thread_step_cap (p : nat) (t : thread) (s : state) (d : DB) :
  heap s !! p = Some d -> within_cap d ->
  match thread_step p t s with
  | Returned _ s' | Panicked _ s' =>
      exists d', heap s' !! p = Some d' /\
        cap (uOps d') = cap (uOps d) /\ within_cap d'
  | Blocked _ => True
  end.
Proof.
  intros Hp Hc. pose proof (thread_step_spec p t s d Hp) as Hs.
  destruct t as [o|o|r|e| | | | | | | |u|r e| ].
  2:{ (* UpdSend *)
    clear Hs. simpl thread_step.
    rewrite (bind_returned _ _ _ _ _ (make_res_returned s)).
    assert (Hp1 : heap (set_nchan S s) !! p = Some d) by exact Hp.
    unfold try_send.
    rewrite (bind_bind_returned _ _ _ _ _ _ (deref_returned _ _ _ Hp1)).
    destruct (is_closed (uOps d)); [exists d; now repeat split|].
    destruct (is_full (uOps d)) eqn:Hf; [exact I|].
    rewrite (bind_returned _ _ _ _ _ (store_returned _ _ _ _ Hp1)). unfold ret.
    eexists. split; [apply (lookup_update_db _ _ _ _ Hp1)|].
    split; [reflexivity|]. unfold within_cap, is_full in *. simpl.
    apply negb_false_iff, Nat.ltb_lt in Hf. rewrite length_app. simpl. lia. }
  all: destruct (thread_step p _ s) as [t' s'|msg s'|s'];
    [|destruct Hs as [Hp' _]; exists d; now repeat split|exact I].
  all: destruct Hs as (d' & Hp' & Hrel); exists d'; split; [exact Hp'|];
    simpl in Hrel; try contradiction.
  - destruct Hrel as (-> & _). now split.
  - destruct Hrel as (_ & [(_ & _ & ->)|(_ & _ & ->)]); now split.
  - destruct Hrel as (_ & _ & ->). now split.
  - destruct Hrel as (_ & _ & -> & _). now split.
  - destruct Hrel as (_ & _ & -> & _). now split.
  - destruct Hrel as (_ & _ & ->). now split.
  - destruct Hrel as (_ & [(u & rest & Hb & _ & ->)|(_ & _ & -> & _)]).
    + split; [reflexivity|]. unfold within_cap in *. simpl.
      rewrite Hb in Hc. simpl in Hc. lia.
    + now split.
  - destruct Hrel as (_ & -> & _). now split.
Qed.

Lemma cap_step (p i n : nat) (c c' : cstate) :
  cap_inv p n c -> cstep p i c = Some c' -> cap_inv p n c'.
Proof.
  intros (d & Hp & Hn & Hc) H.
  destruct (cstep_thread p i c c' H) as (_ & t & _ & [(r & e & _ & Hs & _)
    |[(t' & Hs & _)|(msg & Hs & _)]]).
  - exists d. rewrite Hs. now split.
  - pose proof (thread_step_cap p t (shared c) d Hp Hc) as Hk. rewrite Hs in Hk.
    destruct Hk as (d' & Hp' & Hn' & Hc'). exists d'.
    split; [exact Hp'|]. split; [congruence|exact Hc'].
  - pose proof (thread_step_cap p t (shared c) d Hp Hc) as Hk. rewrite Hs in Hk.
    destruct Hk as (d' & Hp' & Hn' & Hc'). exists d'.
    split; [exact Hp'|]. split; [congruence|exact Hc'].
Qed.

Lemma cap_run (p n : nat) (sched : list nat) : forall c,
  cap_inv p n c -> cap_inv p n (crun p sched c).
Proof.
  induction sched as [|i rest IH]; intros c Hinv; [exact Hinv|].
  simpl. destruct (cstep p i c) as [c'|] eqn:E.
  - apply IH. now apply cap_step with (i := i) (c := c).
  - now apply IH.
Qed.

(** X11.  The queue of pending writes is bounded.  Whatever the
    goroutines and the schedule, the queue never holds more requests than
    the capacity it was made with (1000 in New), and that capacity never
    changes; a sender that finds the queue full and open does not move
    until the worker has made room: nothing is dropped or overwritten. *)
Theorem queue_bounded (p : nat) (s : state) (d : DB)
    (callers : list thread) (sched : list nat) :
  heap s !! p = Some d ->
  (length (buf (uOps d)) <= cap (uOps d))%nat ->
  let c := crun p sched (start s callers) in
  exists d', heap (shared c) !! p = Some d' /\
    cap (uOps d') = cap (uOps d) /\
    (length (buf (uOps d')) <= cap (uOps d))%nat /\
    (length (buf (uOps d')) = cap (uOps d) -> is_closed (uOps d') = false ->
     forall i o, pool c !! i = Some (UpdSend o) -> cstep p i c = None).
Proof.
  intros Hp Hc c.
  assert (H0 : cap_inv p (cap (uOps d)) (start s callers)).
  { exists d. now repeat split. }
  destruct (cap_run p _ sched _ H0) as (d' & Hp' & Hn & Hc'). fold c in Hp'.
  exists d'. split; [exact Hp'|]. split; [exact Hn|].
  unfold within_cap in Hc'. split; [lia|].
  intros Hfull Hopen i o Hi. unfold cstep.
  destruct (dead c); [reflexivity|]. rewrite Hi. simpl thread_step.
  rewrite (bind_returned _ _ _ _ _ (make_res_returned (shared c))).
  assert (Hp1 : heap (set_nchan S (shared c)) !! p = Some d') by exact Hp'.
  unfold try_send.
  rewrite (bind_bind_returned _ _ _ _ _ _ (deref_returned _ _ _ Hp1)).
  rewrite Hopen.
  assert (Hf : is_full (uOps d') = true).
  { unfold is_full. apply negb_true_iff, Nat.ltb_ge. lia. }
  now rewrite Hf.
Qed.

(** *** The flag, once stored, stays *)

Lemma step_rel_flag (t : thread) (d : DB) (n : nat) (t' : thread) (d' : DB) (n' : nat) :
  step_rel t d n t' d' n' ->
  (closed d = 1 -> closed d' = 1) /\
  (In TMarkClosed (tsteps_of t) -> closed d' = 1).
Proof.
  intros Hrel. destruct t; simpl in Hrel; try contradiction; simpl tsteps_of.
  - destruct Hrel as (-> & _). split; [auto|intros []].
  - destruct Hrel as (_ & _ & -> & _). split; [auto|intros []].
  - destruct Hrel as (_ & [(_ & _ & ->)|(_ & _ & ->)]); (split; [auto|intros []]).
  - destruct Hrel as (_ & _ & ->). split; auto.
  - destruct Hrel as (_ & _ & -> & _). split; [auto|]. intros [Hx|[]]. discriminate.
  - destruct Hrel as (_ & _ & -> & _). split; [auto|]. intros [Hx|[]]. discriminate.
  - destruct Hrel as (_ & _ & ->). split; [auto|]. intros [Hx|[]]. discriminate.
  - destruct Hrel as (_ & [(u & rest & _ & _ & ->)|(_ & _ & -> & _)]);
      (split; [auto|intros []]).
  - destruct Hrel as (_ & -> & _). split; [auto|intros []].
Qed.

Lemma flag_step (p i : nat) (c c' : cstate) :
  flag_inv p c -> cstep p i c = Some c' -> flag_inv p c'.
Proof.
  intros (d & Hp & Hf) H.
  destruct (cstep_inv p i c c' d Hp H)
    as [(t & t' & d' & Ht & Hp' & Hrel & _ & _ & _ & Htl & _)
       |[(msg & _ & _ & Hp' & _ & _ & _ & Htl)
        |(r & e & j & _ & _ & _ & Hsh & _ & _ & Htl & _)]].
  - exists d'. split; [exact Hp'|]. rewrite Htl. intros Hin.
    destruct (step_rel_flag _ _ _ _ _ _ Hrel) as [Hkeep Hset].
    apply in_app_iff in Hin as [Hin|Hin]; auto.
  - exists d. rewrite Htl. now split.
  - exists d. rewrite Hsh, Htl. now split.
Qed.

Lemma flag_run (p : nat) (sched : list nat) : forall c,
  flag_inv p c -> flag_inv p (crun p sched c).
Proof.
  induction sched as [|i rest IH]; intros c Hinv; [exact Hinv|].
  simpl. destruct (cstep p i c) as [c'|] eqn:E.
  - apply IH. now apply flag_step with (i := i) (c := c).
  - now apply IH.
Qed.

(** X12.  Once the teardown has stored the flag, every Update that
    begins is refused, in any interleaving: the flag is 1 and stays 1, and
    the step of a caller at the check of Update takes it to its return,
    with [ErrDBClosed], the shared state and the queue untouched. *)
Theorem late_Update_refused (p : nat) (s : state) (d : DB)
    (callers : list thread) (sched : list nat) :
  heap s !! p = Some d ->
  let c := crun p sched (start s callers) in
  In TMarkClosed (tlog c) ->
  (exists d', heap (shared c) !! p = Some d' /\ closed d' = 1) /\
  (dead c = None ->
   forall i o, pool c !! i = Some (UpdLoad o) ->
     cstep p i c =
       Some (mkC (shared c) (<[i := UpdDone (Some ErrDBClosed)]> (pool c))
                 (enqueued c) (executed c) (tlog c) None)).
Proof.
  intros Hp c Hin.
  assert (H0 : flag_inv p (start s callers)).
  { exists d. split; [exact Hp|]. intros []. }
  destruct (flag_run p sched _ H0) as (d' & Hp' & Hf). fold c in Hp', Hf.
  specialize (Hf Hin). split; [eauto|].
  intros Hd i o Hi. unfold cstep. rewrite Hd, Hi. simpl thread_step.
  rewrite (bind_returned _ _ _ _ _ (load_closed_returned _ _ _ Hp')).
  rewrite Hf. reflexivity.
Qed.

(** *** The only panic *)

Lemma step_rel_shut (t : thread) (d : DB) (n : nat) (t' : thread) (d' : DB) (n' : nat) :
  step_rel t d n t' d' n' ->
  is_closed (uOps d') = true ->
  is_closed (uOps d) = true \/ In TStopQueue (tsteps_of t).
Proof.
  intros Hrel. destruct t; simpl in Hrel; try contradiction; simpl tsteps_of.
  - destruct Hrel as (-> & _). auto.
  - destruct Hrel as (_ & _ & -> & _). auto.
  - destruct Hrel as (_ & [(_ & _ & ->)|(_ & _ & ->)]); auto.
  - destruct Hrel as (_ & _ & ->). auto.
  - intros _. right. now left.
  - destruct Hrel as (_ & _ & -> & _). auto.
  - destruct Hrel as (_ & _ & ->). auto.
  - destruct Hrel as (_ & [(u & rest & _ & _ & ->)|(_ & _ & -> & _)]); auto.
  - destruct Hrel as (_ & -> & _). auto.
Qed.

Lemma shut_step (p i : nat) (c c' : cstate) :
  shut_inv p c -> cstep p i c = Some c' -> shut_inv p c'.
Proof.
  intros (d & Hp & Hf) H.
  destruct (cstep_inv p i c c' d Hp H)
    as [(t & t' & d' & Ht & Hp' & Hrel & _ & _ & _ & Htl & _)
       |[(msg & _ & _ & Hp' & _ & _ & _ & Htl)
        |(r & e & j & _ & _ & _ & Hsh & _ & _ & Htl & _)]].
  - exists d'. split; [exact Hp'|]. rewrite Htl. intros Hc.
    apply in_app_iff.
    destruct (step_rel_shut _ _ _ _ _ _ Hrel Hc) as [Hc0|Hin]; auto.
  - exists d. rewrite Htl. now split.
  - exists d. rewrite Hsh, Htl. now split.
Qed.

(** A step of a goroutine that panics: a send on the closed queue, a
    close of the closed queue, or a [Done] on a WaitGroup at 0. *)
Lemma thread_step_panic (p : nat) (t : thread) (s s' : state) (d : DB) (msg : string) :
  heap s !! p = Some d -> thread_step p t s = Panicked msg s' ->
  (is_sender t = true /\ is_closed (uOps d) = true /\
   msg = "send on closed channel") \/
  (t = ClsCloseChan /\ is_closed (uOps d) = true) \/
  (t = WkRecv /\ wg d <= 0).
Proof.
  intros Hp. destruct t as [o|o|r|e| | | | | | | |u|r e| ]; simpl thread_step;
    try discriminate.
  - rewrite (bind_returned _ _ _ _ _ (load_closed_returned _ _ _ Hp)). discriminate.
  - rewrite (bind_returned _ _ _ _ _ (make_res_returned s)).
    assert (Hp1 : heap (set_nchan S s) !! p = Some d) by exact Hp.
    unfold try_send.
    rewrite (bind_bind_returned _ _ _ _ _ _ (deref_returned _ _ _ Hp1)).
    destruct (is_closed (uOps d)) eqn:Hcl.
    + intros [= <- _]. left. now repeat split.
    + destruct (is_full (uOps d)); [discriminate|].
      rewrite (bind_returned _ _ _ _ _ (store_returned _ _ _ _ Hp1)). discriminate.
  - rewrite (bind_returned _ _ _ _ _ (deref_returned _ _ _ Hp)).
    destruct (closeOnce d); try discriminate.
    rewrite (bind_returned _ _ _ _ _ (store_returned _ _ _ _ Hp)). discriminate.
  - unfold store_closed.
    rewrite (bind_returned _ _ _ _ _ (store_returned _ _ _ _ Hp)). discriminate.
  - unfold close_uOps.
    rewrite (bind_bind_returned _ _ _ _ _ _ (deref_returned _ _ _ Hp)).
    destruct (is_closed (uOps d)) eqn:Hcl.
    + intros _. right. left. now split.
    + rewrite (bind_returned _ _ _ _ _ (store_returned _ _ _ _ Hp)). discriminate.
  - rewrite (bind_returned _ _ _ _ _ (deref_returned _ _ _ Hp)).
    destruct (wg d =? 0); discriminate.
  - rewrite (bind_returned _ _ _ _ _ (deref_returned _ _ _ Hp)).
    unfold EnvClose.
    destruct (call_returns (env_Close (env d)) (EvClose (env d)) s)
      as (e & s1 & Hc & (Hh & _) & _).
    rewrite (bind_returned _ _ _ _ _ Hc).
    assert (Hp1 : heap s1 !! p = Some d) by now rewrite Hh.
    rewrite (bind_returned _ _ _ _ _ (store_returned _ _ _ _ Hp1)). discriminate.
  - rewrite (bind_returned _ _ _ _ _ (deref_returned _ _ _ Hp)).
    destruct (buf (uOps d)) as [|u rest].
    + destruct (is_closed (uOps d)); [|discriminate].
      unfold wg_Done, wg_Add.
      rewrite (bind_bind_returned _ _ _ _ _ _ (deref_returned _ _ _ Hp)).
      destruct (wg d + -1 <? 0) eqn:Hneg.
      * intros _. right. right. apply Z.ltb_lt in Hneg. split; [reflexivity|lia].
      * rewrite (bind_returned _ _ _ _ _ (store_returned _ _ _ _ Hp)). discriminate.
    + rewrite (bind_returned _ _ _ _ _ (store_returned _ _ _ _ Hp)). discriminate.
  - rewrite (bind_returned _ _ _ _ _ (deref_returned _ _ _ Hp)).
    unfold EnvUpdateLocked.
    destruct (call_returns (env_UpdateLocked (env d) (op u))
                (EvUpdateLocked (env d)) s) as (e & s1 & Hc & _).
    rewrite (bind_returned _ _ _ _ _ Hc). discriminate.
Qed.

Lemma late_send_step (p i : nat) (c c' : cstate) :
  once_inv p c -> drain_inv p c -> shut_inv p c ->
  cstep p i c = Some c' -> late_send c'.
Proof.
  intros (d1 & Hp1 & Hst) (d2 & tw & cs & Hp2 & Hpool & Hw & Hcs & Hd & _)
    (d & Hp & Hsh) H msg Hdead.
  assert (d1 = d) by congruence. assert (d2 = d) by congruence. subst d1 d2.
  destruct (cstep_thread p i c c' H) as (_ & t & Ht & [(r & e & _ & _ & Hn & _)
    |[(t' & _ & Hn & _)|(msg' & Hs & Hm & Htl & Hpl)]]); try congruence.
  assert (msg' = msg) by congruence. subst msg'.
  destruct (thread_step_panic p t _ _ d msg Hp Hs)
    as [(Hsend & Hcl & ->)|[(-> & Hcl)|(-> & Hwg)]].
  - split; [reflexivity|]. rewrite Htl, Hpl. split; [auto|]. eauto.
  - (* the teardown never closes a closed queue *)
    exfalso. specialize (Hsh Hcl).
    pose proof (stages_split _ _ _ Ht) as Hsp. simpl stage in Hsp.
    destruct (closeOnce d); simpl in Hst.
    + destruct Hst as (H1 & _). rewrite H1 in Hsp.
      symmetry in Hsp. apply app_eq_nil in Hsp as [_ Hsp]. discriminate.
    + destruct Hst as (k & H1 & H2 & _).
      destruct (stages_insert_inside _ _ _ ClsWait 1%nat k Ht eq_refl H1) as [<- _].
      rewrite H2 in Hsh. simpl in Hsh. destruct Hsh as [Hx|[]]. discriminate.
    + destruct Hst as (H1 & _). rewrite H1 in Hsp.
      symmetry in Hsp. apply app_eq_nil in Hsp as [_ Hsp]. discriminate.
  - (* the worker calls Done once *)
    exfalso. rewrite Hpool in Ht. destruct i as [|k].
    + injection Ht as ->. unfold drain_state in Hd. simpl in Hd. lia.
    + simpl in Ht. rewrite Forall_lookup in Hcs. specialize (Hcs k _ Ht).
      discriminate.
Qed.

Lemma late_send_run (p : nat) (sched : list nat) : forall c,
  once_inv p c -> drain_inv p c -> shut_inv p c -> late_send c ->
  late_send (crun p sched c).
Proof.
  induction sched as [|i rest IH]; intros c Ho Hd Hs Hl; [exact Hl|].
  simpl. destruct (cstep p i c) as [c'|] eqn:E.
  - apply IH.
    + now apply once_step with (i := i) (c := c).
    + now apply drain_step with (i := i) (c := c).
    + now apply shut_step with (i := i) (c := c).
    + now apply late_send_step with (p := p) (i := i) (c := c).
  - now apply IH.
Qed.

(** X10.  The only panic of the package.  On a [DB] as New leaves it,
    with any callers of Update and Close in any interleaving, the run
    never dies of a second [close] of the queue, of a negative WaitGroup
    counter or of a nil pointer: when it dies, the message is "send on
    closed channel", the teardown has closed the queue, and a caller of
    Update stands at its send. *)
Theorem only_a_late_send_panics (p : nat) (s : state) (d : DB)
    (callers : list thread) (sched : list nat) (msg : string) :
  heap s !! p = Some d -> closeOnce d = OnceFresh -> wg d = 1 ->
  is_closed (uOps d) = false ->
  Forall (fun t => is_entry t = true) callers ->
  let c := crun p sched (start s callers) in
  dead c = Some msg ->
  msg = "send on closed channel" /\ In TStopQueue (tlog c) /\
  exists i o, pool c !! i = Some (UpdSend o).
Proof.
  intros Hp Ho Hwg Hopen Hc c Hdead.
  assert (Hs0 : shut_inv p (start s callers)).
  { exists d. split; [exact Hp|]. congruence. }
  assert (Hl0 : late_send (start s callers)) by (intros m Hm; discriminate).
  destruct (late_send_run p sched _ (once_start p s d callers Hp Ho Hc)
              (drain_start p s d callers Hp Hwg Hc) Hs0 Hl0 msg Hdead)
    as (-> & Hin & i & t & Hi & Ht).
  split; [reflexivity|]. split; [exact Hin|].
  destruct t; try discriminate. eauto.
Qed.

(** X9.  The check of Update does not exclude the panic.  A caller of
    Update that has read the flag as 0, then a Close that stores the flag
    and closes the queue, then the caller's send: the send panics with
    "send on closed channel" and the process is dead, the teardown
    standing at its wait. *)
Theorem Update_racing_Close_panics (p : nat) (s : state) (d : DB) (o : TxnOp) :
  heap s !! p = Some d -> closed d = 0 -> closeOnce d = OnceFresh ->
  is_closed (uOps d) = false ->
  let c := crun p [1; 2; 2; 2; 1]%nat (start s [UpdLoad o; ClsEnter]) in
  dead c = Some "send on closed channel" /\
  pool c = [WkRecv; UpdSend o; ClsWait] /\
  tlog c = [TMarkClosed; TStopQueue] /\
  enqueued c = [] /\ log (shared c) = log s.
Proof.
  intros Hp Hcl Ho Hopen. cbv zeta. unfold start.
  (* the caller of Update reads the flag *)
  assert (E1 : cstep p 1 (mkC s [WkRecv; UpdLoad o; ClsEnter] [] [] [] None) =
               Some (mkC s [WkRecv; UpdSend o; ClsEnter] [] [] [] None)).
  { unfold cstep. cbn [dead pool].
    change ([WkRecv; UpdLoad o; ClsEnter] !! 1%nat) with (Some (UpdLoad o)).
    cbn [thread_step shared].
    rewrite (bind_returned _ _ _ _ _ (load_closed_returned _ _ _ Hp)).
    rewrite Hcl. reflexivity. }
  (* Close enters the Once *)
  pose proof (lookup_update_db p (set_closeOnce OnceRunning) s d Hp) as Hp1.
  set (s1 := update_db p (set_closeOnce OnceRunning) s) in *.
  assert (E2 : cstep p 2 (mkC s [WkRecv; UpdSend o; ClsEnter] [] [] [] None) =
               Some (mkC s1 [WkRecv; UpdSend o; ClsStore] [] [] [] None)).
  { unfold cstep. cbn [dead pool].
    change ([WkRecv; UpdSend o; ClsEnter] !! 2%nat) with (Some (@ClsEnter Txn world)).
    cbn [thread_step shared].
    rewrite (bind_returned _ _ _ _ _ (deref_returned _ _ _ Hp)). rewrite Ho.
    rewrite (bind_returned _ _ _ _ _ (store_returned _ _ _ _ Hp)).
    reflexivity. }
  (* it stores the flag *)
  pose proof (lookup_update_db p (set_closed 1) s1 _ Hp1) as Hp2.
  set (s2 := update_db p (set_closed 1) s1) in *.
  assert (E3 : cstep p 2 (mkC s1 [WkRecv; UpdSend o; ClsStore] [] [] [] None) =
               Some (mkC s2 [WkRecv; UpdSend o; ClsCloseChan] [] [] [TMarkClosed] None)).
  { unfold cstep. cbn [dead pool].
    change ([WkRecv; UpdSend o; ClsStore] !! 2%nat) with (Some (@ClsStore Txn world)).
    cbn [thread_step shared]. unfold store_closed.
    rewrite (bind_returned _ _ _ _ _ (store_returned _ _ _ _ Hp1)).
    reflexivity. }
  (* it closes the queue *)
  pose proof (lookup_update_db p
    (set_uOps (fun c => mkChan (buf c) (cap c) true)) s2 _ Hp2) as Hp3.
  set (s3 := update_db p (set_uOps (fun c => mkChan (buf c) (cap c) true)) s2) in *.
  assert (E4 : cstep p 2 (mkC s2 [WkRecv; UpdSend o; ClsCloseChan] [] [] [TMarkClosed] None) =
               Some (mkC s3 [WkRecv; UpdSend o; ClsWait] [] []
                         [TMarkClosed; TStopQueue] None)).
  { unfold cstep. cbn [dead pool].
    change ([WkRecv; UpdSend o; ClsCloseChan] !! 2%nat)
      with (Some (@ClsCloseChan Txn world)).
    cbn [thread_step shared]. unfold close_uOps.
    rewrite (bind_bind_returned _ _ _ _ _ _ (deref_returned _ _ _ Hp2)).
    cbn [set_closed set_closeOnce uOps]. rewrite Hopen.
    rewrite (bind_returned _ _ _ _ _ (store_returned _ _ _ _ Hp2)).
    reflexivity. }
  (* the caller of Update sends *)
  assert (E5 : cstep p 1 (mkC s3 [WkRecv; UpdSend o; ClsWait] [] []
                              [TMarkClosed; TStopQueue] None) =
               Some (mkC (set_nchan S s3) [WkRecv; UpdSend o; ClsWait] [] []
                         [TMarkClosed; TStopQueue] (Some "send on closed channel"))).
  { unfold cstep. cbn [dead pool].
    change ([WkRecv; UpdSend o; ClsWait] !! 1%nat) with (Some (UpdSend o)).
    cbn [thread_step shared].
    rewrite (bind_returned _ _ _ _ _ (make_res_returned s3)).
    assert (Hp4 : heap (set_nchan S s3) !! p =
      Some (set_uOps (fun c => mkChan (buf c) (cap c) true)
              (set_closed 1 (set_closeOnce OnceRunning d)))) by exact Hp3.
    unfold try_send.
    rewrite (bind_bind_returned _ _ _ _ _ _ (deref_returned _ _ _ Hp4)).
    reflexivity. }
  simpl crun. rewrite E1, E2, E3, E4, E5. now repeat split.
Qed.

(** *** Nothing enters a closed queue *)

Lemma step_rel_stop (t : thread) (d : DB) (n : nat) (t' : thread) (d' : DB) (n' : nat) :
  step_rel t d n t' d' n' ->
  (is_closed (uOps d) = true -> is_closed (uOps d') = true) /\
  (In TStopQueue (tsteps_of t) -> is_closed (uOps d') = true) /\
  (enq_of t t' <> [] -> is_closed (uOps d) = false).
Proof.
  intros Hrel. destruct t; simpl in Hrel; try contradiction; simpl tsteps_of.
  - destruct Hrel as (-> & _ & ->). split; [auto|]. split; [intros []|].
    destruct (negb (closed d =? 0)); simpl; congruence.
  - destruct Hrel as (-> & _ & -> & Hc). split; [auto|]. split; [intros []|auto].
  - destruct Hrel as (_ & [(_ & -> & ->)|(_ & -> & ->)]);
      (split; [auto|]); (split; [intros []|simpl; congruence]).
  - destruct Hrel as (_ & -> & ->). split; [auto|].
    split; [intros [Hx|[]]; discriminate|simpl; congruence].
  - destruct Hrel as (_ & -> & -> & _). split; [auto|]. split; [auto|simpl; congruence].
  - destruct Hrel as (_ & -> & -> & _). split; [auto|].
    split; [intros [Hx|[]]; discriminate|simpl; congruence].
  - destruct Hrel as (_ & -> & ->). split; [auto|].
    split; [intros [Hx|[]]; discriminate|simpl; congruence].
  - destruct Hrel as (_ & [(u & rest & _ & -> & ->)|(_ & -> & -> & _)]);
      (split; [auto|]); (split; [intros []|simpl; congruence]).
  - destruct Hrel as (_ & -> & e & ->). split; [auto|].
    split; [intros []|simpl; congruence].
Qed.

Lemma stop_step (p i : nat) (c c' : cstate) :
  stop_inv p c -> cstep p i c = Some c' ->
  stop_inv p c' /\
  (In TStopQueue (tlog c) ->
   enqueued c' = enqueued c /\ In TStopQueue (tlog c')).
Proof.
  intros (d & Hp & Hf) H.
  destruct (cstep_inv p i c c' d Hp H)
    as [(t & t' & d' & Ht & Hp' & Hrel & _ & He & _ & Htl & _)
       |[(msg & _ & _ & Hp' & _ & He & _ & Htl)
        |(r & e & j & _ & _ & _ & Hsh & He & _ & Htl & _)]].
  - destruct (step_rel_stop _ _ _ _ _ _ Hrel) as (Hkeep & Hset & Henq).
    split.
    + exists d'. split; [exact Hp'|]. rewrite Htl. intros Hin.
      apply in_app_iff in Hin as [Hin|Hin]; auto.
    + intros Hin. rewrite Htl. split; [|apply in_app_iff; now left].
      rewrite He. destruct (enq_of t t') as [|u l] eqn:Eq; [now rewrite app_nil_r|].
      specialize (Hf Hin). assert (Hne : u :: l <> []) by discriminate.
      specialize (Henq Hne). congruence.
  - split; [exists d; rewrite Htl; now split|]. intros Hin. rewrite Htl. now split.
  - split; [exists d; rewrite Hsh, Htl; now split|]. intros Hin. rewrite Htl.
    now split.
Qed.

Lemma stop_run (p : nat) (sched : list nat) : forall c,
  stop_inv p c -> stop_inv p (crun p sched c).
Proof.
  induction sched as [|i rest IH]; intros c Hinv; [exact Hinv|].
  simpl. destruct (cstep p i c) as [c'|] eqn:E.
  - apply IH. now apply (stop_step p i c c').
  - now apply IH.
Qed.

Lemma frozen_run (p : nat) (sched : list nat) : forall c,
  stop_inv p c -> In TStopQueue (tlog c) ->
  enqueued (crun p sched c) = enqueued c.
Proof.
  induction sched as [|i rest IH]; intros c Hinv Hin; [reflexivity|].
  simpl. destruct (cstep p i c) as [c'|] eqn:E.
  - destruct (stop_step p i c c' Hinv E) as [Hinv' Hfz].
    destruct (Hfz Hin) as [He Hin']. rewrite <- He. now apply IH.
  - now apply IH.
Qed.

(** X22.  Nothing enters the queue once the teardown has closed it.
    From the moment [close(db.uOps)] was done, in whatever way the run goes
    on, the queue stays closed and no request is added to those that
    entered it before: the requests the worker drains are all there
    are. *)
Theorem no_request_after_stop (p : nat) (s : state) (d : DB)
    (callers : list thread) (sched1 sched2 : list nat) :
  heap s !! p = Some d ->
  let c1 := crun p sched1 (start s callers) in
  In TStopQueue (tlog c1) ->
  (exists d1, heap (shared c1) !! p = Some d1 /\ is_closed (uOps d1) = true) /\
  enqueued (crun p sched2 c1) = enqueued c1.
Proof.
  intros Hp c1 Hin.
  assert (H0 : stop_inv p (start s callers)).
  { exists d. split; [exact Hp|]. intros []. }
  pose proof (stop_run p sched1 _ H0) as H1. fold c1 in H1.
  split.
  - destruct H1 as (d1 & Hp1 & Hc). eauto.
  - now apply frozen_run.
Qed.

(** *** No transaction after the environment is closed *)

Lemma step_rel_env (t : thread) (d : DB) (n : nat) (t' : thread) (d' : DB) (n' : nat) :
  step_rel t d n t' d' n' -> env d' = env d.
Proof.
  intros Hrel. destruct t; simpl in Hrel; try contradiction.
  - now destruct Hrel as (-> & _).
  - now destruct Hrel as (_ & _ & -> & _).
  - now destruct Hrel as (_ & [(_ & _ & ->)|(_ & _ & ->)]).
  - now destruct Hrel as (_ & _ & ->).
  - now destruct Hrel as (_ & _ & -> & _).
  - now destruct Hrel as (_ & _ & -> & _).
  - now destruct Hrel as (_ & _ & ->).
  - now destruct Hrel as (_ & [(u & rest & _ & _ & ->)|(_ & _ & -> & _)]).
  - now destruct Hrel as (_ & -> & _).
Qed.

(** The calls a step of a goroutine makes: the worker's transaction, the
    [env.Close()] of the teardown, and no other. *)
Lemma thread_step_log (p : nat) (t : thread) (s : state) (d : DB) :
  heap s !! p = Some d ->
  match thread_step p t s with
  | Returned _ s' =>
      ((exists u, t = WkExec u) /\
       exists err, log s' = log s ++ [EvUpdateLocked (env d) err]) \/
      (t = ClsEnvClose /\ exists err, log s' = log s ++ [EvClose (env d) err]) \/
      ((forall u, t <> WkExec u) /\ t <> ClsEnvClose /\ log s' = log s)
  | Panicked _ s' => log s' = log s
  | Blocked _ => True
  end.
Proof.
  intros Hp. destruct t as [o|o|r|e| | | | | | | |u|r e| ]; simpl thread_step;
    try exact I.
  - rewrite (bind_returned _ _ _ _ _ (load_closed_returned _ _ _ Hp)).
    right. right. now repeat split.
  - rewrite (bind_returned _ _ _ _ _ (make_res_returned s)).
    assert (Hp1 : heap (set_nchan S s) !! p = Some d) by exact Hp.
    unfold try_send.
    rewrite (bind_bind_returned _ _ _ _ _ _ (deref_returned _ _ _ Hp1)).
    destruct (is_closed (uOps d)); [reflexivity|].
    destruct (is_full (uOps d)); [exact I|].
    rewrite (bind_returned _ _ _ _ _ (store_returned _ _ _ _ Hp1)).
    right. right. now repeat split.
  - rewrite (bind_returned _ _ _ _ _ (deref_returned _ _ _ Hp)).
    destruct (closeOnce d); try exact I.
    + rewrite (bind_returned _ _ _ _ _ (store_returned _ _ _ _ Hp)).
      right. right. now repeat split.
    + right. right. now repeat split.
  - unfold store_closed.
    rewrite (bind_returned _ _ _ _ _ (store_returned _ _ _ _ Hp)).
    right. right. now repeat split.
  - unfold close_uOps.
    rewrite (bind_bind_returned _ _ _ _ _ _ (deref_returned _ _ _ Hp)).
    destruct (is_closed (uOps d)); [reflexivity|].
    rewrite (bind_returned _ _ _ _ _ (store_returned _ _ _ _ Hp)).
    right. right. now repeat split.
  - rewrite (bind_returned _ _ _ _ _ (deref_returned _ _ _ Hp)).
    destruct (wg d =? 0); [|exact I]. right. right. now repeat split.
  - rewrite (bind_returned _ _ _ _ _ (deref_returned _ _ _ Hp)).
    unfold EnvClose.
    destruct (call_returns (env_Close (env d)) (EvClose (env d)) s)
      as (e & s1 & Hc & (Hh & _) & _ & Hlog).
    rewrite (bind_returned _ _ _ _ _ Hc).
    assert (Hp1 : heap s1 !! p = Some d) by now rewrite Hh.
    rewrite (bind_returned _ _ _ _ _ (store_returned _ _ _ _ Hp1)).
    right. left. split; [reflexivity|]. exists e. exact Hlog.
  - rewrite (bind_returned _ _ _ _ _ (deref_returned _ _ _ Hp)).
    destruct (buf (uOps d)) as [|u rest].
    + destruct (is_closed (uOps d)); [|exact I].
      unfold wg_Done, wg_Add.
      rewrite (bind_bind_returned _ _ _ _ _ _ (deref_returned _ _ _ Hp)).
      destruct (wg d + -1 <? 0); [reflexivity|].
      rewrite (bind_returned _ _ _ _ _ (store_returned _ _ _ _ Hp)).
      right. right. now repeat split.
    + rewrite (bind_returned _ _ _ _ _ (store_returned _ _ _ _ Hp)).
      right. right. now repeat split.
  - rewrite (bind_returned _ _ _ _ _ (deref_returned _ _ _ Hp)).
    unfold EnvUpdateLocked.
    destruct (call_returns (env_UpdateLocked (env d) (op u))
                (EvUpdateLocked (env d)) s) as (e & s1 & Hc & _ & _ & Hlog).
    rewrite (bind_returned _ _ _ _ _ Hc).
    left. split; [eauto|]. exists e. exact Hlog.
Qed.

Lemma close_last_step (p i : nat) (e0 : Env) (l0 : list event) (c c' : cstate) :
  once_inv p c -> drain_inv p c -> close_last_inv p e0 l0 c ->
  cstep p i c = Some c' -> close_last_inv p e0 l0 c'.
Proof.
  intros (d1 & Hp1 & Hst) (d2 & tw & cs & Hp2 & Hpool & Hw & Hcs & _ & Hdr)
    (d & ups & cls & Hp & He & Hlog & Hups & Hcls & Hlate) H.
  assert (d1 = d) by congruence. assert (d2 = d) by congruence. subst d1 d2.
  destruct (cstep_inv p i c c' d Hp H)
    as [(t & t' & d' & Ht & Hp' & Hrel & _ & _ & _ & Htl & Hdn)
       |[(msg & Hdm & _ & Hp' & _ & _ & _ & Htl)
        |(r & e & j & _ & _ & _ & Hsh & _ & _ & Htl & _)]].
  - destruct (cstep_thread p i c c' H) as (_ & t0 & Ht0 & Hcase).
    assert (t0 = t) by congruence. subst t0.
    pose proof (step_rel_env _ _ _ _ _ _ Hrel) as Henv.
    pose proof (thread_step_log p t (shared c) d Hp) as Hl.
    destruct Hcase as [(r & e & -> & _)|[(t'' & Hs & _)|(msg & Hs & Hm & _)]].
    + simpl in Hrel. contradiction.
    + rewrite Hs in Hl.
      destruct Hl as [((u & ->) & err & Hl)|[(-> & err & Hl)|(_ & _ & Hl)]].
      * (* a transaction: the environment is not closed yet *)
        assert (Hnil : cls = []).
        { destruct cls as [|ev l]; [reflexivity|]. exfalso.
          destruct Hlate as [Hd _]; [discriminate|]. specialize (Hdr Hd).
          rewrite Hpool in Ht. destruct i as [|k].
          - injection Ht as ->. discriminate.
          - simpl in Ht. rewrite Forall_lookup in Hcs. specialize (Hcs k _ Ht).
            discriminate. }
        subst cls. exists d', (ups ++ [EvUpdateLocked e0 err]), [].
        split; [exact Hp'|]. split; [congruence|].
        rewrite Hl, Hlog, He, !app_nil_r. split; [now rewrite <- app_assoc|].
        split; [apply Forall_app; split; [exact Hups|constructor; eauto]|].
        split; [now left|]. intros Hx. now destruct Hx.
      * (* the close of the teardown: the first one *)
        pose proof (stages_split _ _ _ Ht) as Hsp. simpl stage in Hsp.
        assert (Htk : tlog c = take 3 teardown_seq).
        { destruct (closeOnce d); simpl in Hst.
          - destruct Hst as (H1 & _). rewrite H1 in Hsp.
            symmetry in Hsp. apply app_eq_nil in Hsp as [_ Hsp]. discriminate.
          - destruct Hst as (k & H1 & H2 & _).
            destruct (stages_insert_inside _ _ _ ClsDone 3%nat k Ht eq_refl H1)
              as [<- _]. exact H2.
          - destruct Hst as (H1 & _). rewrite H1 in Hsp.
            symmetry in Hsp. apply app_eq_nil in Hsp as [_ Hsp]. discriminate. }
        assert (Hnil : cls = []).
        { destruct cls as [|ev l]; [reflexivity|]. exfalso.
          destruct Hlate as [_ Hx]; [discriminate|]. rewrite Htk in Hx.
          simpl in Hx. repeat (destruct Hx as [Hx|Hx]; [discriminate|]).
          exact Hx. }
        subst cls. exists d', ups, [EvClose e0 err].
        split; [exact Hp'|]. split; [congruence|].
        rewrite Hl, Hlog, He, !app_nil_r. split; [now rewrite <- app_assoc|].
        split; [exact Hups|]. split; [right; eauto|].
        intros _. rewrite Htl, Htk. simpl. tauto.
      * exists d', ups, cls. split; [exact Hp'|]. split; [congruence|].
        rewrite Hl. split; [exact Hlog|]. split; [exact Hups|].
        split; [exact Hcls|]. intros Hx. destruct (Hlate Hx) as [Ha Hb].
        rewrite Htl. split; apply in_app_iff; now left.
    + congruence.
  - destruct (cstep_thread p i c c' H) as (_ & t0 & Ht0 & Hcase).
    pose proof (thread_step_log p t0 (shared c) d Hp) as Hl.
    destruct Hcase as [(r & e & -> & Hsh & Hn & _)|[(t'' & Hs & Hn & _)|(m & Hs & _)]];
      try congruence.
    rewrite Hs in Hl. exists d, ups, cls. rewrite Htl, Hl.
    split; [exact Hp'|]. split; [exact He|]. split; [exact Hlog|].
    split; [exact Hups|]. split; [exact Hcls|exact Hlate].
  - exists d, ups, cls. rewrite Hsh, Htl.
    split; [exact Hp|]. split; [exact He|]. split; [exact Hlog|].
    split; [exact Hups|]. split; [exact Hcls|exact Hlate].
Qed.

Lemma close_last_run (p : nat) (e0 : Env) (l0 : list event) (sched : list nat) :
  forall c,
  once_inv p c -> drain_inv p c -> close_last_inv p e0 l0 c ->
  close_last_inv p e0 l0 (crun p sched c).
Proof.
  induction sched as [|i rest IH]; intros c Ho Hd Hl; [exact Hl|].
  simpl. destruct (cstep p i c) as [c'|] eqn:E.
  - apply IH.
    + now apply once_step with (i := i) (c := c).
    + now apply drain_step with (i := i) (c := c).
    + now apply close_last_step with (i := i) (c := c).
  - now apply IH.
Qed.

(** X21.  No transaction after the environment is closed.  On a [DB]
    as New leaves it, with any callers of Update and Close in any
    interleaving, the calls made on the engine are write transactions on
    the environment of the [DB], followed by at most one [env.Close()]:
    the environment is closed at most once, however many callers of Close
    there are, and once it is closed no transaction is run on it. *)
Theorem no_transaction_after_env_Close (p : nat) (s : state) (d : DB)
    (callers : list thread) (sched : list nat) :
  heap s !! p = Some d -> closeOnce d = OnceFresh -> wg d = 1 ->
  Forall (fun t => is_entry t = true) callers ->
  let c := crun p sched (start s callers) in
  exists ups cls,
    log (shared c) = log s ++ ups ++ cls /\
    Forall (fun ev => exists err, ev = EvUpdateLocked (env d) err) ups /\
    (cls = [] \/ exists err, cls = [EvClose (env d) err]).
Proof.
  intros Hp Ho Hwg Hc c.
  assert (H0 : close_last_inv p (env d) (log s) (start s callers)).
  { exists d, [], []. simpl. rewrite app_nil_r.
    split; [exact Hp|]. split; [reflexivity|]. split; [reflexivity|].
    split; [constructor|]. split; [now left|]. intros Hx. now destruct Hx. }
  destruct (close_last_run p (env d) (log s) sched _
              (once_start p s d callers Hp Ho Hc)
              (drain_start p s d callers Hp Hwg Hc) H0)
    as (d' & ups & cls & _ & _ & Hlog & Hups & Hcls & _).
  exists ups, cls. now repeat split.
Qed.

(** *** Every result finds its caller *)

Lemma find_index_complete {A} (f : A -> bool) (l : list A) (j : nat) (x : A) :
  l !! j = Some x -> f x = true -> exists k, find_index f l = Some k.
Proof.
  revert j. induction l as [|y l IH]; intros j Hj Hf; [discriminate|].
  simpl. destruct (f y) eqn:E; [eauto|].
  destruct j as [|j]; [simpl in Hj; congruence|].
  destruct (IH j Hj Hf) as [k ->]. simpl. eauto.
Qed.

Lemma step_rel_pending (t : thread) (d : DB) (n : nat) (t' : thread) (d' : DB) (n' : nat) :
  is_worker t = true -> step_rel t d n t' d' n' ->
  pending t' d' = pending t d \/ pending t' d' = [].
Proof.
  intros Hk Hrel. destruct t; simpl in Hk; try discriminate; simpl in Hrel;
    try contradiction; unfold pending.
  - destruct Hrel as (_ & [(u & rest & Hb & -> & ->)|(Hb & -> & -> & _)]); simpl.
    + left. now rewrite Hb.
    + right. now rewrite Hb.
  - destruct Hrel as (_ & -> & e & ->). now left.
Qed.

Lemma receivers_step (p i : nat) (c c' : cstate) :
  receivers_inv p c -> cstep p i c = Some c' -> receivers_inv p c'.
Proof.
  intros (d & tw & cs & Hp & Hpool & Hw & Hcs & Hrc & Hnd & Hlt) H.
  destruct (cstep_inv p i c c' d Hp H)
    as [(t & t' & d' & Ht & Hp' & Hrel & Hpool' & _)
       |[(msg & _ & Hpool' & Hp' & Hn & _)
        |(r & e & j & Ht & Hj & Hpool' & Hsh & _)]].
  - rewrite Hpool in Ht, Hpool'. destruct i as [|k].
    + (* the worker moves *)
      injection Ht as <-.
      destruct (step_rel_worker _ _ _ _ _ _ Hw Hrel) as (Hw' & Hn & _).
      exists d', t', cs. split; [exact Hp'|]. split; [exact Hpool'|].
      split; [exact Hw'|]. split; [exact Hcs|]. rewrite Hn.
      destruct (step_rel_pending _ _ _ _ _ _ Hw Hrel) as [->| ->].
      * now repeat split.
      * split; [intros r []|]. split; constructor.
    + (* a caller moves *)
      simpl in Ht, Hpool'.
      assert (Hk : is_worker t = false)
        by (rewrite Forall_lookup in Hcs; now apply (Hcs k)).
      destruct (step_rel_caller _ _ _ _ _ _ Hk Hrel) as (Hk' & Hb & Hn & Hfresh).
      assert (Hlen : (k < length cs)%nat) by now apply lookup_lt_Some in Ht.
      assert (Hnr : forall r, t <> UpdRecv r).
      { intros r ->. simpl in Hrel. contradiction. }
      assert (Hpd : pending tw d' = pending tw d ++ map res (enq_of t t')).
      { unfold pending. rewrite Hb, map_app. now rewrite app_assoc. }
      exists d', tw, (<[k := t']> cs). split; [exact Hp'|].
      split; [exact Hpool'|]. split; [exact Hw|].
      split; [now apply Forall_insert|]. rewrite Hpd.
      split; [|split].
      * intros r Hin. apply in_app_iff in Hin as [Hin|Hin].
        -- destruct (Hrc r Hin) as (j & Hj). exists j.
           rewrite list_lookup_insert_ne; [exact Hj|].
           intros <-. rewrite Ht in Hj. injection Hj as ->. now apply (Hnr r).
        -- exists k. rewrite list_lookup_insert_eq by exact Hlen.
           destruct t; destruct t'; simpl in Hin; try contradiction.
           destruct Hin as [<-|[]]. reflexivity.
      * apply NoDup_app. split; [exact Hnd|]. split.
        -- intros x Hx1 Hx2.
           apply list_elem_of_In, in_map_iff in Hx2 as (u & Heq & Hu).
           destruct (Hfresh u Hu) as [Hr _].
           rewrite Forall_forall in Hlt. specialize (Hlt x Hx1). simpl in Hlt. lia.
        -- destruct (enq_of t t') as [|u [|u2 l]] eqn:Eq.
           ++ constructor.
           ++ simpl. apply NoDup_singleton.
           ++ exfalso. destruct t; destruct t'; simpl in Eq; discriminate.
      * apply Forall_app. split.
        -- eapply Forall_impl; [exact Hlt|]. simpl. intros x Hx. lia.
        -- apply Forall_forall. intros x Hx.
           apply list_elem_of_In, in_map_iff in Hx as (u & <- & Hu).
           destruct (Hfresh u Hu) as [-> ->]. lia.
  - (* a panic *)
    exists d, tw, cs. rewrite Hpool'.
    split; [exact Hp'|]. split; [exact Hpool|]. split; [exact Hw|].
    split; [exact Hcs|]. split; [exact Hrc|]. split; [exact Hnd|].
    eapply Forall_impl; [exact Hlt|]. simpl. intros x Hx. lia.
  - (* the result is handed over *)
    rewrite Hpool in Ht, Hj, Hpool'.
    destruct i as [|k].
    + injection Ht as ->. destruct j as [|k]; [discriminate|].
      simpl in Hj, Hpool'. unfold pending in Hrc, Hnd, Hlt. simpl in Hrc, Hnd, Hlt.
      apply NoDup_cons in Hnd as [Hnin Hnd]. apply Forall_cons in Hlt as [_ Hlt].
      exists d, WkRecv, (<[k := UpdDone e]> cs). rewrite Hsh.
      split; [exact Hp|]. split; [exact Hpool'|]. split; [reflexivity|].
      split; [now apply Forall_insert|]. unfold pending. simpl.
      split; [|now split].
      intros r' Hin. destruct (Hrc r' (or_intror Hin)) as (j' & Hj'). exists j'.
      rewrite list_lookup_insert_ne; [exact Hj'|].
      intros <-. rewrite Hj in Hj'. injection Hj' as ->.
      apply Hnin. now apply list_elem_of_In.
    + simpl in Ht. rewrite Forall_lookup in Hcs.
      specialize (Hcs k _ Ht). discriminate.
Qed.

Lemma receivers_run (p : nat) (sched : list nat) : forall c,
  receivers_inv p c -> receivers_inv p (crun p sched c).
Proof.
  induction sched as [|i rest IH]; intros c Hinv; [exact Hinv|].
  simpl. destruct (cstep p i c) as [c'|] eqn:E.
  - apply IH. now apply receivers_step with (i := i) (c := c).
  - now apply IH.
Qed.

(** X23.  Every result finds its caller.  In any interleaving of
    callers of Update and Close, a request that is in the queue or in the
    hands of the worker has its caller waiting on its result channel, and
    no two such requests share a channel.  So the worker is never stuck at
    its send: when it holds a result, the hand-over can take place, the
    caller of that request returns this very result, and the worker goes
    back to the queue. *)
Theorem worker_send_finds_receiver (p : nat) (s : state) (d : DB)
    (callers : list thread) (sched : list nat) :
  heap s !! p = Some d -> buf (uOps d) = [] ->
  Forall (fun t => is_entry t = true) callers ->
  let c := crun p sched (start s callers) in
  (exists d' tw, heap (shared c) !! p = Some d' /\ pool c !! 0%nat = Some tw /\
     NoDup (pending tw d') /\
     forall r, In r (pending tw d') -> exists j, pool c !! j = Some (UpdRecv r)) /\
  (dead c = None ->
   forall r e, pool c !! 0%nat = Some (WkSend r e) ->
     exists c' j, cstep p 0 c = Some c' /\
       pool c !! j = Some (UpdRecv r) /\
       pool c' !! j = Some (UpdDone e) /\
       pool c' !! 0%nat = Some WkRecv /\ shared c' = shared c).
Proof.
  intros Hp Hb Hc c.
  assert (H0 : receivers_inv p (start s callers)).
  { exists d, WkRecv, callers. unfold pending. rewrite Hb. simpl.
    split; [exact Hp|]. split; [reflexivity|]. split; [reflexivity|].
    split; [eapply Forall_impl; [exact Hc|apply is_entry_not_worker]|].
    split; [intros r []|]. split; constructor. }
  destruct (receivers_run p sched _ H0)
    as (d' & tw & cs & Hp' & Hpool & Hw & Hcs & Hrc & Hnd & _).
  fold c in Hp', Hpool. split.
  - exists d', tw. split; [exact Hp'|]. rewrite Hpool. split; [reflexivity|].
    split; [exact Hnd|]. intros r Hin. destruct (Hrc r Hin) as (j & Hj).
    now exists (S j).
  - intros Hd r e H0r. rewrite Hpool in H0r. injection H0r as ->.
    destruct (Hrc r) as (j & Hj); [unfold pending; simpl; now left|].
    assert (Hj' : pool c !! S j = Some (UpdRecv r)) by (now rewrite Hpool).
    destruct (find_index_complete (is_recv r) (pool c) (S j) _ Hj') as (k & Hk).
    { simpl. apply Nat.eqb_refl. }
    assert (H0c : pool c !! 0%nat = Some (WkSend r e)) by (now rewrite Hpool).
    assert (Hstep : cstep p 0 c =
      Some (mkC (shared c) (<[k := UpdDone e]> (<[0%nat := WkRecv]> (pool c)))
                (enqueued c) (executed c) (tlog c) (dead c))).
    { unfold cstep. rewrite Hd, H0c, Hk. reflexivity. }
    destruct (handover_delivers p 0 c _ r e H0c Hstep) as (j2 & Hj2 & Hj3 & Hsh).
    eexists _, j2. split; [exact Hstep|]. split; [exact Hj2|].
    split; [exact Hj3|]. split; [|exact Hsh].
    simpl pool. assert (k <> 0%nat).
    { intros ->. apply find_index_some in Hk as (x & Hx & Hf).
      rewrite Hpool in Hx. simpl in Hx. injection Hx as <-. discriminate. }
    rewrite list_lookup_insert_ne by congruence.
    rewrite Hpool. reflexivity.
Qed.

End Properties.

(** * The error predicates *)
Section ErrorPredicates.
Context `{H : lmdb.Header}.

(** X16.  [IsErrno(err, errno)] is true for exactly two shapes of [err]:
    the bare [Errno] value [errno], and an [*OpError] whose [Errno] field
    is that value.  It is false for nil, for a [syscall.Errno] of the same
    number, for any other error and for an [*OpError] wrapped in another
    one (the unwrapping goes one level deep).  It panics on the nil
    [*OpError] and on nothing else. *)
Theorem IsErrno_spec (e : lmdb.goerror) (errno : Z) :
  (lmdb.IsErrno e errno = lmdb.Value true <->
     e = Some (lmdb.Errno errno) \/
     exists op, e = Some (lmdb.OpError op (Some (lmdb.Errno errno)))) /\
  ((exists msg, lmdb.IsErrno e errno = lmdb.Panic msg) <->
     e = Some lmdb.NilOpError) /\
  (forall n, lmdb.IsErrno (Some (lmdb.SysErrno n)) errno = lmdb.Value false) /\
  (forall op1 op2 x,
     lmdb.IsErrno (Some (lmdb.OpError op1 (Some (lmdb.OpError op2 x)))) errno =
     lmdb.Value false).
Proof.
  split; [|split; [|split]].
  - split.
    + destruct e as [[n|n|op [[m|m|op' x| |nm]|]| |nm]|]; simpl; intros E;
        try discriminate; injection E as E; apply Z.eqb_eq in E; subst; eauto.
    + intros [->|[op ->]]; simpl; now rewrite Z.eqb_refl.
  - split.
    + intros [msg E]. destruct e as [[n|n|op x| |nm]|]; simpl in E;
        try discriminate; reflexivity.
    + intros ->. simpl. eauto.
  - reflexivity.
  - reflexivity.
Qed.

(** X17.  [IsErrnoSys(err, errno)] is true for exactly the bare
    [syscall.Errno] value [errno] and an [*OpError] whose [Errno] field is
    that value; an LMDB [Errno] of the same number does not count. *)
Theorem IsErrnoSys_spec (e : lmdb.goerror) (errno : Z) :
  (lmdb.IsErrnoSys e errno = lmdb.Value true <->
     e = Some (lmdb.SysErrno errno) \/
     exists op, e = Some (lmdb.OpError op (Some (lmdb.SysErrno errno)))) /\
  (forall n, lmdb.IsErrnoSys (Some (lmdb.Errno n)) errno = lmdb.Value false) /\
  (forall op n,
     lmdb.IsErrnoSys (Some (lmdb.OpError op (Some (lmdb.Errno n)))) errno =
     lmdb.Value false).
Proof.
  split; [|split].
  - split.
    + destruct e as [[n|n|op [[m|m|op' x| |nm]|]| |nm]|]; simpl; intros E;
        try discriminate; injection E as E; apply Z.eqb_eq in E; subst; eauto.
    + intros [->|[op ->]]; simpl; now rewrite Z.eqb_refl.
  - reflexivity.
  - reflexivity.
Qed.

(** X18.  The two families of error numbers are never confused: no error
    value satisfies both [IsErrno] (for some LMDB code) and [IsErrnoSys]
    (for some system code). *)
Theorem errno_kinds_disjoint (e : lmdb.goerror) (errno sys : Z) :
  lmdb.IsErrno e errno = lmdb.Value true ->
  lmdb.IsErrnoSys e sys = lmdb.Value false.
Proof.
  destruct e as [[n|n|op [[m|m|op' x| |nm]|]| |nm]|]; simpl; intros E;
    try discriminate; reflexivity.
Qed.

Lemma operrno_cases (op : string) (ret : Z) :
  (ret = lmdb.MDB_SUCCESS /\ lmdb.operrno op ret = None) \/
  (ret <> lmdb.MDB_SUCCESS /\ lmdb.minErrno <= ret <= lmdb.maxErrno /\
   lmdb.operrno op ret = Some (lmdb.OpError op (Some (lmdb.Errno ret)))) \/
  (ret <> lmdb.MDB_SUCCESS /\ ~ (lmdb.minErrno <= ret <= lmdb.maxErrno) /\
   lmdb.operrno op ret =
     Some (lmdb.OpError op (Some (lmdb.SysErrno (lmdb.uintptr ret))))).
Proof.
  unfold lmdb.operrno.
  destruct (ret =? lmdb.MDB_SUCCESS) eqn:E0.
  - apply Z.eqb_eq in E0. now left.
  - apply Z.eqb_neq in E0. right.
    destruct (lmdb.minErrno <=? ret) eqn:E1; destruct (ret <=? lmdb.maxErrno) eqn:E2;
      simpl; rewrite ?Z.leb_le, ?Z.leb_gt in *;
      [left; repeat split; auto|right..]; (split; [auto|split; [lia|reflexivity]]).
Qed.

Lemma operrno_IsErrno (op : string) (ret errno : Z) :
  lmdb.IsErrno (lmdb.operrno op ret) errno = lmdb.Value true <->
  ret <> lmdb.MDB_SUCCESS /\ lmdb.minErrno <= ret <= lmdb.maxErrno /\ errno = ret.
Proof.
  destruct (operrno_cases op ret) as [[H0 E]|[(H0 & Hr & E)|(H0 & Hr & E)]];
    rewrite E; simpl.
  - split; [discriminate|tauto].
  - split.
    + intros [= E1]. apply Z.eqb_eq in E1. subst. tauto.
    + intros (_ & _ & ->). now rewrite Z.eqb_refl.
  - split; [discriminate|tauto].
Qed.

(** X19.  What [operrno] makes of a return code, as its callers see it
    through the predicates: nil for [MDB_SUCCESS] and for nothing else; for
    a code between [minErrno] and [maxErrno] an error that [IsErrno]
    recognises as that code and as no other, and that is no system error;
    for any other code an error that [IsErrnoSys] recognises as the code
    converted to [uintptr], and that is no LMDB error. *)
Theorem operrno_classifies (op : string) (ret errno sys : Z) :
  (lmdb.operrno op ret = None <-> ret = lmdb.MDB_SUCCESS) /\
  (lmdb.IsErrno (lmdb.operrno op ret) errno = lmdb.Value true <->
     ret <> lmdb.MDB_SUCCESS /\ lmdb.minErrno <= ret <= lmdb.maxErrno /\
     errno = ret) /\
  (lmdb.IsErrnoSys (lmdb.operrno op ret) sys = lmdb.Value true <->
     ret <> lmdb.MDB_SUCCESS /\ ~ (lmdb.minErrno <= ret <= lmdb.maxErrno) /\
     sys = lmdb.uintptr ret).
Proof.
  split; [|split; [apply operrno_IsErrno|]];
    destruct (operrno_cases op ret) as [[H0 E]|[(H0 & Hr & E)|(H0 & Hr & E)]];
    rewrite E; simpl.
  - tauto.
  - split; [discriminate|tauto].
  - split; [discriminate|tauto].
  - split; [discriminate|tauto].
  - split; [discriminate|tauto].
  - split.
    + intros [= E1]. apply Z.eqb_eq in E1. subst. tauto.
    + intros (_ & _ & ->). now rewrite Z.eqb_refl.
Qed.

(** X20.  When the codes behind [NotFound], [MapFull] and [MapResized]
    are LMDB codes (inside [minErrno, maxErrno], and not [MDB_SUCCESS]),
    each of [IsNotFound], [IsMapFull], [IsMapResized] holds of
    [operrno(op, ret)] exactly when [ret] is its code. *)
Theorem named_codes_recognised (op : string) (ret : Z) :
  lmdb.minErrno <= lmdb.MDB_NOTFOUND <= lmdb.maxErrno ->
  lmdb.minErrno <= lmdb.MDB_MAP_FULL <= lmdb.maxErrno ->
  lmdb.minErrno <= lmdb.MDB_MAP_RESIZED <= lmdb.maxErrno ->
  lmdb.MDB_NOTFOUND <> lmdb.MDB_SUCCESS ->
  lmdb.MDB_MAP_FULL <> lmdb.MDB_SUCCESS ->
  lmdb.MDB_MAP_RESIZED <> lmdb.MDB_SUCCESS ->
  (lmdb.IsNotFound (lmdb.operrno op ret) = lmdb.Value true <->
     ret = lmdb.MDB_NOTFOUND) /\
  (lmdb.IsMapFull (lmdb.operrno op ret) = lmdb.Value true <->
     ret = lmdb.MDB_MAP_FULL) /\
  (lmdb.IsMapResized (lmdb.operrno op ret) = lmdb.Value true <->
     ret = lmdb.MDB_MAP_RESIZED).
Proof.
  intros R1 R2 R3 N1 N2 N3.
  unfold lmdb.IsNotFound, lmdb.IsMapFull, lmdb.IsMapResized,
    lmdb.NotFound, lmdb.MapFull, lmdb.MapResized.
  rewrite !operrno_IsErrno.
  split; [|split];
    (split; [intros (_ & _ & ->); reflexivity|intros ->; tauto]).
Qed.

End ErrorPredicates.

(** * The properties on the reference engine *)

#[local] Existing Instance Sim.engine.

(** A run of three callers: both requests are executed, in the order they
    entered the queue; the teardown is complete; nobody panicked. *)
Example sample_run :
  let c := crun 0 Sim.a_schedule (start Sim.after_New Sim.three_callers) in
  map res (enqueued c) = [0; 1]%nat /\
  map res (executed c) = [0; 1]%nat /\
  tlog c = teardown_seq /\
  pool c = [WkDone; UpdDone None;
            UpdDone (Some (OpError "mdb_del" Sim.NOTFOUND)); ClsDone] /\
  dead c = None.
Proof. vm_compute. repeat split. Qed.

(** A lone Close in the interleaved model leaves the [DB], the engine and
    the log as [Close] run by one caller does. *)
Example solo_Close_agrees :
  let c := crun 0 [1; 1; 1; 0; 1; 1]%nat (start Sim.after_New [ClsEnter]) in
  pool c = [WkDone; ClsDone] /\
  heap (shared c) = heap Sim.after_Close /\
  eng (shared c) = eng Sim.after_Close /\
  log (shared c) = log Sim.after_Close /\
  tlog c = teardown_seq.
Proof. vm_compute. repeat split. Qed.

(** The race of a sender with Close: a caller that has read [closed] as 0
    and sends after the queue was closed panics, and the process is dead. *)
Example racing_send_panics :
  let c := crun 0 [1; 2; 2; 2; 1]%nat
             (start Sim.after_New [UpdLoad Sim.put_k1; ClsEnter]) in
  dead c = Some "send on closed channel" /\
  tlog c = [TMarkClosed; TStopQueue].
Proof. vm_compute. repeat split. Qed.

(** Write then Read gives back the value; Delete then Read finds nothing. *)
Example write_read_delete :
  let s1 := Sim.ended (Write 0 "a" (Sim.B "k1") (Sim.B "v1") Sim.after_New) in
  let s2 := Sim.ended (Read 0 "a" (Sim.B "k1") s1) in
  let s3 := Sim.ended (Delete 0 "a" (Sim.B "k1") s2) in
  Sim.returned (Write 0 "a" (Sim.B "k1") (Sim.B "v1") Sim.after_New) = Some None /\
  Sim.returned (Read 0 "a" (Sim.B "k1") s1) = Some (Sim.B "v1", None) /\
  Sim.returned (Delete 0 "a" (Sim.B "k1") s2) = Some None /\
  Sim.returned (Read 0 "a" (Sim.B "k1") s3) =
    Some (None, Some (OpError "mdb_get" Sim.NOTFOUND)).
Proof. vm_compute. repeat split. Qed.

Lemma after_New_db : heap Sim.after_New !! 0%nat = Some (Sim.db_at Sim.after_New).
Proof. vm_compute. reflexivity. Defined.

Lemma after_New_returned :
  New "/d" ["a"; "b"] (Sim.boot []) = Returned (Some 0%nat, 0, None) Sim.after_New.
Proof. vm_compute. reflexivity. Defined.

Lemma after_Close_returned : Close 0 Sim.after_New = Returned tt Sim.after_Close.
Proof. vm_compute. reflexivity. Defined.

(** C1, witness: after New and Close on the reference engine. *)
Lemma closed_guard_witness :
  heap Sim.after_New !! 0%nat = Some (Sim.db_at Sim.after_New) /\
  closeOnce (Sim.db_at Sim.after_New) = OnceFresh /\
  Close 0 Sim.after_New = Returned tt Sim.after_Close /\
  Update 0 Sim.put_k1 Sim.after_Close = Returned (Some ErrDBClosed) Sim.after_Close /\
  View 0 Sim.put_k1 Sim.after_Close = Returned (Some ErrDBClosed) Sim.after_Close /\
  exists dbi e,
    validateArgs 0 "a" (Sim.B "k1") Sim.after_Close = Returned (dbi, e) Sim.after_Close /\
    Write 0 "a" (Sim.B "k1") (Sim.B "v1") Sim.after_Close =
      Returned (Some (match e with Some err => err | None => ErrDBClosed end))
        Sim.after_Close /\
    Delete 0 "a" (Sim.B "k1") Sim.after_Close =
      Returned (Some (match e with Some err => err | None => ErrDBClosed end))
        Sim.after_Close.
Proof.
  split; [exact after_New_db|]. split; [reflexivity|].
  split; [exact after_Close_returned|].
  exact (closed_guard 0 Sim.after_New Sim.after_Close (Sim.db_at Sim.after_New)
           after_New_db eq_refl after_Close_returned Sim.after_Close eq_refl
           Sim.put_k1 "a" (Sim.B "k1") (Sim.B "v1")).
Defined.

(** C1, counterexample.  After New and a Close that returned: Read of a
    registered name with a key that is not empty does not return
    [ErrDBClosed]; it calls [env.View] on the closed environment and
    returns what the engine answers.  And Write with an empty key returns
    [ErrEmptyKey], not [ErrDBClosed]. *)
Lemma closed_guard_counterexample :
  Close 0 Sim.after_New = Returned tt Sim.after_Close /\
  (exists s',
     Read 0 "a" (Sim.B "k1") Sim.after_Close =
       Returned (None, Some (OpError "mdb_txn_begin" Sim.EINVAL)) s' /\
     log s' = log Sim.after_Close ++
              [EvView 0%nat (Some (OpError "mdb_txn_begin" Sim.EINVAL))] /\
     In (EvClose 0%nat None) (log Sim.after_Close)) /\
  Write 0 "a" (Sim.B "") (Sim.B "v1") Sim.after_Close =
    Returned (Some ErrEmptyKey) Sim.after_Close /\
  Some ErrEmptyKey <> Some ErrDBClosed /\
  Some (OpError "mdb_txn_begin" Sim.EINVAL) <> Some ErrDBClosed.
Proof.
  split; [exact after_Close_returned|]. split.
  - eexists. split; [vm_compute; reflexivity|]. split; [vm_compute; reflexivity|].
    vm_compute. auto 20.
  - split; [vm_compute; reflexivity|]. split; discriminate.
Qed.

(** C2, on the reference engine with [env.Open] failing.  New returns a
    nil [*DB], 0 and the error of Open; the environment was created by
    NewEnv, no call of the run is a Close of it, and the engine still
    holds it open: the handle is leaked. *)
Theorem New_open_failure_leaks_env :
  let s := Sim.boot Sim.open_fails in
  let s' := Sim.ended (New "/d" ["a"; "b"] s) in
  New "/d" ["a"; "b"] s =
    Returned (None, 0, Some (OpError "mdb_env_open" Sim.EACCES)) s' /\
  log s' =
    [EvMkdirAll "/d" mode_0755 None; EvNewEnv (inr 0%nat);
     EvSetMaxDBs 0%nat 2 None; EvSetMapSize 0%nat MapSize None;
     EvOpen 0%nat "/d" 0 mode_0644 (Some (OpError "mdb_env_open" Sim.EACCES))] /\
  (forall ev, In ev (log s') -> ~ is_close_of 0%nat ev) /\
  Sim.shut <$> (Sim.envs (eng s') !! 0%nat) = Some false.
Proof.
  cbv zeta. split; [vm_compute; reflexivity|].
  split; [vm_compute; reflexivity|]. split; [|vm_compute; reflexivity].
  intros ev Hin [cerr ->]. vm_compute in Hin.
  repeat (destruct Hin as [Hin|Hin]; [discriminate|]). exact Hin.
Qed.



(** C5, witness: a second Close after the first, and three concurrent
    callers run to the end, on the [DB] that New returned. *)
Lemma Close_exactly_once_witness :
  heap Sim.after_New !! 0%nat = Some (Sim.db_at Sim.after_New) /\
  closeOnce (Sim.db_at Sim.after_New) = OnceFresh /\
  Close 0 Sim.after_Close = Returned tt Sim.after_Close /\
  let c := crun 0 Sim.a_schedule (start Sim.after_New Sim.three_callers) in
  (exists k, tlog c = take k teardown_seq) /\
  (length (stages (pool c)) <= 1)%nat /\
  In ClsDone (pool c) /\ tlog c = teardown_seq /\
  In TDrained (tlog c) /\
  enqueued c = executed c /\ pool c !! 0%nat = Some WkDone.
Proof.
  assert (Ho : closeOnce (Sim.db_at Sim.after_New) = OnceFresh)
    by (vm_compute; reflexivity).
  assert (Hw : wg (Sim.db_at Sim.after_New) = 1) by (vm_compute; reflexivity).
  assert (Hb : buf (uOps (Sim.db_at Sim.after_New)) = [])
    by (vm_compute; reflexivity).
  assert (Hc : Forall (fun t => is_entry t = true) Sim.three_callers)
    by (repeat constructor).
  assert (Hdone : In ClsDone
            (pool (crun 0 Sim.a_schedule (start Sim.after_New Sim.three_callers))))
    by (vm_compute; auto 10).
  assert (Hdr : In TDrained
            (tlog (crun 0 Sim.a_schedule (start Sim.after_New Sim.three_callers))))
    by (vm_compute; auto 10).
  split; [exact after_New_db|]. split; [exact Ho|].
  destruct (Close_exactly_once 0 Sim.after_New (Sim.db_at Sim.after_New)
              after_New_db Ho) as [Hseq Hconc].
  split; [exact (Hseq Sim.after_Close after_Close_returned)|].
  destruct (Hconc Sim.three_callers Sim.a_schedule Hc) as (H1 & H2 & H3 & H4).
  cbv zeta. split; [exact H1|]. split; [exact H2|]. split; [exact Hdone|].
  split; [exact (H3 Hdone)|]. split; [exact Hdr|]. exact (H4 Hw Hb Hdr).
Defined.

(** C6, witness: the names "a", "a". *)
Lemma New_rejects_duplicates_witness :
  ~ NoDup ["a"; "a"] /\
  New "/d" ["a"; "a"] (Sim.boot []) =
    Returned (None, 0, Some ErrDuplicateDbName) (Sim.boot []).
Proof.
  assert (Hd : ~ NoDup ["a"; "a"]).
  { intros H. apply NoDup_cons in H as [Hin _]. apply Hin. left. }
  split; [exact Hd|].
  exact (New_rejects_duplicates "/d" ["a"; "a"] (Sim.boot []) Hd).
Defined.

(** C7, witness: a name that is not registered, with a key. *)
Lemma invalid_arguments_rejected_witness :
  heap Sim.after_New !! 0%nat = Some (Sim.db_at Sim.after_New) /\
  dbs (Sim.db_at Sim.after_New) !! "missing-db" = None /\
  exists e,
    (e = ErrDbNameNotFound \/ e = ErrEmptyKey) /\
    Read 0 "missing-db" (Sim.B "k") Sim.after_New =
      Returned (None, Some e) Sim.after_New /\
    Write 0 "missing-db" (Sim.B "k") (Sim.B "v") Sim.after_New =
      Returned (Some e) Sim.after_New /\
    Delete 0 "missing-db" (Sim.B "k") Sim.after_New =
      Returned (Some e) Sim.after_New /\
    (~ empty_key (Sim.B "k") -> e = ErrDbNameNotFound) /\
    (is_Some (dbs (Sim.db_at Sim.after_New) !! "missing-db") ->
     "missing-db" <> "" -> e = ErrEmptyKey).
Proof.
  assert (Hn : dbs (Sim.db_at Sim.after_New) !! "missing-db" = None)
    by (vm_compute; reflexivity).
  split; [exact after_New_db|]. split; [exact Hn|].
  exact (invalid_arguments_rejected 0 (Sim.db_at Sim.after_New) "missing-db"
           (Sim.B "k") (Sim.B "v") Sim.after_New after_New_db (or_introl Hn)).
Defined.

(** C8, witness: the transaction for "b" fails. *)
Lemma New_dbi_failure_witness :
  let s := Sim.boot Sim.second_dbi_fails in
  let s' := Sim.ended (New "/d" ["a"; "b"] s) in
  let err := OpError "mdb_dbi_open" Sim.DBS_FULL in
  New "/d" ["a"; "b"] s = Returned (None, 0, Some err) s' /\
  log s' = log s ++ log s' /\
  In (EvUpdate 0%nat "b" (Some err)) (log s') /\
  exists n pre cerr,
    log s' = pre ++ [EvUpdate 0%nat "b" (Some err); EvClose 0%nat cerr] /\
    In (EvReaderCheck 0%nat n None) pre /\
    ((None, 0, Some err) : NewResult) = (None, n, Some err) /\
    heap s' = heap s /\ workers s' = workers s.
Proof.
  cbv zeta.
  assert (H1 : New "/d" ["a"; "b"] (Sim.boot Sim.second_dbi_fails) =
    Returned (None, 0, Some (OpError "mdb_dbi_open" Sim.DBS_FULL))
      (Sim.ended (New "/d" ["a"; "b"] (Sim.boot Sim.second_dbi_fails))))
    by (vm_compute; reflexivity).
  assert (H2 : log (Sim.ended (New "/d" ["a"; "b"] (Sim.boot Sim.second_dbi_fails))) =
    log (Sim.boot Sim.second_dbi_fails) ++
    log (Sim.ended (New "/d" ["a"; "b"] (Sim.boot Sim.second_dbi_fails))))
    by reflexivity.
  assert (H3 : In (EvUpdate 0%nat "b" (Some (OpError "mdb_dbi_open" Sim.DBS_FULL)))
    (log (Sim.ended (New "/d" ["a"; "b"] (Sim.boot Sim.second_dbi_fails)))))
    by (vm_compute; auto 20).
  split; [exact H1|]. split; [exact H2|]. split; [exact H3|].
  exact (New_dbi_failure "/d" ["a"; "b"] _ _ _ _ 0%nat "b" _ H1 H2 H3).
Defined.

(** C9, witness: New for "a", "b" on the reference engine with no
    fault.  No call fails; the run reaches [env.Open] after the two
    settings and returns a [DB] with an empty open queue of capacity
    1000. *)
Lemma New_configuration_witness :
  NoDup ["a"; "b"] /\
  (forall ev, In ev (log Sim.after_New) -> call_failed ev = false) /\
  New "/d" ["a"; "b"] (Sim.boot []) = Returned (Some 0%nat, 0, None) Sim.after_New /\
  exists d rest,
    heap Sim.after_New = [d] /\
    cap (uOps d) = 1000%nat /\ buf (uOps d) = [] /\
    is_closed (uOps d) = false /\
    log Sim.after_New =
      [EvMkdirAll "/d" mode_0755 None; EvNewEnv (inr (env d));
       EvSetMaxDBs (env d) 2 None;
       EvSetMapSize (env d) 10737418240 None;
       EvOpen (env d) "/d" 0 mode_0644 None] ++ rest.
Proof.
  assert (Hnd : NoDup ["a"; "b"]).
  { apply NoDup_cons. split; [|apply NoDup_singleton].
    intros H. apply list_elem_of_In in H. destruct H as [H|[]]. discriminate. }
  assert (Hok : forall ev, In ev (log Sim.after_New) -> call_failed ev = false).
  { intros ev Hin. vm_compute in Hin.
    repeat (destruct Hin as [<-|Hin]; [reflexivity|]). destruct Hin. }
  split; [exact Hnd|]. split; [exact Hok|]. split; [exact after_New_returned|].
  destruct (New_configuration "/d" ["a"; "b"] (Sim.boot []))
    as (_ & _ & r & s' & evs & Hrun & Hlog & _ & _ & Hforce).
  rewrite after_New_returned in Hrun. apply Returned_inj in Hrun as [<- <-].
  change (log Sim.after_New = evs) in Hlog. subst evs.
  destruct (Hforce (or_introl (conj Hnd Hok)))
    as (p & d & rest & _ & _ & _ & Hh & Hc & Hb & Hcl & Hevs).
  exists d, rest. split; [exact Hh|]. split; [exact Hc|]. split; [exact Hb|].
  split; [exact Hcl|exact Hevs].
Defined.

(** C10, witness: the empty name with a key; a name that is not
    registered with an empty key. *)
Lemma validation_order_witness :
  (Read 0 "" (Sim.B "k") Sim.after_New =
     Returned (None, Some ErrDbNameNotFound) Sim.after_New) /\
  "zzz" <> "" /\ empty_key (Sim.B "") /\
  dbs (Sim.db_at Sim.after_New) !! "zzz" = None /\
  validateArgs 0 "zzz" (Sim.B "") Sim.after_New =
    Returned (0, Some ErrEmptyKey) Sim.after_New /\
  Write 0 "zzz" (Sim.B "") (Sim.B "v") Sim.after_New =
    Returned (Some ErrEmptyKey) Sim.after_New.
Proof.
  assert (Hn : "zzz" <> "") by discriminate.
  assert (Hk : empty_key (Sim.B "")) by (right; reflexivity).
  destruct (validation_order 0 "" (Sim.B "k") (Sim.B "v") Sim.after_New)
    as [Hempty _].
  destruct (validation_order 0 "zzz" (Sim.B "") (Sim.B "v") Sim.after_New)
    as [_ Hkey].
  destruct (Hempty eq_refl) as (_ & _ & HR & _).
  destruct (Hkey Hn Hk) as (HV & _ & _ & HW & _).
  split; [exact HR|]. split; [exact Hn|]. split; [exact Hk|].
  split; [vm_compute; reflexivity|]. split; [exact HV|exact HW].
Defined.

#[local] Existing Instance lmdb.lmdb_h.

(** X1, witness: New for "a", "b" returns the first [DB] of the heap. *)
Lemma New_db_or_error_witness :
  New "/d" ["a"; "b"] (Sim.boot []) = Returned (Some 0%nat, 0, None) Sim.after_New /\
  mail Sim.after_New = mail (Sim.boot []) /\
  nchan Sim.after_New = nchan (Sim.boot []) /\
  ((exists p n d, ((Some 0%nat, 0, None) : NewResult) = (Some p, n, None) /\
      p = length (heap (Sim.boot [])) /\
      heap Sim.after_New = heap (Sim.boot []) ++ [d] /\
      workers Sim.after_New = workers (Sim.boot []) ++ [p]) \/
   (exists n err, ((Some 0%nat, 0, None) : NewResult) = (None, n, Some err) /\
      heap Sim.after_New = heap (Sim.boot []) /\
      workers Sim.after_New = workers (Sim.boot []))).
Proof.
  split; [exact after_New_returned|].
  exact (New_db_or_error "/d" ["a"; "b"] (Sim.boot []) _ _ after_New_returned).
Defined.

(** X2, witness: the [DB] that New returned for "a", "b". *)
Lemma New_registers_names_witness :
  New "/d" ["a"; "b"] (Sim.boot []) = Returned (Some 0%nat, 0, None) Sim.after_New /\
  exists d,
    heap Sim.after_New !! 0%nat = Some d /\
    GetDBis 0 Sim.after_New = Returned (dbs d) Sim.after_New /\
    dom (dbs d) = list_to_set ["a"; "b"] /\
    (forall (name : string) (key : bytes), ~ empty_key key ->
       (exists dbi,
          validateArgs 0 name key Sim.after_New = Returned (dbi, None) Sim.after_New) <->
       name ∈ ["a"; "b"] /\ name <> "").
Proof.
  split; [exact after_New_returned|].
  exact (New_registers_names "/d" ["a"; "b"] (Sim.boot []) 0%nat 0 Sim.after_New
           after_New_returned).
Defined.

(** X3, witness: the calls of New for "a", "b". *)
Lemma New_success_calls_witness :
  New "/d" ["a"; "b"] (Sim.boot []) = Returned (Some 0%nat, 0, None) Sim.after_New /\
  log Sim.after_New = log (Sim.boot []) ++ log Sim.after_New /\
  NoDup ["a"; "b"] /\
  exists d,
    heap Sim.after_New !! 0%nat = Some d /\
    log Sim.after_New =
      [EvMkdirAll "/d" mode_0755 None; EvNewEnv (inr (env d));
       EvSetMaxDBs (env d) (Z.of_nat (length ["a"; "b"])) None;
       EvSetMapSize (env d) MapSize None;
       EvOpen (env d) "/d" 0 mode_0644 None;
       EvReaderCheck (env d) 0 None] ++
      map (fun name => EvUpdate (env d) name None) ["a"; "b"].
Proof.
  assert (H2 : log Sim.after_New = log (Sim.boot []) ++ log Sim.after_New)
    by reflexivity.
  split; [exact after_New_returned|]. split; [exact H2|].
  exact (New_success_calls "/d" ["a"; "b"] (Sim.boot []) 0%nat 0 Sim.after_New
           (log Sim.after_New) after_New_returned H2).
Defined.

(** X4, witness: the reader check fails. *)
Lemma New_reader_check_failure_witness :
  let s := Sim.boot Sim.readers_fail in
  let s' := Sim.ended (New "/d" ["a"; "b"] s) in
  let err := OpError "mdb_reader_check" Sim.EINVAL in
  New "/d" ["a"; "b"] s = Returned (None, 0, Some err) s' /\
  log s' = log s ++ log s' /\
  In (EvReaderCheck 0%nat 0 (Some err)) (log s') /\
  exists pre cerr,
    log s' = pre ++ [EvReaderCheck 0%nat 0 (Some err); EvClose 0%nat cerr] /\
    In (EvOpen 0%nat "/d" 0 mode_0644 None) pre /\
    ((None, 0, Some err) : NewResult) = (None, 0, Some err) /\
    heap s' = heap s /\ workers s' = workers s.
Proof.
  cbv zeta.
  assert (H1 : New "/d" ["a"; "b"] (Sim.boot Sim.readers_fail) =
    Returned (None, 0, Some (OpError "mdb_reader_check" Sim.EINVAL))
      (Sim.ended (New "/d" ["a"; "b"] (Sim.boot Sim.readers_fail))))
    by (vm_compute; reflexivity).
  assert (H2 : log (Sim.ended (New "/d" ["a"; "b"] (Sim.boot Sim.readers_fail))) =
    log (Sim.boot Sim.readers_fail) ++
    log (Sim.ended (New "/d" ["a"; "b"] (Sim.boot Sim.readers_fail))))
    by reflexivity.
  assert (H3 : In (EvReaderCheck 0%nat 0 (Some (OpError "mdb_reader_check" Sim.EINVAL)))
    (log (Sim.ended (New "/d" ["a"; "b"] (Sim.boot Sim.readers_fail)))))
    by (vm_compute; auto 20).
  split; [exact H1|]. split; [exact H2|]. split; [exact H3|].
  exact (New_reader_check_failure "/d" ["a"; "b"] _ _ _ _ 0%nat 0 _ H1 H2 H3).
Defined.

(** X5, witness: the directory cannot be made. *)
Lemma New_early_failure_witness :
  let s := Sim.boot Sim.mkdir_fails in
  let s' := Sim.ended (New "/d" ["a"; "b"] s) in
  let err := PathError "mkdir" "/d" Sim.EACCES in
  New "/d" ["a"; "b"] s = Returned (None, 0, Some err) s' /\
  log s' = log s ++ log s' /\
  In (EvMkdirAll "/d" mode_0755 (Some err)) (log s') /\
  ((None, 0, Some err) : NewResult) = (None, 0, Some err) /\
  (log s' = [EvMkdirAll "/d" mode_0755 (Some err)] \/
   log s' = [EvMkdirAll "/d" mode_0755 None; EvNewEnv (inl err)]) /\
  heap s' = heap s /\ workers s' = workers s.
Proof.
  cbv zeta.
  assert (H1 : New "/d" ["a"; "b"] (Sim.boot Sim.mkdir_fails) =
    Returned (None, 0, Some (PathError "mkdir" "/d" Sim.EACCES))
      (Sim.ended (New "/d" ["a"; "b"] (Sim.boot Sim.mkdir_fails))))
    by (vm_compute; reflexivity).
  assert (H2 : log (Sim.ended (New "/d" ["a"; "b"] (Sim.boot Sim.mkdir_fails))) =
    log (Sim.boot Sim.mkdir_fails) ++
    log (Sim.ended (New "/d" ["a"; "b"] (Sim.boot Sim.mkdir_fails))))
    by reflexivity.
  assert (H3 : In (EvMkdirAll "/d" mode_0755 (Some (PathError "mkdir" "/d" Sim.EACCES)))
    (log (Sim.ended (New "/d" ["a"; "b"] (Sim.boot Sim.mkdir_fails)))))
    by (vm_compute; auto 20).
  split; [exact H1|]. split; [exact H2|]. split; [exact H3|].
  exact (New_early_failure "/d" ["a"; "b"] _ _ _ _ _ H1 H2 (or_introl H3)).
Defined.

(** X6, witness: a Read and a View on the [DB] that New returned. *)
Lemma reads_bypass_queue_witness :
  let s := Sim.after_New in
  let d := Sim.db_at Sim.after_New in
  let s1 := Sim.ended (Read 0 "a" (Sim.B "k1") s) in
  let s2 := Sim.ended (View 0 Sim.put_k1 s) in
  let r1 : bytes * goerr := (None, Some (OpError "mdb_get" Sim.NOTFOUND)) in
  let e2 : goerr := Some (OpError "mdb_put" Sim.EACCES) in
  heap s !! 0%nat = Some d /\ closed d = 0 /\
  Read 0 "a" (Sim.B "k1") s = Returned r1 s1 /\
  View 0 Sim.put_k1 s = Returned e2 s2 /\
  same_go s s1 /\ log s1 = log s ++ [EvView (env d) (snd r1)] /\
  same_go s s2 /\ log s2 = log s ++ [EvView (env d) e2].
Proof.
  cbv zeta.
  assert (Hc : closed (Sim.db_at Sim.after_New) = 0) by reflexivity.
  assert (H1 : Read 0 "a" (Sim.B "k1") Sim.after_New =
    Returned (None, Some (OpError "mdb_get" Sim.NOTFOUND))
      (Sim.ended (Read 0 "a" (Sim.B "k1") Sim.after_New)))
    by (vm_compute; reflexivity).
  assert (H2 : View 0 Sim.put_k1 Sim.after_New =
    Returned (Some (OpError "mdb_put" Sim.EACCES))
      (Sim.ended (View 0 Sim.put_k1 Sim.after_New)))
    by (vm_compute; reflexivity).
  destruct (reads_bypass_queue 0 Sim.after_New (Sim.db_at Sim.after_New) "a"
              (Sim.B "k1") Sim.put_k1 after_New_db Hc) as [HR HV].
  destruct (HR _ _ H1) as (Hgo1 & [(Hs & _ & _)|(dbi & _ & _ & Hl1)]).
  - exfalso. apply (f_equal (fun x => length (log x))) in Hs.
    vm_compute in Hs. discriminate.
  - destruct (HV _ _ H2) as (Hgo2 & _ & Hl2).
    split; [exact after_New_db|]. split; [exact Hc|]. split; [exact H1|].
    split; [exact H2|]. split; [exact Hgo1|]. split; [exact Hl1|].
    split; [exact Hgo2|exact Hl2].
Defined.

Lemma after_New_at_rest : at_rest (Sim.db_at Sim.after_New).
Proof.
  split; [reflexivity|]. split; [reflexivity|]. split; [reflexivity|].
  vm_compute. lia.
Defined.

Lemma k1_not_empty : ~ empty_key (Sim.B "k1").
Proof. intros [H|H]; discriminate. Defined.

(** X7, witness: a Write then a Read of "k1" in "a". *)
Lemma Write_then_Read_witness :
  heap Sim.after_New !! 0%nat = Some (Sim.db_at Sim.after_New) /\
  at_rest (Sim.db_at Sim.after_New) /\
  workers Sim.after_New = [0%nat] /\ mail Sim.after_New = ∅ /\
  "a" <> "" /\ ~ empty_key (Sim.B "k1") /\
  dbs (Sim.db_at Sim.after_New) !! "a" = Some 2 /\
  exists e1 w1 r2 w2 s1 s2,
    env_UpdateLocked (env (Sim.db_at Sim.after_New))
      (fun txn => txn_Put txn 2 (Sim.B "k1") (Sim.B "v1") 0) (eng Sim.after_New) =
      (e1, w1) /\
    env_View (env (Sim.db_at Sim.after_New)) None
      (fun txn => txn_Get txn 2 (Sim.B "k1")) w1 = (r2, w2) /\
    Write 0 "a" (Sim.B "k1") (Sim.B "v1") Sim.after_New = Returned e1 s1 /\
    Read 0 "a" (Sim.B "k1") s1 = Returned r2 s2 /\
    eng s1 = w1 /\ eng s2 = w2 /\
    heap s2 = heap Sim.after_New /\ workers s2 = workers Sim.after_New /\
    mail s2 = mail Sim.after_New /\
    log s2 = log Sim.after_New ++
      [EvUpdateLocked (env (Sim.db_at Sim.after_New)) e1;
       EvView (env (Sim.db_at Sim.after_New)) (snd r2)].
Proof.
  assert (Hw : workers Sim.after_New = [0%nat]) by reflexivity.
  assert (Hm : mail Sim.after_New = ∅) by reflexivity.
  assert (Hn : "a" <> "") by discriminate.
  assert (Hl : dbs (Sim.db_at Sim.after_New) !! "a" = Some 2)
    by (vm_compute; reflexivity).
  split; [exact after_New_db|]. split; [exact after_New_at_rest|].
  split; [exact Hw|]. split; [exact Hm|]. split; [exact Hn|].
  split; [exact k1_not_empty|]. split; [exact Hl|].
  exact (Write_then_Read 0 Sim.after_New (Sim.db_at Sim.after_New) "a"
           (Sim.B "k1") (Sim.B "v1") 2 after_New_db after_New_at_rest Hw Hm Hn
           k1_not_empty Hl).
Defined.

(** X8, witness: Close on the [DB] that New returned. *)
Lemma Close_at_rest_witness :
  heap Sim.after_New !! 0%nat = Some (Sim.db_at Sim.after_New) /\
  at_rest (Sim.db_at Sim.after_New) /\
  closeOnce (Sim.db_at Sim.after_New) = OnceFresh /\
  wg (Sim.db_at Sim.after_New) = 1 /\
  workers Sim.after_New = [0%nat] /\
  Close 0 Sim.after_New =
    let r := env_Close (env (Sim.db_at Sim.after_New)) (eng Sim.after_New) in
    Returned tt
      (mkState (<[0%nat := closed_db (Sim.db_at Sim.after_New)]> (heap Sim.after_New))
               [] (mail Sim.after_New) (nchan Sim.after_New)
               (snd r) (log Sim.after_New ++
                        [EvClose (env (Sim.db_at Sim.after_New)) (fst r)])).
Proof.
  assert (Ho : closeOnce (Sim.db_at Sim.after_New) = OnceFresh)
    by (vm_compute; reflexivity).
  assert (Hg : wg (Sim.db_at Sim.after_New) = 1) by (vm_compute; reflexivity).
  assert (Hw : workers Sim.after_New = [0%nat]) by reflexivity.
  split; [exact after_New_db|]. split; [exact after_New_at_rest|].
  split; [exact Ho|]. split; [exact Hg|]. split; [exact Hw|].
  exact (Close_at_rest 0 Sim.after_New (Sim.db_at Sim.after_New)
           after_New_db after_New_at_rest Ho Hg Hw).
Defined.

(** X9, witness: the race on the [DB] that New returned. *)
Lemma Update_racing_Close_panics_witness :
  heap Sim.after_New !! 0%nat = Some (Sim.db_at Sim.after_New) /\
  closed (Sim.db_at Sim.after_New) = 0 /\
  closeOnce (Sim.db_at Sim.after_New) = OnceFresh /\
  is_closed (uOps (Sim.db_at Sim.after_New)) = false /\
  let c := crun 0 [1; 2; 2; 2; 1]%nat
             (start Sim.after_New [UpdLoad Sim.put_k1; ClsEnter]) in
  dead c = Some "send on closed channel" /\
  pool c = [WkRecv; UpdSend Sim.put_k1; ClsWait] /\
  tlog c = [TMarkClosed; TStopQueue] /\
  enqueued c = [] /\ log (shared c) = log Sim.after_New.
Proof.
  assert (Hc : closed (Sim.db_at Sim.after_New) = 0) by (vm_compute; reflexivity).
  assert (Ho : closeOnce (Sim.db_at Sim.after_New) = OnceFresh)
    by (vm_compute; reflexivity).
  assert (Hq : is_closed (uOps (Sim.db_at Sim.after_New)) = false)
    by (vm_compute; reflexivity).
  split; [exact after_New_db|]. split; [exact Hc|]. split; [exact Ho|].
  split; [exact Hq|].
  exact (Update_racing_Close_panics 0 Sim.after_New (Sim.db_at Sim.after_New)
           Sim.put_k1 after_New_db Hc Ho Hq).
Defined.

(** X10, witness: the run of the race, which dies. *)
Lemma only_a_late_send_panics_witness :
  heap Sim.after_New !! 0%nat = Some (Sim.db_at Sim.after_New) /\
  closeOnce (Sim.db_at Sim.after_New) = OnceFresh /\
  wg (Sim.db_at Sim.after_New) = 1 /\
  is_closed (uOps (Sim.db_at Sim.after_New)) = false /\
  Forall (fun t => is_entry t = true) Sim.two_callers /\
  let c := crun 0 Sim.a_race (start Sim.after_New Sim.two_callers) in
  dead c = Some "send on closed channel" /\
  "send on closed channel" = "send on closed channel" /\
  In TStopQueue (tlog c) /\
  exists i o, pool c !! i = Some (UpdSend o).
Proof.
  assert (Ho : closeOnce (Sim.db_at Sim.after_New) = OnceFresh)
    by (vm_compute; reflexivity).
  assert (Hg : wg (Sim.db_at Sim.after_New) = 1) by (vm_compute; reflexivity).
  assert (Hq : is_closed (uOps (Sim.db_at Sim.after_New)) = false)
    by (vm_compute; reflexivity).
  assert (Hc : Forall (fun t => is_entry t = true) Sim.two_callers)
    by (repeat constructor).
  assert (Hd : dead (crun 0 Sim.a_race (start Sim.after_New Sim.two_callers)) =
               Some "send on closed channel") by (vm_compute; reflexivity).
  split; [exact after_New_db|]. split; [exact Ho|]. split; [exact Hg|].
  split; [exact Hq|]. split; [exact Hc|]. cbv zeta. split; [exact Hd|].
  exact (only_a_late_send_panics 0 Sim.after_New (Sim.db_at Sim.after_New)
           Sim.two_callers Sim.a_race "send on closed channel"
           after_New_db Ho Hg Hq Hc Hd).
Defined.

(** X11, witness: three callers on the [DB] that New returned, whose
    queue has room for 1000 requests. *)
Lemma queue_bounded_witness :
  heap Sim.after_New !! 0%nat = Some (Sim.db_at Sim.after_New) /\
  (length (buf (uOps (Sim.db_at Sim.after_New))) <=
   cap (uOps (Sim.db_at Sim.after_New)))%nat /\
  cap (uOps (Sim.db_at Sim.after_New)) = 1000%nat /\
  let c := crun 0 Sim.a_schedule (start Sim.after_New Sim.three_callers) in
  exists d', heap (shared c) !! 0%nat = Some d' /\
    cap (uOps d') = cap (uOps (Sim.db_at Sim.after_New)) /\
    (length (buf (uOps d')) <= cap (uOps (Sim.db_at Sim.after_New)))%nat /\
    (length (buf (uOps d')) = cap (uOps (Sim.db_at Sim.after_New)) ->
     is_closed (uOps d') = false ->
     forall i o, pool c !! i = Some (UpdSend o) -> cstep 0 i c = None).
Proof.
  assert (Hb : (length (buf (uOps (Sim.db_at Sim.after_New))) <=
                cap (uOps (Sim.db_at Sim.after_New)))%nat)
    by (vm_compute; lia).
  split; [exact after_New_db|]. split; [exact Hb|].
  split; [vm_compute; reflexivity|].
  exact (queue_bounded 0 Sim.after_New (Sim.db_at Sim.after_New)
           Sim.three_callers Sim.a_schedule after_New_db Hb).
Defined.

(** X12, witness: a Close that has stored the flag, and a caller about to
    enter Update. *)
Lemma late_Update_refused_witness :
  heap Sim.after_New !! 0%nat = Some (Sim.db_at Sim.after_New) /\
  let c := crun 0 [2; 2]%nat (start Sim.after_New Sim.two_callers) in
  In TMarkClosed (tlog c) /\
  (exists d', heap (shared c) !! 0%nat = Some d' /\ closed d' = 1) /\
  (dead c = None ->
   forall i o, pool c !! i = Some (UpdLoad o) ->
     cstep 0 i c =
       Some (mkC (shared c) (<[i := UpdDone (Some ErrDBClosed)]> (pool c))
                 (enqueued c) (executed c) (tlog c) None)).
Proof.
  assert (Hin : In TMarkClosed
            (tlog (crun 0 [2; 2]%nat (start Sim.after_New Sim.two_callers))))
    by (vm_compute; auto).
  split; [exact after_New_db|]. cbv zeta. split; [exact Hin|].
  exact (late_Update_refused 0 Sim.after_New (Sim.db_at Sim.after_New)
           Sim.two_callers [2; 2]%nat after_New_db Hin).
Defined.

Lemma WrapGo_Close_returned :
  WrapGo.Close 0 Sim.after_New =
    Returned tt (Sim.ended (WrapGo.Close 0 Sim.after_New)).
Proof. vm_compute. reflexivity. Defined.

(** X13, witness: two Close of the earlier revision on the [DB] that New
    returned. *)
Lemma WrapGo_second_Close_panics_witness :
  let s1 := Sim.ended (WrapGo.Close 0 Sim.after_New) in
  heap Sim.after_New !! 0%nat = Some (Sim.db_at Sim.after_New) /\
  WrapGo.Close 0 Sim.after_New = Returned tt s1 /\
  WrapGo.Close 0 s1 = Panicked "close of closed channel" s1.
Proof.
  cbv zeta. split; [exact after_New_db|]. split; [exact WrapGo_Close_returned|].
  exact (WrapGo_second_Close_panics 0 Sim.after_New _ (Sim.db_at Sim.after_New)
           after_New_db WrapGo_Close_returned).
Defined.

(** X14, witness: a Write and a Delete of the earlier revision after its
    Close. *)
Lemma WrapGo_write_after_Close_panics_witness :
  let s1 := Sim.ended (WrapGo.Close 0 Sim.after_New) in
  heap Sim.after_New !! 0%nat = Some (Sim.db_at Sim.after_New) /\
  WrapGo.Close 0 Sim.after_New = Returned tt s1 /\
  "a" <> "" /\ ~ empty_key (Sim.B "k1") /\
  dbs (Sim.db_at Sim.after_New) !! "a" = Some 2 /\
  WrapGo.Write 0 "a" (Sim.B "k1") (Sim.B "v1") s1 =
    Panicked "send on closed channel" (set_nchan S s1) /\
  WrapGo.Delete 0 "a" (Sim.B "k1") s1 =
    Panicked "send on closed channel" (set_nchan S s1) /\
  (forall o, WrapGo.update 0 o s1 =
     Panicked "send on closed channel" (set_nchan S s1)).
Proof.
  assert (Hn : "a" <> "") by discriminate.
  assert (Hl : dbs (Sim.db_at Sim.after_New) !! "a" = Some 2)
    by (vm_compute; reflexivity).
  cbv zeta. split; [exact after_New_db|]. split; [exact WrapGo_Close_returned|].
  split; [exact Hn|]. split; [exact k1_not_empty|]. split; [exact Hl|].
  exact (WrapGo_write_after_Close_panics 0 Sim.after_New _ (Sim.db_at Sim.after_New)
           "a" (Sim.B "k1") (Sim.B "v1") 2 after_New_db WrapGo_Close_returned
           Hn k1_not_empty Hl).
Defined.

(** X15, witness: the two revisions on the open [DB] that New returned. *)
Lemma revisions_agree_while_open_witness :
  heap Sim.after_New !! 0%nat = Some (Sim.db_at Sim.after_New) /\
  closed (Sim.db_at Sim.after_New) = 0 /\
  (forall o, WrapGo.update 0 o Sim.after_New = Update 0 o Sim.after_New) /\
  (forall dbName key value,
     WrapGo.Write 0 dbName key value Sim.after_New =
     Write 0 dbName key value Sim.after_New) /\
  (forall dbName key,
     WrapGo.Delete 0 dbName key Sim.after_New = Delete 0 dbName key Sim.after_New) /\
  (forall dbName key s', WrapGo.Read 0 dbName key s' = Read 0 dbName key s').
Proof.
  assert (Hc : closed (Sim.db_at Sim.after_New) = 0) by (vm_compute; reflexivity).
  split; [exact after_New_db|]. split; [exact Hc|].
  exact (revisions_agree_while_open 0 Sim.after_New (Sim.db_at Sim.after_New)
           after_New_db Hc).
Defined.

(** X18, witness: the bare LMDB code for "not found". *)
Lemma errno_kinds_disjoint_witness :
  lmdb.IsErrno (Some (lmdb.Errno (-30798))) (-30798) = lmdb.Value true /\
  lmdb.IsErrnoSys (Some (lmdb.Errno (-30798))) 2 = lmdb.Value false.
Proof.
  assert (H : lmdb.IsErrno (Some (lmdb.Errno (-30798))) (-30798) = lmdb.Value true)
    by reflexivity.
  split; [exact H|].
  exact (errno_kinds_disjoint (Some (lmdb.Errno (-30798))) (-30798) 2 H).
Defined.

(** X20, witness: the codes of lmdb.h, and the return code of a get that
    found nothing. *)
Lemma named_codes_recognised_witness :
  lmdb.minErrno <= lmdb.MDB_NOTFOUND <= lmdb.maxErrno /\
  lmdb.minErrno <= lmdb.MDB_MAP_FULL <= lmdb.maxErrno /\
  lmdb.minErrno <= lmdb.MDB_MAP_RESIZED <= lmdb.maxErrno /\
  lmdb.MDB_NOTFOUND <> lmdb.MDB_SUCCESS /\
  lmdb.MDB_MAP_FULL <> lmdb.MDB_SUCCESS /\
  lmdb.MDB_MAP_RESIZED <> lmdb.MDB_SUCCESS /\
  (lmdb.IsNotFound (lmdb.operrno "mdb_get" (-30798)) = lmdb.Value true <->
     -30798 = lmdb.MDB_NOTFOUND) /\
  (lmdb.IsMapFull (lmdb.operrno "mdb_get" (-30798)) = lmdb.Value true <->
     -30798 = lmdb.MDB_MAP_FULL) /\
  (lmdb.IsMapResized (lmdb.operrno "mdb_get" (-30798)) = lmdb.Value true <->
     -30798 = lmdb.MDB_MAP_RESIZED).
Proof.
  assert (R1 : lmdb.minErrno <= lmdb.MDB_NOTFOUND <= lmdb.maxErrno)
    by (vm_compute; split; discriminate).
  assert (R2 : lmdb.minErrno <= lmdb.MDB_MAP_FULL <= lmdb.maxErrno)
    by (vm_compute; split; discriminate).
  assert (R3 : lmdb.minErrno <= lmdb.MDB_MAP_RESIZED <= lmdb.maxErrno)
    by (vm_compute; split; discriminate).
  assert (N1 : lmdb.MDB_NOTFOUND <> lmdb.MDB_SUCCESS) by discriminate.
  assert (N2 : lmdb.MDB_MAP_FULL <> lmdb.MDB_SUCCESS) by discriminate.
  assert (N3 : lmdb.MDB_MAP_RESIZED <> lmdb.MDB_SUCCESS) by discriminate.
  split; [exact R1|]. split; [exact R2|]. split; [exact R3|].
  split; [exact N1|]. split; [exact N2|]. split; [exact N3|].
  exact (named_codes_recognised "mdb_get" (-30798) R1 R2 R3 N1 N2 N3).
Defined.

(** X21, witness: three callers run to the end on the [DB] that New
    returned. *)
Lemma no_transaction_after_env_Close_witness :
  heap Sim.after_New !! 0%nat = Some (Sim.db_at Sim.after_New) /\
  closeOnce (Sim.db_at Sim.after_New) = OnceFresh /\
  wg (Sim.db_at Sim.after_New) = 1 /\
  Forall (fun t => is_entry t = true) Sim.three_callers /\
  let c := crun 0 Sim.a_schedule (start Sim.after_New Sim.three_callers) in
  exists ups cls,
    log (shared c) = log Sim.after_New ++ ups ++ cls /\
    Forall (fun ev => exists err,
              ev = EvUpdateLocked (env (Sim.db_at Sim.after_New)) err) ups /\
    (cls = [] \/ exists err, cls = [EvClose (env (Sim.db_at Sim.after_New)) err]).
Proof.
  assert (Ho : closeOnce (Sim.db_at Sim.after_New) = OnceFresh)
    by (vm_compute; reflexivity).
  assert (Hg : wg (Sim.db_at Sim.after_New) = 1) by (vm_compute; reflexivity).
  assert (Hc : Forall (fun t => is_entry t = true) Sim.three_callers)
    by (repeat constructor).
  split; [exact after_New_db|]. split; [exact Ho|]. split; [exact Hg|].
  split; [exact Hc|].
  exact (no_transaction_after_env_Close 0 Sim.after_New (Sim.db_at Sim.after_New)
           Sim.three_callers Sim.a_schedule after_New_db Ho Hg Hc).
Defined.

(** X22, witness: a Close that has closed the queue, then the caller of
    Update. *)
Lemma no_request_after_stop_witness :
  heap Sim.after_New !! 0%nat = Some (Sim.db_at Sim.after_New) /\
  let c1 := crun 0 [2; 2; 2]%nat (start Sim.after_New Sim.two_callers) in
  In TStopQueue (tlog c1) /\
  (exists d1, heap (shared c1) !! 0%nat = Some d1 /\ is_closed (uOps d1) = true) /\
  enqueued (crun 0 [1; 1]%nat c1) = enqueued c1.
Proof.
  assert (Hin : In TStopQueue
            (tlog (crun 0 [2; 2; 2]%nat (start Sim.after_New Sim.two_callers))))
    by (vm_compute; auto).
  split; [exact after_New_db|]. cbv zeta. split; [exact Hin|].
  exact (no_request_after_stop 0 Sim.after_New (Sim.db_at Sim.after_New)
           Sim.two_callers [2; 2; 2]%nat [1; 1]%nat after_New_db Hin).
Defined.

(** X23, witness: two requests sent, the worker holding the result of
    the first. *)
Lemma worker_send_finds_receiver_witness :
  heap Sim.after_New !! 0%nat = Some (Sim.db_at Sim.after_New) /\
  buf (uOps (Sim.db_at Sim.after_New)) = [] /\
  Forall (fun t => is_entry t = true) Sim.three_callers /\
  let c := crun 0 [1; 2; 2; 1; 0; 0]%nat (start Sim.after_New Sim.three_callers) in
  dead c = None /\
  pool c !! 0%nat = Some (WkSend 0 (Some (OpError "mdb_del" Sim.NOTFOUND))) /\
  exists c' j, cstep 0 0 c = Some c' /\
    pool c !! j = Some (UpdRecv 0) /\
    pool c' !! j = Some (UpdDone (Some (OpError "mdb_del" Sim.NOTFOUND))) /\
    pool c' !! 0%nat = Some WkRecv /\ shared c' = shared c.
Proof.
  assert (Hb : buf (uOps (Sim.db_at Sim.after_New)) = []) by reflexivity.
  assert (Hc : Forall (fun t => is_entry t = true) Sim.three_callers)
    by (repeat constructor).
  assert (Hd : dead (crun 0 [1; 2; 2; 1; 0; 0]%nat
                       (start Sim.after_New Sim.three_callers)) = None)
    by (vm_compute; reflexivity).
  assert (Hs : pool (crun 0 [1; 2; 2; 1; 0; 0]%nat
                       (start Sim.after_New Sim.three_callers)) !! 0%nat =
               Some (WkSend 0 (Some (OpError "mdb_del" Sim.NOTFOUND))))
    by (vm_compute; reflexivity).
  split; [exact after_New_db|]. split; [exact Hb|]. split; [exact Hc|].
  cbv zeta. split; [exact Hd|]. split; [exact Hs|].
  destruct (worker_send_finds_receiver 0 Sim.after_New (Sim.db_at Sim.after_New)
              Sim.three_callers [1; 2; 2; 1; 0; 0]%nat after_New_db Hb Hc)
    as [_ Hsend].
  exact (Hsend Hd _ _ Hs).
Defined.
